(** * ctrando: effect tables, dispatch routines, distributions, tech options

    A shallow embedding of
      - [ctrando/effects/effecttypes.py]   (effect table relocation, the
        bank-switch dispatch routine, the armor and sunshades hooks),
      - [ctrando/common/distribution.py]   (weighted random choice),
      - [ctrando/arguments/techoptions.py] (the [TechOptions] constructor),
      - [ctrando/arguments/postrandooptions.py] ([clip] and the
        [PostRandoOptions] post-initialisation),
    followed by the properties established about them.

    Integers are [Z]; a byte is a [Z] in [0, 256); a byte string is a
    [list Z]; Python exceptions are values of [pyerr] carried by [result]. *)

From Stdlib Require Import ZArith List Lia.
From Stdlib Require Import Floats.SpecFloat.
From stdpp Require Import base option list gmap strings.

Local Open Scope Z_scope.

(* ================================================================== *)
(** * Part I. The embedding                                            *)
(* ================================================================== *)

(** ** Exceptions and the error monad *)

Inductive pyerr : Type :=
  | ValueError
  | OverflowError
  | IndexError
  | ZeroWeightException
  | AllocationError        (* spec 7: no region fits the request *)
  | EncodingRangeError     (* spec 7: branch offset or operand out of range *)
  | SizeMismatchError      (* spec 7: record length mismatch *)
  | UnresolvedLabel
  | TypeError.

Inductive result (A : Type) : Type :=
  | Ok (a : A)
  | Err (e : pyerr).

Arguments Ok {A} a.
Arguments Err {A} e.

Definition rbind {A B : Type} (m : result A) (k : A -> result B) : result B :=
  match m with
  | Ok a => k a
  | Err e => Err e
  end.

Notation "'do' x <- m ; k" := (rbind m (fun x => k))
  (at level 10, x pattern, m at level 100, k at level 200).

Definition of_option {A : Type} (e : pyerr) (o : option A) : result A :=
  match o with
  | Some a => Ok a
  | None => Err e
  end.

Fixpoint rmap {A B : Type} (f : A -> result B) (l : list A) : result (list B) :=
  match l with
  | [] => Ok []
  | a :: r => do b <- f a; do bs <- rmap f r; Ok (b :: bs)
  end.

(** ** Byte strings *)

Definition is_byte (b : Z) : bool := (0 <=? b) && (b <? 256).

(** [bytes([b0, b1, ...])]: every element must be in [range(256)]. *)
Definition py_bytes (l : list Z) : result (list Z) :=
  if forallb is_byte l then Ok l else Err ValueError.

(** The little-endian digits of [int.to_bytes(v, n, "little")], without
    the range check. *)
Fixpoint le_digits (n : nat) (v : Z) : list Z :=
  match n with
  | O => []
  | S k => v mod 256 :: le_digits k (v / 256)
  end.

(** [int.to_bytes(v, n, "little")]: unsigned, [OverflowError] when [v] is
    negative or does not fit in [n] bytes. *)
Definition to_bytes_le (v : Z) (n : nat) : result (list Z) :=
  if (0 <=? v) && (v <? 256 ^ Z.of_nat n) then Ok (le_digits n v)
  else Err OverflowError.

(** [int.from_bytes(bs, "little")]. *)
Fixpoint from_bytes_le (bs : list Z) : Z :=
  match bs with
  | [] => 0
  | b :: r => b + 256 * from_bytes_le r
  end.

Definition zlen {A : Type} (l : list A) : Z := Z.of_nat (length l).

Definition zsum (l : list Z) : Z := fold_right Z.add 0 l.

(** ** The instruction vocabulary ([ctrando.asm.instructions])

    The instruction classes live outside this module; what the routines
    below need from them is the constructor call itself: a mnemonic, an
    optional argument (a number or a label name) and an optional
    addressing mode.  [inst.STA(0x20, AM.DIR)] is [ins STA 0x20 DIR],
    [inst.ASL(mode=AM.NO_ARG)] is [insm ASL NO_ARG], [inst.TAX()] is
    [ins0 TAX], [inst.BCS("new_bank")] is [insl BCS "new_bank"] and
    [inst.REP(0x20)] is [insa REP 0x20]. *)

Inductive AM : Type :=
  | DIR | IMM8 | IMM16 | ABS | ABS_X | ABS_X_16 | LNG | LNG_X | NO_ARG | REL_8.

Inductive mnemonic : Type :=
  | AND | ASL | BCS | BEQ | BIT | BNE | CMP | DEC | JMP | JSL | JSR
  | LDA | LDX | REP | RTS | SBC | SEC | SEP | STA | STX | TAX | TDC | TSB.

Inductive operand : Type :=
  | Num (n : Z)
  | Lbl (s : string).

Record instruction : Type := Inst {
  mnem : mnemonic;
  arg : option operand;
  mode : option AM
}.

(** An [assemble.ASMList] element: an instruction object or a [str] label. *)
Inductive asm_item : Type :=
  | I (i : instruction)
  | L (name : string).

Definition ASMList : Type := list asm_item.

Definition ins (m : mnemonic) (a : Z) (am : AM) : asm_item :=
  I (Inst m (Some (Num a)) (Some am)).
Definition insm (m : mnemonic) (am : AM) : asm_item :=
  I (Inst m None (Some am)).
Definition ins0 (m : mnemonic) : asm_item :=
  I (Inst m None None).
Definition insl (m : mnemonic) (s : string) : asm_item :=
  I (Inst m (Some (Lbl s)) None).
Definition insa (m : mnemonic) (a : Z) : asm_item :=
  I (Inst m (Some (Num a)) None).

(** ** Module constants of [effecttypes.py] *)

Definition EffectMod_SIZE : Z := 3.
Definition EffectMod_ROM_RW : Z := 0x01EB3E.

Definition _vanilla_effect_start : Z := 0x0C2A05.
Definition _vanilla_effect_count : Z := 0x39.
Definition _max_vanilla_routine_index : Z := 0x42.

Definition _current_damage_offset : Z := 0xAD89.
Definition _current_attack_status_offset : Z := 0xAE9B.
Definition _current_attacker_offset : Z := 0xB1F4.

Definition _crown_offset : Z := 0x5E51.
Definition _crown_bit : Z := 0x80.

(** ** [make_bank_switch_rt] (local function of [expand_effect_mods]) *)

Definition make_bank_switch_rt (ptr_table_rom_st : Z) : ASMList :=
  [ ins STA 0x20 DIR;
    ins CMP (_max_vanilla_routine_index + 1) IMM8;
    insl BCS "new_bank";
    insm ASL NO_ARG;
    ins0 TAX;
    ins JMP 0xC1EB45 LNG;
    L "new_bank";
    ins0 SEC;
    ins SBC (_max_vanilla_routine_index + 1) IMM8;
    insm ASL NO_ARG;
    ins0 TAX;
    ins JSR (Z.land ptr_table_rom_st 0xFFFF) ABS_X_16;
    ins JMP 0xC1EB48 LNG ].

(** ** Effect records *)

(** Modelled from the spec: [cttypes.SizedBinaryData] (the base class of
    [EffectMod]) is not part of the module; a record is a fixed-length
    byte sequence, here of [EffectMod.SIZE = 3] bytes, and building one
    from data of another length is the size-mismatch error. *)
Definition EffectMod (data : list Z) : result (list Z) :=
  if zlen data =? EffectMod_SIZE then Ok data else Err SizeMismatchError.

Definition get_spellslinger_effect (effect_id damage_divisor : Z)
  : result (list Z) :=
  if negb ((1 <=? damage_divisor) && (damage_divisor <? 0xFF))
  then Err ValueError
  else do b <- py_bytes [effect_id; 0; damage_divisor]; EffectMod b.

(** ** The effect routines *)

Definition get_venus_bow_rt : ASMList :=
  [ ins LDX 777 IMM16;
    ins STX _current_damage_offset ABS;
    ins0 RTS ].

Definition get_spellslinger_rt : ASMList :=
  let slow_mult_rom_addr := 0xC1FDBF in
  let slow_div_rom_addr := 0xC1FDD3 in
  let mp_offset := 0x5E36 in
  [ ins0 TDC;
    ins LDX _current_attacker_offset ABS;
    insa REP 0x20;
    ins LDA mp_offset ABS_X;
    ins STA 0x28 DIR;
    ins0 TDC;
    insa SEP 0x20;
    ins LDX 0x000A IMM16;
    ins STX 0x2A DIR;
    ins JSL slow_div_rom_addr LNG;
    ins LDX 0x32 DIR;
    ins STX 0x28 DIR;
    ins LDX _current_damage_offset ABS;
    ins STX 0x2A DIR;
    ins JSL slow_mult_rom_addr LNG;
    ins LDX 0x2C DIR;
    ins STX 0x28 DIR;
    ins LDA 0x1E DIR;
    ins0 TAX;
    ins STX 0x2A DIR;
    ins JSL slow_div_rom_addr LNG;
    ins LDX 0x2C DIR;
    ins STX _current_damage_offset ABS;
    ins0 RTS ].

(** The list bound to the local [rt] of [get_on_crit_rt]. *)
Definition get_on_crit_rt_local : ASMList :=
  [ ins LDA _current_attack_status_offset ABS;
    ins AND 0x80 IMM8;
    insl BEQ "end";
    L "end";
    ins0 RTS ].

(** [get_on_crit_rt()]: the body binds [rt] and ends; a Python function
    that ends without [return] yields [None]. *)
Definition get_on_crit_rt : option ASMList :=
  let rt := get_on_crit_rt_local in
  None.

Definition gather_new_effects_and_rts
  : result (list (list Z) * list ASMList) :=
  let routines := [ get_venus_bow_rt; get_spellslinger_rt ] in
  do e0 <- (do b <- py_bytes [_max_vanilla_routine_index + 1; 0; 0]; EffectMod b);
  do e1 <- get_spellslinger_effect (_max_vanilla_routine_index + 2) 2;
  do e2 <- (do b <- py_bytes [0x26; 0x44; 0]; EffectMod b);
  do e3 <- (do b <- py_bytes [0; 0; 0]; EffectMod b);
  do e4 <- (do b <- py_bytes [0; 1; 0]; EffectMod b);
  do e5 <- (do b <- py_bytes [0; 2; 0]; EffectMod b);
  Ok ([e0; e1; e2; e3; e4; e5], routines).

(** ** The routines handed to [asmpatcher.apply_jmp_patch] *)

(** [add_independent_sunshades_effect]: its constants and its routine. *)
Definition sunshades_hook_rom_addr : Z := 0xC1E5D8.
Definition sunshades_return_rom_addr : Z := 0xC1E5DE.

Definition sunshades_rt : ASMList :=
  let slow_mult_rom_addr := 0xC1FDBF in
  let slow_div_rom_addr := 0xC1FDD3 in
  [ ins LDA _crown_offset ABS_X;
    ins BIT _crown_bit IMM8;
    insl BEQ "end";
    ins LDX 0x2C DIR;
    ins STX 0x28 DIR;
    ins LDX 0x0004 IMM16;
    ins STX 0x2A DIR;
    ins JSL slow_div_rom_addr LNG;
    ins LDX 0x2C DIR;
    ins STX 0x28 DIR;
    ins LDX 0x0005 IMM16;
    ins STX 0x2A DIR;
    ins JSL slow_mult_rom_addr LNG;
    L "end";
    ins LDX 0xB1F4 ABS;
    ins LDA 0x5E4B ABS_X;
    ins JMP sunshades_return_rom_addr LNG ].

(** [make_effect_rt], the local function of
    [patch_additional_armor_effects]; [effect_mod_start_rom] is the
    variable it closes over. *)
Definition make_effect_rt (effect_mod_start_rom : Z)
    (battle_index hook_rom_addr : Z) : ASMList :=
  let pc_stat_base := 0x5E2D + 0x80 * battle_index in
  let local_crown_offset := _crown_offset - 0x5E2D in
  let local_status_offset := 0x5E50 - 0x5E2D in
  let local_haste_offset := local_status_offset + 2 in
  let element_offset := 0x3F in
  let early_return_rom_addr := hook_rom_addr + 4 in
  let late_return_rom_addr := hook_rom_addr + 15 in
  [ ins LDA effect_mod_start_rom LNG_X;
    ins CMP 0x00 IMM8;
    insl BEQ "new_rt";
    ins JMP early_return_rom_addr LNG;
    L "new_rt";
    ins LDA (effect_mod_start_rom + 1) LNG_X;
    ins CMP 0x00 IMM8;
    insl BNE "crown";
    ins LDA 0x00 IMM8;
    ins STA (pc_stat_base + element_offset) ABS;
    ins STA (pc_stat_base + element_offset + 1) ABS;
    ins STA (pc_stat_base + element_offset + 2) ABS;
    ins STA (pc_stat_base + element_offset + 3) ABS;
    ins JMP late_return_rom_addr LNG;
    L "crown";
    insm DEC NO_ARG;
    insl BNE "tiara";
    ins LDA 0x80 IMM8;
    ins TSB (pc_stat_base + local_crown_offset) ABS;
    ins LDA 0xFF IMM8;
    ins TSB (pc_stat_base + local_status_offset) ABS;
    ins JMP late_return_rom_addr LNG;
    L "tiara";
    insm DEC NO_ARG;
    insl BNE "end";
    ins LDA 0x80 IMM8;
    ins TSB (pc_stat_base + local_haste_offset) ABS;
    ins LDA 0xFF IMM8;
    ins TSB (pc_stat_base + local_status_offset) ABS;
    L "end";
    ins JMP late_return_rom_addr LNG ].

Definition hook_pc_pairs : list (Z * Z) :=
  [ (0xFDB5A9, 0);
    (0xFDB5C8, 1);
    (0xFDB5E7, 2);
    (0xFDB607, 0);
    (0xFDB626, 1);
    (0xFDB645, 2) ].

(** ** Who calls whom inside [effecttypes.py]

    The functions the module defines (nested ones and the
    [if __name__ == "__main__"] block included) and, for each, the
    functions of the module its body invokes. *)

Inductive module_fn : Type :=
  | F_get_spellslinger_effect
  | F_gather_vanilla_effects
  | F_gather_new_effects_and_rts
  | F_add_independent_sunshades_effect
  | F_patch_additional_armor_effects
  | F_make_effect_rt
  | F_expand_effect_mods
  | F_make_bank_switch_rt
  | F_get_venus_bow_rt
  | F_get_spellslinger_rt
  | F_get_on_crit_rt
  | F_main_block.

Definition module_calls (f : module_fn) : list module_fn :=
  match f with
  | F_gather_new_effects_and_rts =>
      [ F_get_venus_bow_rt; F_get_spellslinger_rt; F_get_spellslinger_effect ]
  | F_patch_additional_armor_effects => [ F_make_effect_rt ]
  | F_expand_effect_mods =>
      [ F_gather_vanilla_effects; F_gather_new_effects_and_rts;
        F_make_bank_switch_rt; F_make_bank_switch_rt;
        F_patch_additional_armor_effects;
        F_add_independent_sunshades_effect ]
  | _ => []
  end.

(** ** What the module imports and this development does not contain

    [byteops.to_rom_ptr] and [byteops.to_file_ptr] (address conversion),
    the opcode table of [ctrando.asm], the free-space manager behind
    [ct_rom.space_manager] and the default placement hint of
    [asmpatcher.apply_jmp_patch] are taken as parameters.
    [get_free_addr fs size hint] is [None] when the manager fails with its
    allocation error. *)

Class Env : Type := {
  to_rom_ptr : Z -> Z;
  to_file_ptr : Z -> Z;
  opcode : mnemonic -> AM -> Z;
  FS : Type;
  get_free_addr : FS -> Z -> Z -> option Z;
  mark_used : FS -> Z -> Z -> FS;
  default_hint : Z
}.

(** ** The assembler, [assemble.assemble] *)

(** Modelled from the spec: the constructors' default addressing modes are
    not part of the module.  Branches on a label are short (relative,
    8-bit), [REP]/[SEP] take an 8-bit immediate, a constructor called
    without argument has no operand. *)
Definition default_mode (m : mnemonic) : AM :=
  match m with
  | BCS | BEQ | BNE => REL_8
  | REP | SEP => IMM8
  | _ => NO_ARG
  end.

(** Modelled from the spec: the addressing-mode tag of an instruction,
    the constructor's default when the call names none. *)
Definition mode_of (i : instruction) : AM :=
  match mode i with
  | Some am => am
  | None => default_mode (mnem i)
  end.

(** Modelled from the spec: each addressing mode has a statically known
    encoded length, one opcode byte plus 0 to 3 operand bytes. *)
Definition operand_size (am : AM) : nat :=
  match am with
  | NO_ARG => 0
  | DIR | IMM8 | REL_8 => 1
  | IMM16 | ABS | ABS_X | ABS_X_16 => 2
  | LNG | LNG_X => 3
  end%nat.

(** Modelled from the spec: the encoded length of an instruction, which
    its addressing mode fixes. *)
Definition inst_size (i : instruction) : Z :=
  1 + Z.of_nat (operand_size (mode_of i)).

(** Modelled from the spec: a label marker takes no bytes. *)
Definition item_size (it : asm_item) : Z :=
  match it with
  | I i => inst_size i
  | L _ => 0
  end.

(** Modelled from the spec: pass 1 of the assembler, which accumulates
    byte offsets and records each label's offset the first time it is
    reached. *)
Fixpoint label_offsets (rt : ASMList) (off : Z) (tbl : gmap string Z)
  : gmap string Z :=
  match rt with
  | [] => tbl
  | L s :: r =>
      label_offsets r off
        (match tbl !! s with Some _ => tbl | None => <[s := off]> tbl end)
  | I i :: r => label_offsets r (off + inst_size i) tbl
  end.

(** Modelled from the spec: an operand emitted verbatim in [n] bytes; a
    value that exceeds the representable range of its addressing mode is
    the encoding-range error. *)
Definition fit_operand (v : Z) (n : nat) : result (list Z) :=
  if (0 <=? v) && (v <? 256 ^ Z.of_nat n) then Ok (le_digits n v)
  else Err EncodingRangeError.

(** Modelled from the spec: operand resolution in pass 2.  A short branch
    on a label gets the signed offset
    [target_offset - (branch_offset + branch_length)], which must fit in
    8 bits; a label under another mode is replaced by its resolved
    address; a numeric operand is emitted verbatim. *)
Definition encode_operand (tbl : gmap string Z) (off : Z) (i : instruction)
  : result (list Z) :=
  let am := mode_of i in
  match arg i with
  | None =>
      match operand_size am with
      | O => Ok []
      | _ => Err EncodingRangeError
      end
  | Some (Num n) => fit_operand n (operand_size am)
  | Some (Lbl s) =>
      do t <- of_option UnresolvedLabel (tbl !! s);
      match am with
      | REL_8 =>
          let d := t - (off + inst_size i) in
          if (-128 <=? d) && (d <=? 127) then Ok [d mod 256]
          else Err EncodingRangeError
      | _ => fit_operand t (operand_size am)
      end
  end.

Section Assembler.
Context `{Env}.

(** Modelled from the spec: pass 2 of the assembler, which walks the
    list again and emits the opcode and operand bytes. *)
Fixpoint emit (tbl : gmap string Z) (rt : ASMList) (off : Z)
  : result (list Z) :=
  match rt with
  | [] => Ok []
  | L _ :: r => emit tbl r off
  | I i :: r =>
      do ob <- encode_operand tbl off i;
      do rest <- emit tbl r (off + inst_size i);
      Ok (opcode (mnem i) (mode_of i) :: ob ++ rest)
  end.

(** Modelled from the spec: [assemble.assemble] is the two-pass,
    deterministic-length assembler of section 4.2. *)
Definition assemble (rt : ASMList) : result (list Z) :=
  emit (label_offsets rt 0 ∅) rt 0.
End Assembler.

(** Modelled from the spec: the byte length pass 1 assigns to a routine,
    the sum of the static lengths of its instructions. *)
Definition static_size (rt : ASMList) : Z := zsum (map item_size rt).

(** ** The image, [ctrom.CTRom]

    [ctrom.CTRom] is not part of the module.  The spec's Image is a
    mutable byte buffer that supports seek and write at absolute offsets,
    a write optionally tagged to mark the touched region as used; it
    carries the free-space manager. *)

(** [FSWriteType]: the tag of a write ([NO_MARK] when none is given). *)
Inductive FSWriteType : Type := NO_MARK | MARK_USED.

(** Modelled from the spec: the buffer is a finite map from offsets to
    bytes; [poke] stores a byte string at consecutive offsets. *)
Fixpoint poke (addr : Z) (bs : list Z) (m : gmap Z Z) : gmap Z Z :=
  match bs with
  | [] => m
  | b :: r => poke (addr + 1) r (<[addr := b]> m)
  end.

(** Modelled from the spec: [peek] reads [n] bytes from an offset, [None]
    when one of them lies outside the buffer. *)
Fixpoint peek (addr : Z) (n : nat) (m : gmap Z Z) : option (list Z) :=
  match n with
  | O => Some []
  | S k =>
      match m !! addr, peek (addr + 1) k m with
      | Some b, Some r => Some (b :: r)
      | _, _ => None
      end
  end.

(** The addresses a write of [n] bytes at [addr] touches. *)
Definition in_block (addr n x : Z) : Prop := addr <= x < addr + n.

Section Image.
Context `{Env}.

(** Modelled from the spec: the image with its cursor and its free-space
    manager. *)
Record CTRom : Type := mkCTRom {
  rom_data : gmap Z Z;
  rom_pos : Z;
  space_manager : FS
}.

(** Modelled from the spec: [ct_rom.seek(addr)]. *)
Definition seek (addr : Z) (ct_rom : CTRom) : CTRom :=
  mkCTRom (rom_data ct_rom) addr (space_manager ct_rom).

(** Modelled from the spec: [ct_rom.write(bs, tag)] stores [bs] at the
    cursor, advances the cursor, and with [MARK_USED] marks the block as
    used. *)
Definition write (bs : list Z) (tag : FSWriteType) (ct_rom : CTRom) : CTRom :=
  let pos := rom_pos ct_rom in
  mkCTRom (poke pos bs (rom_data ct_rom)) (pos + zlen bs)
    (match tag with
     | MARK_USED => mark_used (space_manager ct_rom) pos (pos + zlen bs)
     | NO_MARK => space_manager ct_rom
     end).

(** Modelled from the spec: [cttypes.AbsPointerRW] and
    [SizedBinaryData.read_from_ctrom] are not part of the module.  A
    read dereferences the meta-pointer (the three operand bytes at
    [ROM_RW = 0x01EB3E]) for the table base, then reads [SIZE] bytes at
    [base + index * SIZE]. *)
Definition get_data_start_from_ctrom (ct_rom : CTRom) : result Z :=
  do p <- of_option SizeMismatchError (peek EffectMod_ROM_RW 3 (rom_data ct_rom));
  Ok (to_file_ptr (from_bytes_le p)).

(** Modelled from the spec: [EffectMod.read_from_ctrom(ct_rom, ind)]. *)
Definition read_from_ctrom (ct_rom : CTRom) (ind : Z) : result (list Z) :=
  do start <- get_data_start_from_ctrom ct_rom;
  do b <- of_option SizeMismatchError
            (peek (start + ind * EffectMod_SIZE) 3 (rom_data ct_rom));
  EffectMod b.

Definition zrange (n : Z) : list Z := map Z.of_nat (seq 0 (Z.to_nat n)).

Definition gather_vanilla_effects (ct_rom : CTRom) : result (list (list Z)) :=
  rmap (read_from_ctrom ct_rom) (zrange _vanilla_effect_count).

(** Modelled from the spec: [asmpatcher.apply_jmp_patch] is not part of
    the module.  It assembles the routine, allocates a placement, writes
    the bytes there marked as used, and overwrites the hook with a long
    jump to the placement. *)
Definition apply_jmp_patch (rt : ASMList) (hook_addr : Z) (ct_rom : CTRom)
    (hint : Z) : result CTRom :=
  do rt_b <- assemble rt;
  do addr <- of_option AllocationError
               (get_free_addr (space_manager ct_rom) (zlen rt_b) hint);
  let ct_rom := write rt_b MARK_USED (seek addr ct_rom) in
  do jmp_b <- assemble [ ins JMP (to_rom_ptr addr) LNG ];
  Ok (write jmp_b NO_MARK (seek hook_addr ct_rom)).

Definition add_independent_sunshades_effect (ct_rom : CTRom) : result CTRom :=
  let hook_rom_addr := sunshades_hook_rom_addr in
  let hook_file_addr := to_file_ptr hook_rom_addr in
  let rt := sunshades_rt in
  apply_jmp_patch rt hook_file_addr ct_rom 0x410000.

Fixpoint patch_hooks (effect_mod_start_rom : Z) (pairs : list (Z * Z))
    (ct_rom : CTRom) : result CTRom :=
  match pairs with
  | [] => Ok ct_rom
  | (rom_hook, pc_id) :: r =>
      let file_hook := to_file_ptr rom_hook in
      let rt := make_effect_rt effect_mod_start_rom pc_id rom_hook in
      do ct_rom <- apply_jmp_patch rt file_hook ct_rom default_hint;
      patch_hooks effect_mod_start_rom r ct_rom
  end.

Definition patch_additional_armor_effects (ct_rom : CTRom)
    (effect_mod_start_file : Z) : result CTRom :=
  let effect_mod_start_rom := to_rom_ptr effect_mod_start_file in
  patch_hooks effect_mod_start_rom hook_pc_pairs ct_rom.

(** The calls to [apply_jmp_patch] the two functions above make, in
    order: routine, hook (file address) and placement hint. *)
Definition jmp_patch_calls (effect_mod_start_file : Z)
  : list (ASMList * Z * Z) :=
  map (fun hp : Z * Z =>
         (make_effect_rt (to_rom_ptr effect_mod_start_file) hp.2 hp.1,
          to_file_ptr hp.1, default_hint))
      hook_pc_pairs
  ++ [ (sunshades_rt, to_file_ptr sunshades_hook_rom_addr, 0x410000) ].

Fixpoint apply_jmp_patches (calls : list (ASMList * Z * Z)) (ct_rom : CTRom)
  : result CTRom :=
  match calls with
  | [] => Ok ct_rom
  | (rt, hook, hint) :: r =>
      do ct_rom <- apply_jmp_patch rt hook ct_rom hint;
      apply_jmp_patches r ct_rom
  end.

(** *** [expand_effect_mods] *)

(** [addr_offset_dict], in insertion order (the order [items()]
    iterates in). *)
Definition addr_offset_dict : list (Z * Z) :=
  [ (0x01EB2E, 1); (0x01EB36, 2); (0x01EB3E, 0);
    (0x3DB5B2, 1);
    (0x3DB5D1, 1);
    (0x3DB5F0, 1);
    (0x3DB610, 1);
    (0x3DB62F, 1);
    (0x3DB64E, 1) ].

(** The bytes the operands at the addresses of [addr_offset_dict]
    occupy: three from each address. *)
Definition reference_byte (x : Z) : Prop :=
  exists addr offset, (addr, offset) ∈ addr_offset_dict /\ in_block addr 3 x.

(** The loop [for addr, offset in addr_offset_dict.items()]. *)
Fixpoint rewrite_refs (rom_addr : Z) (items : list (Z * Z)) (ct_rom : CTRom)
  : result CTRom :=
  match items with
  | [] => Ok ct_rom
  | (addr, offset) :: r =>
      do b <- to_bytes_le (rom_addr + offset) 3;
      rewrite_refs rom_addr r (write b NO_MARK (seek addr ct_rom))
  end.

(** The loop [for length in effect_rt_lens[:-1]: ptrs.append(ptrs[-1] + length)],
    started from [ptrs = [last]]; the result is what gets appended. *)
Fixpoint append_ptrs (last : Z) (lens : list Z) : list Z :=
  match lens with
  | [] => []
  | length :: r => (last + length) :: append_ptrs (last + length) r
  end.

(** Lines 350-362: the pointer table [ptr_b] and the joined routines
    [rt_b]. *)
Definition build_ptr_table (payload_addr : Z)
    (additional_effect_routines : list ASMList) (effect_rts : list (list Z))
  : result (list Z * list Z) :=
  let effect_rt_lens := map zlen effect_rts in
  match additional_effect_routines with
  | _ :: _ =>
      let first_ptr :=
        Z.land (payload_addr + zlen additional_effect_routines * 2) 0xFFFF in
      let rt_b := concat effect_rts in
      let ptrs := first_ptr :: append_ptrs first_ptr (removelast effect_rt_lens) in
      do ptr_bs <- rmap (fun ptr => to_bytes_le ptr 2) ptrs;
      Ok (concat ptr_bs, rt_b)
  | [] => Ok ([], [])
  end.

(** Lines 250-263: gather the records, allocate, write the table.  The
    result is the allocated address, the payload and the image. *)
Definition write_effect_table (ct_rom : CTRom)
  : result (Z * list Z * list ASMList * CTRom) :=
  do effects <- gather_vanilla_effects ct_rom;
  do (additional_effects, additional_effect_routines) <- gather_new_effects_and_rts;
  let effects := effects ++ additional_effects in
  let new_size := zlen effects * EffectMod_SIZE in
  do new_eff_start <- of_option AllocationError
    (get_free_addr (space_manager ct_rom) new_size 0x410000);
  let payload := concat effects in
  let ct_rom := seek new_eff_start ct_rom in
  let ct_rom := write payload MARK_USED ct_rom in
  Ok (new_eff_start, payload, additional_effect_routines, ct_rom).

(** Lines 312-365: assemble the routines, allocate, build the routine
    payload and check its length.  The result is the allocated address,
    [ptr_b], [rt_b] and the payload. *)
Definition build_routine_payload (ct_rom : CTRom)
    (additional_effect_routines : list ASMList)
  : result (Z * list Z * list Z * list Z) :=
  do effect_rts <- rmap assemble additional_effect_routines;
  let effect_rt_lens := map zlen effect_rts in
  let dummy_rt := make_bank_switch_rt 0 in
  do dummy_b <- assemble dummy_rt;
  let bank_switch_rt_size := zlen dummy_b in
  let total_size :=
    zsum effect_rt_lens + 2 * zlen effect_rts + bank_switch_rt_size in
  do payload_addr <- of_option AllocationError
    (get_free_addr (space_manager ct_rom) total_size 0x410000);
  let real_bank_switch_rt := make_bank_switch_rt (to_rom_ptr payload_addr) in
  do real_bank_switch_rt_b <- assemble real_bank_switch_rt;
  do (ptr_b, rt_b) <-
    build_ptr_table payload_addr additional_effect_routines effect_rts;
  let payload := ptr_b ++ rt_b ++ real_bank_switch_rt_b in
  if negb (zlen payload =? total_size) then Err ValueError
  else Ok (payload_addr, ptr_b, rt_b, payload).

Definition expand_effect_mods (ct_rom : CTRom) : result CTRom :=
  do (new_eff_start, _, additional_effect_routines, ct_rom) <-
    write_effect_table ct_rom;
  let rom_addr := to_rom_ptr new_eff_start in
  do ct_rom <- rewrite_refs rom_addr addr_offset_dict ct_rom;
  let hook_addr := 0x01EB41 in
  do (payload_addr, ptr_b, rt_b, payload) <-
    build_routine_payload ct_rom additional_effect_routines;
  let bank_switch_addr := payload_addr + zlen rt_b + zlen ptr_b in
  let bank_switch_addr := to_rom_ptr bank_switch_addr in
  do hook_b <- assemble [ ins JMP (to_rom_ptr bank_switch_addr) LNG ];
  let ct_rom := seek payload_addr ct_rom in
  let ct_rom := write payload MARK_USED ct_rom in
  let ct_rom := seek hook_addr ct_rom in
  let ct_rom := write hook_b NO_MARK ct_rom in
  do ct_rom <- patch_additional_armor_effects ct_rom new_eff_start;
  add_independent_sunshades_effect ct_rom.
End Image.

(** ** What the dispatch routine does when it runs

    A reference semantics of the target processor for the nine
    instruction forms [make_bank_switch_rt] uses, under the entry
    conditions the source states ("Enter with 8-bit A, 16-bit X/Y").
    [regC] is the 16-bit accumulator whose low byte is A; arithmetic is on
    A, [TAX] copies all 16 bits into X.  A long jump leaves the routine; an
    indexed indirect call is recorded with the address of the pointer-table
    slot it reads (in the program bank).  What the called routine does is
    outside this semantics: the run goes on after the call with the
    registers as they were. *)

Record cpu : Type := mkCpu {
  regC : Z;
  regX : Z;
  carry : bool;
  direct_page : gmap Z Z
}.

Definition regA (st : cpu) : Z := regC st mod 256.

Definition set_regA (v : Z) (st : cpu) : cpu :=
  mkCpu (regC st / 256 * 256 + v mod 256) (regX st) (carry st) (direct_page st).

Definition set_carry (c : bool) (st : cpu) : cpu :=
  mkCpu (regC st) (regX st) c (direct_page st).

Inductive event : Type :=
  | Call_via (slot : Z) (st : cpu)
  | Jump_long (target : Z) (st : cpu).

(** What one instruction does: go on with a new state, branch to a
    label, call through a pointer slot, or leave by a long jump. *)
Inductive action : Type :=
  | Next (st : cpu)
  | Branch (s : string)
  | Call (slot : Z)
  | Leave (target : Z)
  | Fault.

Definition step (i : instruction) (st : cpu) : action :=
  match mnem i, mode_of i, arg i with
  | STA, DIR, Some (Num n) =>
      Next (mkCpu (regC st) (regX st) (carry st)
              (<[n := regA st]> (direct_page st)))
  | CMP, IMM8, Some (Num n) => Next (set_carry (n <=? regA st) st)
  | BCS, REL_8, Some (Lbl s) => if carry st then Branch s else Next st
  | ASL, NO_ARG, None =>
      Next (set_carry (128 <=? regA st) (set_regA (2 * regA st) st))
  | TAX, NO_ARG, None =>
      Next (mkCpu (regC st) (regC st) (carry st) (direct_page st))
  | SEC, NO_ARG, None => Next (set_carry true st)
  | SBC, IMM8, Some (Num n) =>
      let d := regA st - n - (if carry st then 0 else 1) in
      Next (set_carry (0 <=? d) (set_regA d st))
  | JSR, ABS_X_16, Some (Num n) => Call ((n + regX st) mod 0x10000)
  | JMP, LNG, Some (Num n) => Leave n
  | _, _, _ => Fault
  end.

Fixpoint after_label (s : string) (rt : ASMList) : option ASMList :=
  match rt with
  | [] => None
  | L t :: r => if String.eqb s t then Some r else after_label s r
  | I _ :: r => after_label s r
  end.

Fixpoint run (fuel : nat) (prog rest : ASMList) (st : cpu) : option (list event) :=
  match fuel with
  | O => None
  | S fuel =>
      match rest with
      | [] => None
      | L _ :: r => run fuel prog r st
      | I i :: r =>
          match step i st with
          | Next st' => run fuel prog r st'
          | Branch s =>
              match after_label s prog with
              | Some r' => run fuel prog r' st
              | None => None
              end
          | Call slot =>
              match run fuel prog r st with
              | Some evs => Some (Call_via slot st :: evs)
              | None => None
              end
          | Leave target => Some [ Jump_long target st ]
          | Fault => None
          end
      end
  end.

Definition execute (rt : ASMList) (st : cpu) : option (list event) :=
  run (S (length rt)) rt rt st.

(* ------------------------------------------------------------------ *)
(** ** Python numbers: [int] and [float]

    A [float] is an IEEE 754 binary64 value, [spec_float] with
    [prec = 53] and [emax = 1024]; an [int] is unbounded. *)

Definition float : Type := spec_float.
Definition fzero : float := S754_zero false.
Definition fone : float := S754_finite false 4503599627370496 (-52).
Definition fmul : float -> float -> float := SFmul 53 1024.
Definition fadd : float -> float -> float := SFadd 53 1024.

(** [WeightType = typing.Union[int, float]]. *)
Inductive weight : Type :=
  | WInt (n : Z)
  | WFloat (f : float).

(** [float(n)] for an [int]: the nearest binary64 value, ties to even;
    [OverflowError] when it is out of range. *)
Definition float_of_int (n : Z) : result float :=
  match binary_normalize 53 1024 n 0 false with
  | S754_infinity _ => Err OverflowError
  | f => Ok f
  end.

Definition to_float (w : weight) : result float :=
  match w with
  | WInt n => float_of_int n
  | WFloat f => Ok f
  end.

(** [a + b]: [int + int] is exact; otherwise the [int] operand is
    converted and the sum is the binary64 sum. *)
Definition py_add (a b : weight) : result weight :=
  match a, b with
  | WInt x, WInt y => Ok (WInt (x + y))
  | _, _ => do x <- to_float a; do y <- to_float b; Ok (WFloat (fadd x y))
  end.

(** [w == 0]. *)
Definition py_is_zero (w : weight) : bool :=
  match w with
  | WInt n => n =? 0
  | WFloat f => SFeqb f fzero
  end.

(** [r * w] for a [float] [r]. *)
Definition py_mul_float (r : float) (w : weight) : result float :=
  do f <- to_float w; Ok (fmul r f).

(** [n > f] for an [int] [n] and a [float] [f]: Python compares the exact
    values. *)
Definition int_gt_float (n : Z) (f : float) : bool :=
  match f with
  | S754_nan => false
  | S754_infinity s => s
  | S754_zero _ => 0 <? n
  | S754_finite s m e =>
      let v := if s then Z.neg m else Z.pos m in
      match e with
      | Z.neg p => v <? n * 2 ^ Z.pos p
      | _ => v * 2 ^ e <? n
      end
  end.

(** [w > target] for a [float] [target]. *)
Definition py_gt_float (w : weight) (target : float) : bool :=
  match w with
  | WInt n => int_gt_float n target
  | WFloat f => SFltb target f
  end.


(** [sum(ws)]: starts from the [int] [0] and adds left to right, which is
    also how the loop of [get_random_item] accumulates [cum_weight].
    This is [sum] of CPython up to 3.11, and of every version on [int]s.
    From Python 3.12 on, [sum] over floats compensates for rounding: the
    value it returns can then differ from the left-to-right sum in the
    last bits. *)
Fixpoint py_sum_from (acc : weight) (ws : list weight) : result weight :=
  match ws with
  | [] => Ok acc
  | w :: r => do acc' <- py_add acc w; py_sum_from acc' r
  end.

Definition py_sum (ws : list weight) : result weight := py_sum_from (WInt 0) ws.

(** ** [distribution.py] *)

Module Distribution.

(** [ObjType = typing.Union[T, typing.Sequence[T]]], as
    [isinstance(obj, list)] sees it. *)
Inductive ObjType (T : Type) : Type :=
  | Single (x : T)
  | AList (l : list T).
Arguments Single {T} x.
Arguments AList {T} l.

(** The random source, [RNGType]: [random()] and [choice(seq)], each
    advancing the generator; [choice] is [None] when it raises
    [IndexError] (an empty sequence). *)
Class RNGType (G : Type) : Type := {
  random : G -> float * G;
  choice : forall {T : Type}, list T -> G -> option (T * G)
}.

Section Dist.
Context {T : Type}.

Record t : Type := mk {
  total_weight : weight;
  weight_object_pairs : list (weight * list T)
}.

Fixpoint _handle_weight_object_pairs
    (weight_object_pairs : list (weight * ObjType T))
  : list (weight * list T) :=
  match weight_object_pairs with
  | [] => []
  | (weight, obj) :: rest =>
      if py_is_zero weight then _handle_weight_object_pairs rest
      else
        let obj := match obj with AList l => l | Single x => [x] end in
        match obj with
        | [] => _handle_weight_object_pairs rest
        | _ :: _ => (weight, obj) :: _handle_weight_object_pairs rest
        end
  end.

(** [set_weight_object_pairs]: the object after the call, and the
    exception if one was raised (the attributes assigned before the
    [raise] stay assigned). *)
Definition set_weight_object_pairs (self : t)
    (new_pairs : list (weight * ObjType T)) : t * option pyerr :=
  let cleaned_pairs := _handle_weight_object_pairs new_pairs in
  let self := mk (total_weight self) cleaned_pairs in
  match py_sum (map fst cleaned_pairs) with
  | Err e => (self, Some e)
  | Ok total =>
      let self := mk total cleaned_pairs in
      if py_is_zero total then (self, Some ZeroWeightException)
      else (self, None)
  end.

(** [Distribution.__init__], given its pairs as a list. *)
Definition init (weight_object_pairs : list (weight * ObjType T))
  : result t :=
  let self := mk (WInt 0) [] in
  match set_weight_object_pairs self weight_object_pairs with
  | (_, Some e) => Err e
  | (self, None) => Ok self
  end.

Definition get_total_weight (self : t) : weight := total_weight self.

(** The [for weight, obj in self.weight_object_pairs] loop of
    [get_random_item]: the value list handed to [rng.choice], or the
    final [ValueError('No choice made.')]. *)
Fixpoint choose_pair (target : float) (cum_weight : weight)
    (pairs : list (weight * list T)) : result (list T) :=
  match pairs with
  | [] => Err ValueError
  | (weight, obj) :: rest =>
      do cum_weight <- py_add cum_weight weight;
      if py_gt_float cum_weight target then Ok obj
      else choose_pair target cum_weight rest
  end.

Definition get_random_item {G : Type} `{RNGType G} (self : t) (rng : G)
  : result (T * G) :=
  let (r, rng) := random rng in
  do target <- py_mul_float r (total_weight self);
  do obj <- choose_pair target (WInt 0) (weight_object_pairs self);
  of_option IndexError (choice obj rng).

Definition get_weight_object_pairs (self : t) : list (weight * list T) :=
  weight_object_pairs self.
End Dist.

Arguments t : clear implicits.
End Distribution.

(** A pair as [get_weight_object_pairs] returns it, seen as an argument
    of the constructor: its value is a [list]. *)
Definition as_list_pair {T : Type} (p : weight * list T)
  : weight * Distribution.ObjType T :=
  (p.1, Distribution.AList p.2).

(** ** [techoptions.py] *)

Module TechOrder.
Inductive t : Type := VANILLA | RANDOM | MP_ORDER | MP_TYPE_ORDER.
End TechOrder.

Module TechDamage.
Inductive t : Type := VANILLA | SHUFFLE | RANDOM.
End TechDamage.

(** [max(a, b)] on floats: [b] replaces [a] only when [b > a]. *)
Definition py_max (a b : float) : float := if SFltb a b then b else a.

(** [sorted([a, b])] on floats: the two are swapped only when [b < a]. *)
Definition py_sorted2 (a b : float) : float * float :=
  if SFltb b a then (b, a) else (a, b).

Module TechOptions.
Record t : Type := mk {
  tech_order : TechOrder.t;
  tech_damage : TechDamage.t;
  tech_damage_random_factor_min : float;
  tech_damage_random_factor_max : float;
  preserve_magic : bool;
  black_hole_min : float;
  black_hole_factor : float
}.

(** [TechOptions.__init__], every argument given. *)
Definition init (tech_order : TechOrder.t) (tech_damage : TechDamage.t)
    (tech_damage_random_factor_min tech_damage_random_factor_max : float)
    (preserve_magic : bool) (black_hole_min black_hole_factor : float) : t :=
  let tech_damage_random_factor_min := py_max fzero tech_damage_random_factor_min in
  let tech_damage_random_factor_max := py_max fzero tech_damage_random_factor_max in
  let (tech_damage_random_factor_min, tech_damage_random_factor_max) :=
    py_sorted2 tech_damage_random_factor_min tech_damage_random_factor_max in
  mk tech_order tech_damage
     tech_damage_random_factor_min tech_damage_random_factor_max
     preserve_magic black_hole_min black_hole_factor.
End TechOptions.

(** ** A concrete configuration, used by the examples

    HiROM address conversion, the opcode bytes of the instruction forms
    the routines use (as the disassembly comments of the module show
    them), and a free-space manager that hands out the space from
    [0x410000] upwards. *)

Definition sample_to_rom_ptr (x : Z) : Z :=
  if x <? 0x400000 then x + 0xC00000 else x.

Definition sample_to_file_ptr (x : Z) : Z :=
  if 0xC00000 <=? x then x - 0xC00000 else x.

Definition sample_opcode (m : mnemonic) (am : AM) : Z :=
  match m, am with
  | AND, IMM8 => 0x29 | ASL, NO_ARG => 0x0A
  | BCS, REL_8 => 0xB0 | BEQ, REL_8 => 0xF0 | BNE, REL_8 => 0xD0
  | BIT, IMM8 => 0x89 | CMP, IMM8 => 0xC9 | DEC, NO_ARG => 0x3A
  | JMP, LNG => 0x5C | JSL, LNG => 0x22 | JSR, ABS_X_16 => 0xFC
  | LDA, IMM8 => 0xA9 | LDA, DIR => 0xA5 | LDA, ABS => 0xAD
  | LDA, ABS_X => 0xBD | LDA, LNG_X => 0xBF
  | LDX, IMM16 => 0xA2 | LDX, DIR => 0xA6 | LDX, ABS => 0xAE
  | REP, IMM8 => 0xC2 | RTS, NO_ARG => 0x60
  | SBC, IMM8 => 0xE9 | SEC, NO_ARG => 0x38 | SEP, IMM8 => 0xE2
  | STA, DIR => 0x85 | STA, ABS => 0x8D
  | STX, DIR => 0x86 | STX, ABS => 0x8E
  | TAX, NO_ARG => 0xAA | TDC, NO_ARG => 0x7B | TSB, ABS => 0x0C
  | _, _ => 0xEA
  end.

Definition sample_env : Env := {|
  to_rom_ptr := sample_to_rom_ptr;
  to_file_ptr := sample_to_file_ptr;
  opcode := sample_opcode;
  FS := Z;
  get_free_addr := fun next_free size hint =>
    Some (Z.max (Z.max next_free hint) 0x410000);
  mark_used := fun next_free start stop => Z.max next_free stop;
  default_hint := 0x410000
|}.

(** An image holding the vanilla meta-pointer ([05 2A CC] at [0x01EB3E])
    and a vanilla table whose record [i] is [i, i+1, i+2]. *)
Definition sample_table : list Z :=
  flat_map (fun i => [i; i + 1; i + 2]) (map Z.of_nat (seq 0 57)).

Definition sample_rom : @CTRom sample_env :=
  @mkCTRom sample_env
    (poke _vanilla_effect_start sample_table (poke 0x01EB3E [0x05; 0x2A; 0xCC] ∅))
    0 0x410000.

(** A random source that always answers [r] and picks the first element. *)
Definition const_rng : Distribution.RNGType float := {|
  Distribution.random := fun r => (r, r);
  Distribution.choice := fun T l r =>
    match l with
    | [] => None
    | x :: _ => Some (x, r)
    end
|}.

Definition float_three_quarters : float := S754_finite false 6755399441055744 (-53).

(** ** [postrandooptions.py] *)

(** [sorted(l)] on [int]s: the elements in ascending order.  Each element
    is inserted, from left to right, behind the elements not above it. *)
Fixpoint py_insert (x : Z) (l : list Z) : list Z :=
  match l with
  | [] => [x]
  | y :: r => if x <? y then x :: y :: r else y :: py_insert x r
  end.

Definition py_sorted (l : list Z) : list Z :=
  fold_left (fun acc x => py_insert x acc) l [].

(** [clip(val, min_val, max_val)], on [int]s as its callers use it
    ([clip(int(x), 1, 8)]); indexing past the end would be [IndexError]. *)
Definition clip (val min_val max_val : Z) : result Z :=
  of_option IndexError (py_sorted [min_val; val; max_val] !! 1%nat).

(** A value as a field of the dataclass can hold it: the annotation
    [int] is not enforced, and the options arrive from the command line
    or from a settings file.  Modelled are [int], [bool], [float], [str]
    and [None]. *)
Inductive pyval : Type :=
  | VInt (n : Z)
  | VBool (b : bool)
  | VFloat (f : float)
  | VStr (s : string)
  | VNone.

(** [int(x)] for a [float]: the value truncated toward zero,
    [ValueError] for NaN, [OverflowError] for an infinity. *)
Definition int_of_float (f : float) : result Z :=
  match f with
  | S754_nan => Err ValueError
  | S754_infinity _ => Err OverflowError
  | S754_zero _ => Ok 0
  | S754_finite s m e =>
      let magnitude :=
        match e with
        | Z.neg p => Z.pos m / 2 ^ Z.pos p
        | _ => Z.pos m * 2 ^ e
        end in
      Ok (if s then - magnitude else magnitude)
  end.

(** [int(x)].  How [int] reads a text is the builtin's matter and is
    taken as the parameter [int_of_str] ([ValueError] for a text that is
    no integer literal); [int(None)] is [TypeError]. *)
Definition py_int (int_of_str : string -> result Z) (x : pyval) : result Z :=
  match x with
  | VInt n => Ok n
  | VBool b => Ok (if b then 1 else 0)
  | VFloat f => int_of_float f
  | VStr s => int_of_str s
  | VNone => Err TypeError
  end.

Module PostRandoOptions.
Section Options.
(** [SNESPalette] lives in [ctrando.postrando.palettes]. *)
Variable SNESPalette : Type.
Variable int_of_str : string -> result Z.

Record t : Type := mk {
  default_fast_loc_movement : bool;
  default_fast_ow_movement : bool;
  default_fast_epoch_movement : bool;
  battle_speed : pyval;
  message_speed : pyval;
  battle_memory_cursor : bool;
  menu_memory_cursor : bool;
  window_background : pyval;
  crono_palette : SNESPalette;
  marle_palette : SNESPalette;
  lucca_palette : SNESPalette;
  robo_palette : SNESPalette;
  frog_palette : SNESPalette;
  ayla_palette : SNESPalette;
  magus_palette : SNESPalette
}.

(** [__post_init__], which the generated [__init__] runs after it has
    stored the fields.  An exception of [int(...)] leaves the method, and
    with it the constructor. *)
Definition __post_init__ (self : t) : result t :=
  do b <- py_int int_of_str (battle_speed self);
  do bs <- of_option IndexError (py_sorted [1; b; 8] !! 1%nat);
  do m <- py_int int_of_str (message_speed self);
  do ms <- of_option IndexError (py_sorted [1; m; 8] !! 1%nat);
  Ok (mk (default_fast_loc_movement self) (default_fast_ow_movement self)
         (default_fast_epoch_movement self) (VInt bs) (VInt ms)
         (battle_memory_cursor self) (menu_memory_cursor self)
         (window_background self)
         (crono_palette self) (marle_palette self) (lucca_palette self)
         (robo_palette self) (frog_palette self) (ayla_palette self)
         (magus_palette self)).
End Options.
End PostRandoOptions.

(** ** The fixed patch sites of [expand_effect_mods] *)

(** The bytes of the hooks: four at [hook_addr = 0x01EB41], and four at
    each address a jump patch goes to, the hooks of [hook_pc_pairs] and
    the sunshades hook (a long jump takes four bytes). *)
Definition hook_byte `{Env} (x : Z) : Prop :=
  in_block 0x01EB41 4 x
  \/ exists h, h ∈ map fst hook_pc_pairs ++ [ sunshades_hook_rom_addr ]
               /\ in_block (to_file_ptr h) 4 x.

(** What a call [(rt, hook, hint)] of [apply_jmp_patch] is to leave in
    the image: the assembled routine somewhere, and at the hook the long
    jump to it. *)
Definition patched `{Env} (image : gmap Z Z) (c : ASMList * Z * Z) : Prop :=
  exists addr rt_b jmp_b,
    assemble c.1.1 = Ok rt_b
    /\ peek addr (length rt_b) image = Some rt_b
    /\ assemble [ ins JMP (to_rom_ptr addr) LNG ] = Ok jmp_b
    /\ peek c.1.2 4 image = Some jmp_b.

(** For the sample configuration: the manager hands out the space from
    its mark upwards, so what lies below the mark counts as used. *)
Definition sample_used (next_free : Z) (x : Z) : Prop := x < next_free.

(** ** The ways out of a routine

    The control flow of a routine, instruction by instruction: a long
    jump leaves for its target, [RTS] returns, a conditional branch on a
    label goes on behind the branch and at the label, and every other
    instruction (the calls [JSR] and [JSL] included, which come back)
    goes on behind it.  [Out_end] is running off the end of the list;
    [Out_lost] stands for what is not followed: a jump or branch of
    another form, a label that is not there, the fuel used up. *)

Inductive way_out : Type :=
  | Out_jump (target : Z)
  | Out_return
  | Out_end
  | Out_lost.

Fixpoint ways_out (fuel : nat) (prog rest : ASMList) : list way_out :=
  match fuel with
  | O => [ Out_lost ]
  | S fuel =>
      match rest with
      | [] => [ Out_end ]
      | L _ :: r => ways_out fuel prog r
      | I i :: r =>
          match mnem i, arg i with
          | JMP, Some (Num n) => [ Out_jump n ]
          | JMP, _ => [ Out_lost ]
          | RTS, _ => [ Out_return ]
          | (BCS | BEQ | BNE), Some (Lbl s) =>
              ways_out fuel prog r
              ++ match after_label s prog with
                 | Some r' => ways_out fuel prog r'
                 | None => [ Out_lost ]
                 end
          | (BCS | BEQ | BNE), _ => [ Out_lost ]
          | _, _ => ways_out fuel prog r
          end
      end
  end.

Definition all_ways_out (rt : ASMList) : list way_out :=
  ways_out (S (length rt)) rt rt.

(** ** What the patch routines and the venus bow routine do when they run

    A reference semantics of the target processor for the instruction
    forms of [make_effect_rt], of the sunshades routine and of
    [get_venus_bow_rt], under the entry conditions the source states
    ("8 bit A, 16-bit X/Y"): the accumulator, the index register X, the
    zero flag and the memory, a map from 24-bit addresses to bytes in
    which an absent byte reads 0.  An absolute operand addresses the data
    bank and a direct operand the direct page, which start at
    [data_bank] and [direct_base]; a long operand is an address of its
    own.  X is loaded and stored as two bytes, low byte first.  [CMP]
    sets the zero flag when A equals the operand, a load and [DEC] when
    the result is 0, [BIT] and [TSB] when A and the operand have no bit
    in common.  A long call [JSL] comes back with the state the routine
    at that address leaves, [subroutine]. *)

Record machine : Type := mkMachine {
  acc : Z;
  idx : Z;
  zero : bool;
  memory : gmap Z Z
}.

Record mconfig : Type := mkConfig {
  data_bank : Z;
  direct_base : Z;
  subroutine : Z -> machine -> machine
}.

Definition mread (m : gmap Z Z) (a : Z) : Z := default 0 (m !! a).

Definition read16 (m : gmap Z Z) (a : Z) : Z := mread m a + 256 * mread m (a + 1).

Definition write16 (a v : Z) (m : gmap Z Z) : gmap Z Z :=
  <[a + 1 := v / 256]> (<[a := v mod 256]> m).

Inductive outcome : Type :=
  | Jumped (target : Z) (st : machine)
  | Returned (st : machine).

Inductive maction : Type :=
  | MNext (st : machine)
  | MBranch (s : string)
  | MLeave (target : Z)
  | MReturn
  | MFault.

Definition mstep (cfg : mconfig) (i : instruction) (st : machine) : maction :=
  match mnem i, mode_of i, arg i with
  | LDA, LNG_X, Some (Num n) =>
      let v := mread (memory st) (n + idx st) in
      MNext (mkMachine v (idx st) (v =? 0) (memory st))
  | LDA, ABS_X, Some (Num n) =>
      let v := mread (memory st) (data_bank cfg + n + idx st) in
      MNext (mkMachine v (idx st) (v =? 0) (memory st))
  | LDA, IMM8, Some (Num n) =>
      MNext (mkMachine n (idx st) (n =? 0) (memory st))
  | CMP, IMM8, Some (Num n) =>
      MNext (mkMachine (acc st) (idx st) (acc st =? n) (memory st))
  | BIT, IMM8, Some (Num n) =>
      MNext (mkMachine (acc st) (idx st) (Z.land (acc st) n =? 0) (memory st))
  | BEQ, REL_8, Some (Lbl s) => if zero st then MBranch s else MNext st
  | BNE, REL_8, Some (Lbl s) => if zero st then MNext st else MBranch s
  | DEC, NO_ARG, None =>
      let v := (acc st - 1) mod 256 in
      MNext (mkMachine v (idx st) (v =? 0) (memory st))
  | STA, ABS, Some (Num n) =>
      MNext (mkMachine (acc st) (idx st) (zero st)
               (<[data_bank cfg + n := acc st]> (memory st)))
  | TSB, ABS, Some (Num n) =>
      let v := mread (memory st) (data_bank cfg + n) in
      MNext (mkMachine (acc st) (idx st) (Z.land (acc st) v =? 0)
               (<[data_bank cfg + n := Z.lor v (acc st)]> (memory st)))
  | LDX, IMM16, Some (Num n) =>
      MNext (mkMachine (acc st) n (n =? 0) (memory st))
  | LDX, DIR, Some (Num n) =>
      let v := read16 (memory st) (direct_base cfg + n) in
      MNext (mkMachine (acc st) v (v =? 0) (memory st))
  | LDX, ABS, Some (Num n) =>
      let v := read16 (memory st) (data_bank cfg + n) in
      MNext (mkMachine (acc st) v (v =? 0) (memory st))
  | STX, DIR, Some (Num n) =>
      MNext (mkMachine (acc st) (idx st) (zero st)
               (write16 (direct_base cfg + n) (idx st) (memory st)))
  | STX, ABS, Some (Num n) =>
      MNext (mkMachine (acc st) (idx st) (zero st)
               (write16 (data_bank cfg + n) (idx st) (memory st)))
  | JSL, LNG, Some (Num n) => MNext (subroutine cfg n st)
  | JMP, LNG, Some (Num n) => MLeave n
  | RTS, NO_ARG, None => MReturn
  | _, _, _ => MFault
  end.

Fixpoint mrun (fuel : nat) (cfg : mconfig) (prog rest : ASMList) (st : machine)
  : option outcome :=
  match fuel with
  | O => None
  | S fuel =>
      match rest with
      | [] => None
      | L _ :: r => mrun fuel cfg prog r st
      | I i :: r =>
          match mstep cfg i st with
          | MNext st' => mrun fuel cfg prog r st'
          | MBranch s =>
              match after_label s prog with
              | Some r' => mrun fuel cfg prog r' st
              | None => None
              end
          | MLeave target => Some (Jumped target st)
          | MReturn => Some (Returned st)
          | MFault => None
          end
      end
  end.

Definition mexecute (cfg : mconfig) (rt : ASMList) (st : machine) : option outcome :=
  mrun (S (length rt)) cfg rt rt st.

(** ** Labels of a routine *)

(** Every label an instruction of the routine names is a label the
    routine defines. *)
Definition labels_closed (rt : ASMList) : bool :=
  forallb (fun it =>
             match it with
             | I (Inst _ (Some (Lbl s)) _) =>
                 existsb (fun it' => match it' with
                                     | L t => String.eqb s t
                                     | I _ => false
                                     end) rt
             | _ => true
             end) rt.

(** A free-space manager state of the sample environment with [n] bytes
    left in bank [0x41]. *)
Definition sample_room (next_free : Z) (n : Z) : Prop :=
  0x410000 <= next_free /\ next_free + n <= 0x420000.

(** Options with the given speeds, background 1, nothing else set; the
    palettes are left abstract. *)
Definition sample_options (battle_speed message_speed : pyval)
  : PostRandoOptions.t unit :=
  PostRandoOptions.mk unit false false false battle_speed message_speed
    false false (VInt 1) tt tt tt tt tt tt tt.

(** The float [2.9]. *)
Definition float_2_9 : float := S754_finite false 6530219459687219 (-51).

(** ** Totals for which [get_random_item] makes a choice *)

(** A positive normal binary64 value above the smallest one, [2^-1022]:
    53 significant bits, the exponent in range, and not
    [2^52 * 2^-1074]. *)
Definition normal_above_min (f : float) : bool :=
  match f with
  | S754_finite false m e =>
      bounded 53 1024 m e && (Z.pos (digits2_pos m) =? 53)
      && negb ((Z.pos m =? 2 ^ 52) && (e =? -1074))
  | _ => false
  end.

(** A positive [int], or a float as above. *)
Definition good_total (w : weight) : bool :=
  match w with
  | WInt n => 0 <? n
  | WFloat f => normal_above_min f
  end.

(** The smallest positive normal float, [2^-1022]; the largest float
    below 1, [1 - 2^-53]; the float [0.1]. *)
Definition float_min_normal : float := S754_finite false 4503599627370496 (-1074).
Definition float_below_one : float := S754_finite false 9007199254740991 (-53).
Definition float_tenth : float := S754_finite false 7205759403792794 (-56).


(* ================================================================== *)
(** * Part II. Properties                                              *)
(* ================================================================== *)

(** ** Arithmetic and list helpers *)

Lemma land_FFFF (x : Z) : Z.land x 0xFFFF = x mod 0x10000.
Proof. exact (Z.land_ones x 16 ltac:(lia)). Qed.

Lemma land_FFFF_range (x : Z) : 0 <= Z.land x 0xFFFF < 0x10000.
Proof. rewrite land_FFFF. apply Z.mod_pos_bound. lia. Qed.

Lemma zlen_app {A : Type} (l1 l2 : list A) : zlen (l1 ++ l2) = zlen l1 + zlen l2.
Proof. unfold zlen. rewrite length_app. lia. Qed.

Lemma zlen_cons {A : Type} (x : A) (l : list A) : zlen (x :: l) = 1 + zlen l.
Proof. unfold zlen. cbn [length]. lia. Qed.

Lemma zlen_nonneg {A : Type} (l : list A) : 0 <= zlen l.
Proof. unfold zlen. lia. Qed.

Lemma length_le_digits (n : nat) (v : Z) : length (le_digits n v) = n.
Proof. revert v. induction n as [|n IH]; intros v; cbn; [done | by rewrite IH]. Qed.

(** ** The dispatch routine, run *)

Lemma run_inst fuel prog i r st :
  run (S fuel) prog (I i :: r) st =
    match step i st with
    | Next st' => run fuel prog r st'
    | Branch s =>
        match after_label s prog with
        | Some r' => run fuel prog r' st
        | None => None
        end
    | Call slot =>
        match run fuel prog r st with
        | Some evs => Some (Call_via slot st :: evs)
        | None => None
        end
    | Leave target => Some [ Jump_long target st ]
    | Fault => None
    end.
Proof. reflexivity. Qed.

Lemma run_label fuel prog s r st :
  run (S fuel) prog (L s :: r) st = run fuel prog r st.
Proof. reflexivity. Qed.

Ltac run_step :=
  first [ rewrite run_label
        | rewrite run_inst;
          cbv [step mnem mode_of mode arg default_mode];
          cbv [regA set_carry set_regA regC regX carry direct_page] ].

Ltac zbool b :=
  match b with
  | true => symmetry; apply Z.leb_le; lia
  | false => symmetry; apply Z.leb_gt; lia
  end.

(** Below the split point the routine stores the index at [$20], doubles
    it into X and leaves through the long jump to the vanilla [JSR]. *)
Lemma dispatch_vanilla_path (p : Z) (st : cpu) :
  0 <= regC st < 0x43 ->
  execute (make_bank_switch_rt p) st =
    Some [ Jump_long 0xC1EB45
             (mkCpu (2 * regC st) (2 * regC st) false
                (<[0x20 := regC st]> (direct_page st))) ].
Proof.
  intros Hidx.
  unfold execute, make_bank_switch_rt, ins, insm, ins0, insl.
  change (_max_vanilla_routine_index + 1) with 0x43.
  cbv [length].
  destruct st as [c x cy dp]; cbv [regC direct_page] in *.
  assert (HA : c mod 256 = c) by (apply Z.mod_small; lia).
  assert (Hdiv : c / 256 = 0) by (apply Z.div_small; lia).
  assert (H2 : (2 * c) mod 256 = 2 * c) by (apply Z.mod_small; lia).
  do 2 run_step. rewrite HA.
  replace (0x43 <=? c) with false by zbool false.
  do 2 run_step. rewrite !HA, Hdiv, H2.
  replace (128 <=? c) with false by zbool false.
  do 2 run_step.
  reflexivity.
Qed.

(** From the split point on the routine subtracts [0x43], doubles the
    difference into X, calls through the slot [2 * k] bytes into the
    secondary pointer table and leaves through the long jump to the
    vanilla [RTS]. *)
Lemma dispatch_new_path (p : Z) (st : cpu) (k : Z) :
  0 <= k < 0x80 -> regC st = 0x43 + k ->
  let st1 := mkCpu (2 * k) (2 * k) false
               (<[0x20 := 0x43 + k]> (direct_page st)) in
  execute (make_bank_switch_rt p) st =
    Some [ Call_via ((p + 2 * k) mod 0x10000) st1; Jump_long 0xC1EB48 st1 ].
Proof.
  intros Hk HC st1.
  unfold execute, make_bank_switch_rt, ins, insm, ins0, insl.
  change (_max_vanilla_routine_index + 1) with 0x43.
  cbv [length].
  destruct st as [c x cy dp]; cbv [regC direct_page] in *. subst c.
  assert (HA : (0x43 + k) mod 256 = 0x43 + k) by (apply Z.mod_small; lia).
  assert (Hdiv : (0x43 + k) / 256 = 0) by (apply Z.div_small; lia).
  assert (Hk256 : k mod 256 = k) by (apply Z.mod_small; lia).
  assert (H2k : (2 * k) mod 256 = 2 * k) by (apply Z.mod_small; lia).
  do 2 run_step. rewrite HA.
  replace (0x43 <=? 0x43 + k) with true by zbool true.
  run_step.
  cbn [after_label String.eqb Ascii.eqb Bool.eqb].
  do 2 run_step. rewrite !HA, Hdiv.
  replace (0x43 + k - 0x43 - 0) with k by lia.
  replace (0 <=? k) with true by zbool true.
  rewrite Hk256. change (0 * 256 + k) with k.
  run_step. rewrite Hk256, H2k.
  replace (k / 256) with 0 by (symmetry; apply Z.div_small; lia).
  change (0 * 256 + 2 * k) with (2 * k).
  replace (128 <=? k) with false by zbool false.
  do 3 run_step.
  rewrite land_FFFF, Zplus_mod_idemp_l.
  reflexivity.
Qed.

(** The vanilla path for any accumulator: only the low byte A is
    compared, stored and doubled; the hidden high byte stays and goes to
    X with the doubled index, as with the replaced instructions. *)
Lemma dispatch_vanilla_path_any (p : Z) (st : cpu) :
  regA st < 0x43 ->
  let c := regC st / 256 * 256 + 2 * regA st in
  execute (make_bank_switch_rt p) st =
    Some [ Jump_long 0xC1EB45
             (mkCpu c c false (<[0x20 := regA st]> (direct_page st))) ].
Proof.
  intros Hidx c.
  unfold execute, make_bank_switch_rt, ins, insm, ins0, insl.
  change (_max_vanilla_routine_index + 1) with 0x43.
  cbv [length].
  subst c. destruct st as [c x cy dp]; cbv [regA regC direct_page] in *.
  pose proof (Z.mod_pos_bound c 256 ltac:(lia)) as HA.
  set (a := c mod 256) in *.
  assert (H2 : (2 * a) mod 256 = 2 * a) by (apply Z.mod_small; lia).
  do 2 run_step. fold a.
  replace (0x43 <=? a) with false by zbool false.
  do 2 run_step. fold a. rewrite H2.
  replace (128 <=? a) with false by zbool false.
  do 2 run_step.
  reflexivity.
Qed.

(** The new path for any accumulator: A - 0x43 is doubled in 8 bits, the
    hidden high byte goes to X with it, and the call reads the slot X
    bytes into the table. *)
Lemma dispatch_new_path_any (p : Z) (st : cpu) :
  0x43 <= regA st ->
  let k := regA st - 0x43 in
  let c := regC st / 256 * 256 + (2 * k) mod 256 in
  let st1 := mkCpu c c (128 <=? k) (<[0x20 := regA st]> (direct_page st)) in
  execute (make_bank_switch_rt p) st =
    Some [ Call_via ((p + c) mod 0x10000) st1; Jump_long 0xC1EB48 st1 ].
Proof.
  intros Hidx k c0 st1.
  unfold execute, make_bank_switch_rt, ins, insm, ins0, insl.
  change (_max_vanilla_routine_index + 1) with 0x43.
  cbv [length].
  subst st1 c0 k. destruct st as [c x cy dp]; cbv [regA regC direct_page] in *.
  pose proof (Z.mod_pos_bound c 256 ltac:(lia)) as HA.
  set (a := c mod 256) in *. set (hi := c / 256 * 256).
  assert (Hk : (a - 0x43) mod 256 = a - 0x43) by (apply Z.mod_small; lia).
  assert (Hlow : forall v, 0 <= v < 256 -> (hi + v) mod 256 = v).
  { intros v Hv. unfold hi. rewrite Z.add_comm, Z_mod_plus_full. by apply Z.mod_small. }
  assert (Hhigh : forall v, 0 <= v < 256 -> (hi + v) / 256 * 256 = hi).
  { intros v Hv. unfold hi. rewrite Z.add_comm, Z_div_plus_full by lia.
    rewrite (Z.div_small v) by lia. reflexivity. }
  do 2 run_step. fold a.
  replace (0x43 <=? a) with true by zbool true.
  run_step.
  cbn [after_label String.eqb Ascii.eqb Bool.eqb].
  do 2 run_step. fold a. fold hi.
  replace (a - 0x43 - 0) with (a - 0x43) by lia. rewrite Hk.
  replace (0 <=? a - 0x43) with true by zbool true.
  run_step. rewrite (Hlow (a - 0x43)), (Hhigh (a - 0x43)) by lia.
  do 3 run_step.
  rewrite land_FFFF, Zplus_mod_idemp_l.
  reflexivity.
Qed.

(** C1 (amended). For every pointer-table address [p],
    [make_bank_switch_rt p] is exactly the sequence STA $20; CMP #$43;
    BCS new_bank; ASL; TAX; JMP long 0xC1EB45; new_bank:; SEC; SBC #$43;
    ASL; TAX; JSR (p & 0xFFFF),X; JMP long 0xC1EB48.  The compared
    threshold and the subtracted constant are both
    [_max_vanilla_routine_index + 1 = 0x43].  Run with an index below
    0x43 in A, whatever the rest of the state, the routine leaves for the
    vanilla dispatch at 0xC1EB45 with the index stored at $20 and
    doubled in A and X, as the replaced instructions would have left
    them.  Run with an index 0x43 + k in A it leaves for the vanilla
    return at 0xC1EB48 after a call through the table slot at in-bank
    offset (p + X) mod 0x10000, where X is the 16-bit accumulator after
    the 8-bit doubling: its low byte is 2k mod 256, its high byte the
    hidden high byte of the accumulator.  That slot is entry k of the
    secondary pointer table when k is below 0x80 and the high byte is
    clear. *)
Theorem make_bank_switch_rt_dispatch (p : Z) :
  make_bank_switch_rt p =
    [ ins STA 0x20 DIR; ins CMP 0x43 IMM8; insl BCS "new_bank";
      insm ASL NO_ARG; ins0 TAX; ins JMP 0xC1EB45 LNG;
      L "new_bank";
      ins0 SEC; ins SBC 0x43 IMM8; insm ASL NO_ARG; ins0 TAX;
      ins JSR (Z.land p 0xFFFF) ABS_X_16; ins JMP 0xC1EB48 LNG ]
  /\ _max_vanilla_routine_index + 1 = 0x43
  /\ (forall st : cpu,
        regA st < 0x43 ->
        let c := regC st / 256 * 256 + 2 * regA st in
        execute (make_bank_switch_rt p) st =
          Some [ Jump_long 0xC1EB45
                   (mkCpu c c false (<[0x20 := regA st]> (direct_page st))) ])
  /\ (forall st : cpu,
        0x43 <= regA st ->
        let k := regA st - 0x43 in
        let c := regC st / 256 * 256 + (2 * k) mod 256 in
        let st1 := mkCpu c c (128 <=? k) (<[0x20 := regA st]> (direct_page st)) in
        execute (make_bank_switch_rt p) st =
          Some [ Call_via ((p + c) mod 0x10000) st1; Jump_long 0xC1EB48 st1 ])
  /\ (forall st : cpu,
        0 <= regC st < 0x43 ->
        execute (make_bank_switch_rt p) st =
          Some [ Jump_long 0xC1EB45
                   (mkCpu (2 * regC st) (2 * regC st) false
                      (<[0x20 := regC st]> (direct_page st))) ])
  /\ (forall (st : cpu) (k : Z),
        0 <= k < 0x80 -> regC st = 0x43 + k ->
        let st1 := mkCpu (2 * k) (2 * k) false
                     (<[0x20 := 0x43 + k]> (direct_page st)) in
        execute (make_bank_switch_rt p) st =
          Some [ Call_via ((p + 2 * k) mod 0x10000) st1;
                 Jump_long 0xC1EB48 st1 ]).
Proof.
  split; [reflexivity |].
  split; [reflexivity |].
  split; [intros st Hst; by apply dispatch_vanilla_path_any |].
  split; [intros st Hst; by apply dispatch_new_path_any |].
  split.
  - intros st Hst. by apply dispatch_vanilla_path.
  - intros st k Hk Hst. by apply dispatch_new_path.
Qed.

(** The dispatch at a concrete table address: index 5 takes the vanilla
    path, index 0x44 goes through entry 1 of the table at 0x5F1234. *)
Lemma make_bank_switch_rt_dispatch_witness :
  execute (make_bank_switch_rt 0x5F1234) (mkCpu 5 0 true ∅) =
    Some [ Jump_long 0xC1EB45 (mkCpu 10 10 false (<[0x20 := 5]> ∅)) ]
  /\ execute (make_bank_switch_rt 0x5F1234) (mkCpu 0x44 0 false ∅) =
       Some [ Call_via 0x1236 (mkCpu 2 2 false (<[0x20 := 0x44]> ∅));
              Jump_long 0xC1EB48 (mkCpu 2 2 false (<[0x20 := 0x44]> ∅)) ].
Proof.
  destruct (make_bank_switch_rt_dispatch 0x5F1234) as (_ & _ & _ & _ & Hv & Hn).
  split.
  - apply (Hv (mkCpu 5 0 true ∅)). cbn. lia.
  - apply (Hn (mkCpu 0x44 0 false ∅) 1); cbn; lia.
Defined.

(** C1 as stated fails from index 0xC3 on.  A is 8 bits wide: for index
    0xC3 = 0x43 + 0x80 the doubling of 0x80 wraps to 0, and the routine
    calls through the slot at offset 0 of the table at 0x5F1234, which is
    entry 0, where entry 0x80 would lie 0x100 bytes further on.  With
    the hidden high byte of the accumulator set to 1, index 0x43 calls
    through the slot 0x100 bytes into the table, not through entry 0. *)
Lemma make_bank_switch_rt_dispatch_counterexample :
  execute (make_bank_switch_rt 0x5F1234) (mkCpu 0xC3 0 false ∅) =
    Some [ Call_via 0x1234 (mkCpu 0 0 true (<[0x20 := 0xC3]> ∅));
           Jump_long 0xC1EB48 (mkCpu 0 0 true (<[0x20 := 0xC3]> ∅)) ]
  /\ regA (mkCpu 0xC3 0 false ∅) = 0x43 + 0x80
  /\ (0x5F1234 + 2 * 0) mod 0x10000 = 0x1234
  /\ (0x5F1234 + 2 * 0x80) mod 0x10000 = 0x1334
  /\ execute (make_bank_switch_rt 0x5F1234) (mkCpu 0x0143 0 false ∅) =
       Some [ Call_via 0x1334 (mkCpu 0x100 0x100 false (<[0x20 := 0x43]> ∅));
              Jump_long 0xC1EB48 (mkCpu 0x100 0x100 false (<[0x20 := 0x43]> ∅)) ]
  /\ regA (mkCpu 0x0143 0 false ∅) = 0x43 + 0.
Proof.
  split; [exact (dispatch_new_path_any 0x5F1234 (mkCpu 0xC3 0 false ∅) ltac:(by vm_compute))|].
  split; [reflexivity|]. split; [reflexivity|]. split; [reflexivity|].
  split; [exact (dispatch_new_path_any 0x5F1234 (mkCpu 0x0143 0 false ∅) ltac:(by vm_compute))|].
  reflexivity.
Qed.

(** ** The routines given to [apply_jmp_patch] *)

Lemma patches_are_jmp_patch_calls `{Env} (ct_rom : CTRom) (start : Z) :
  (do ct <- patch_additional_armor_effects ct_rom start;
   add_independent_sunshades_effect ct)
  = apply_jmp_patches (jmp_patch_calls start) ct_rom.
Proof.
  unfold patch_additional_armor_effects, jmp_patch_calls, add_independent_sunshades_effect.
  generalize hook_pc_pairs as pairs. intros pairs. revert ct_rom.
  induction pairs as [|[rom_hook pc_id] pairs IH]; intros ct_rom; cbn.
  - by destruct (apply_jmp_patch _ _ _ _).
  - destruct (apply_jmp_patch _ _ ct_rom _) as [ct1|e]; cbn; [apply IH | done].
Qed.

(** C6. The calls to [apply_jmp_patch] the module makes are those of
    [jmp_patch_calls], and every routine among them ends with a long
    [JMP] to an explicit return address.  The sunshades routine ends
    with JMP long 0xC1E5DE, which is its hook 0xC1E5D8 plus 6, right
    after re-executing the two displaced instructions LDX $B1F4 and
    LDA $5E4B,X; every routine [make_effect_rt] returns ends with
    JMP long to [hook_rom_addr + 15]. *)
Theorem jmp_patch_routines_end_with_long_jump `{Env} (effect_mod_start_file : Z) :
  (forall ct_rom : CTRom,
     (do ct <- patch_additional_armor_effects ct_rom effect_mod_start_file;
      add_independent_sunshades_effect ct)
     = apply_jmp_patches (jmp_patch_calls effect_mod_start_file) ct_rom)
  /\ Forall (fun c : ASMList * Z * Z => exists ret, last c.1.1 = Some (ins JMP ret LNG))
       (jmp_patch_calls effect_mod_start_file)
  /\ last sunshades_rt = Some (ins JMP 0xC1E5DE LNG)
  /\ 0xC1E5DE = sunshades_hook_rom_addr + 6
  /\ (exists pre,
        sunshades_rt =
          pre ++ [ ins LDX 0xB1F4 ABS; ins LDA 0x5E4B ABS_X; ins JMP 0xC1E5DE LNG ])
  /\ (forall start battle_index hook_rom_addr,
        last (make_effect_rt start battle_index hook_rom_addr)
        = Some (ins JMP (hook_rom_addr + 15) LNG)).
Proof.
  split; [|repeat split].
  - intros ct_rom. apply patches_are_jmp_patch_calls.
  - unfold jmp_patch_calls. apply Forall_app. split.
    + apply Forall_fmap, Forall_forall. intros [hook pc] _. cbn. eauto.
    + repeat constructor. cbn. eauto.
  - eexists (take 14 sunshades_rt). reflexivity.
Qed.

(** ** The unused routine *)

(** C8. [get_on_crit_rt] builds a list whose last instruction is RTS,
    returns [None], and no function of the module calls it. *)
Theorem get_on_crit_rt_unused :
  last get_on_crit_rt_local = Some (ins0 RTS)
  /\ get_on_crit_rt = None
  /\ (forall f : module_fn, F_get_on_crit_rt ∉ module_calls f).
Proof.
  repeat split.
  intros f Hin.
  destruct f; cbn in Hin;
    repeat (apply elem_of_cons in Hin as [Hin|Hin]; [discriminate|]);
    by apply elem_of_nil in Hin.
Qed.

(** ** Floats: comparison facts *)

Lemma SFcompare_antisym (a b : float) (c : comparison) :
  SFcompare a b = Some c -> SFcompare b a = Some (CompOpp c).
Proof.
  destruct a as [sa|sa| |sa ma ea], b as [sb|sb| |sb mb eb]; cbn;
    try discriminate;
    repeat match goal with s : bool |- _ => destruct s end;
    cbn; intros [= <-]; try reflexivity;
    rewrite (Z.compare_antisym ea eb);
    destruct (ea ?= eb); cbn; try reflexivity;
    change (Pos.compare_cont Eq mb ma) with (Pos.compare mb ma);
    change (Pos.compare_cont Eq ma mb) with (Pos.compare ma mb);
    rewrite (Pos.compare_antisym ma mb);
    destruct (ma ?= mb)%positive; reflexivity.
Qed.

Lemma SFltb_leb (a b : float) : SFltb a b = true -> SFleb a b = true.
Proof. unfold SFltb, SFleb. by destruct (SFcompare a b) as [[]|]. Qed.

Lemma SFleb_of_not_ltb (a b : float) :
  a <> S754_nan -> b <> S754_nan -> SFltb b a = false -> SFleb a b = true.
Proof.
  intros Ha Hb. unfold SFltb, SFleb.
  destruct (SFcompare b a) as [c|] eqn:E.
  - rewrite (SFcompare_antisym _ _ _ E). by destruct c.
  - destruct a, b; cbn in E; try discriminate; congruence.
Qed.

Lemma py_max_fzero_spec (x : float) :
  py_max fzero x <> S754_nan /\ SFleb fzero (py_max fzero x) = true.
Proof.
  unfold py_max. destruct (SFltb fzero x) eqn:E.
  - split; [| by apply SFltb_leb].
    intros ->. discriminate.
  - split; [discriminate | reflexivity].
Qed.

(** ** [TechOptions] *)

(** C10. For all float arguments, the constructed [TechOptions] has
    [0 <= tech_damage_random_factor_min <= tech_damage_random_factor_max]:
    each input that is not above zero (every negative one, and NaN) is
    replaced by 0.0, and the two clamped values are stored in sorted
    order.  The other five arguments are stored unchanged. *)
Theorem tech_options_factors_clamped_sorted
    (order : TechOrder.t) (damage : TechDamage.t) (fmin fmax : float)
    (pm : bool) (bh_min bh_factor : float) :
  let o := TechOptions.init order damage fmin fmax pm bh_min bh_factor in
  let lo := TechOptions.tech_damage_random_factor_min o in
  let hi := TechOptions.tech_damage_random_factor_max o in
  SFleb fzero lo = true
  /\ SFleb lo hi = true
  /\ ((lo, hi) = (py_max fzero fmin, py_max fzero fmax)
      \/ (lo, hi) = (py_max fzero fmax, py_max fzero fmin))
  /\ (forall x : float, SFltb x fzero = true -> py_max fzero x = fzero)
  /\ TechOptions.tech_order o = order
  /\ TechOptions.tech_damage o = damage
  /\ TechOptions.preserve_magic o = pm
  /\ TechOptions.black_hole_min o = bh_min
  /\ TechOptions.black_hole_factor o = bh_factor.
Proof.
  cbv zeta. unfold TechOptions.init, py_sorted2.
  destruct (py_max_fzero_spec fmin) as [Hn1 Hz1].
  destruct (py_max_fzero_spec fmax) as [Hn2 Hz2].
  destruct (SFltb (py_max fzero fmax) (py_max fzero fmin)) eqn:E; cbn.
  - repeat split; auto using SFltb_leb.
    intros x Hx. unfold py_max.
    destruct (SFltb fzero x) eqn:E'; [|done].
    unfold SFltb in *. destruct (SFcompare x fzero) as [[]|] eqn:C; try discriminate.
    by rewrite (SFcompare_antisym _ _ _ C) in E'.
  - repeat split; auto using SFleb_of_not_ltb.
    intros x Hx. unfold py_max.
    destruct (SFltb fzero x) eqn:E'; [|done].
    unfold SFltb in *. destruct (SFcompare x fzero) as [[]|] eqn:C; try discriminate.
    by rewrite (SFcompare_antisym _ _ _ C) in E'.
Qed.

(** ** The assembler: lengths are static *)

Lemma fit_operand_ok (v : Z) (n : nat) :
  0 <= v < 256 ^ Z.of_nat n -> fit_operand v n = Ok (le_digits n v).
Proof.
  intros Hv. unfold fit_operand.
  replace (0 <=? v) with true by zbool true.
  replace (v <? 256 ^ Z.of_nat n) with true by (symmetry; apply Z.ltb_lt; lia).
  reflexivity.
Qed.

Lemma fit_operand_length (v : Z) (n : nat) (bs : list Z) :
  fit_operand v n = Ok bs -> length bs = n.
Proof.
  unfold fit_operand. destruct (_ && _); [|discriminate].
  intros [= <-]. apply length_le_digits.
Qed.

Lemma encode_operand_length tbl off i ob :
  encode_operand tbl off i = Ok ob -> length ob = operand_size (mode_of i).
Proof.
  unfold encode_operand.
  destruct (arg i) as [[n|s]|].
  - apply fit_operand_length.
  - destruct (tbl !! s) as [t|]; cbn; [|discriminate].
    destruct (mode_of i) eqn:E; try apply fit_operand_length.
    destruct (_ && _); [|discriminate]. by intros [= <-].
  - destruct (operand_size (mode_of i)); [|discriminate]. by intros [= <-].
Qed.

Lemma static_size_cons (it : asm_item) (rt : ASMList) :
  static_size (it :: rt) = item_size it + static_size rt.
Proof. reflexivity. Qed.

Lemma fit_operand_not_ValueError v n : fit_operand v n <> Err ValueError.
Proof. unfold fit_operand. by destruct (_ && _). Qed.

Lemma encode_operand_not_ValueError tbl off i :
  encode_operand tbl off i <> Err ValueError.
Proof.
  unfold encode_operand.
  destruct (arg i) as [[n|s]|].
  - apply fit_operand_not_ValueError.
  - destruct (tbl !! s) as [t|]; cbn; [|done].
    destruct (mode_of i); try apply fit_operand_not_ValueError.
    by destruct (_ && _).
  - by destruct (operand_size (mode_of i)).
Qed.

Section AssemblerFacts.
Context `{Env}.

Lemma emit_length tbl rt off bs :
  emit tbl rt off = Ok bs -> zlen bs = static_size rt.
Proof.
  revert off bs. induction rt as [|[i|s] rt IH]; intros off bs; cbn [emit].
  - by intros [= <-].
  - destruct (encode_operand tbl off i) as [ob|] eqn:Eo; cbn [rbind]; [|discriminate].
    destruct (emit tbl rt (off + inst_size i)) as [rest|] eqn:Er; cbn [rbind]; [|discriminate].
    intros [= <-]. apply IH in Er. apply encode_operand_length in Eo.
    rewrite static_size_cons, zlen_cons, zlen_app, Er.
    cbn [item_size]. unfold inst_size, zlen. rewrite Eo. lia.
  - intros Hbs. apply IH in Hbs. rewrite static_size_cons, Hbs. cbn [item_size]. lia.
Qed.

Lemma assemble_length rt bs : assemble rt = Ok bs -> zlen bs = static_size rt.
Proof. apply emit_length. Qed.

Lemma bank_switch_labels (p : Z) :
  label_offsets (make_bank_switch_rt p) 0 ∅ = {[ "new_bank" := 12 ]}.
Proof. vm_compute. reflexivity. Qed.

(** The bytes of the dispatch routine: only the two operand bytes of the
    indexed call depend on the table address. *)
Lemma assemble_bank_switch (p : Z) :
  assemble (make_bank_switch_rt p) =
    Ok ([ opcode STA DIR; 0x20; opcode CMP IMM8; 0x43; opcode BCS REL_8; 6;
          opcode ASL NO_ARG; opcode TAX NO_ARG;
          opcode JMP LNG; 0x45; 0xEB; 0xC1;
          opcode SEC NO_ARG; opcode SBC IMM8; 0x43;
          opcode ASL NO_ARG; opcode TAX NO_ARG; opcode JSR ABS_X_16 ]
        ++ le_digits 2 (Z.land p 0xFFFF)
        ++ [ opcode JMP LNG; 0x48; 0xEB; 0xC1 ]).
Proof.
  unfold assemble. rewrite bank_switch_labels.
  unfold make_bank_switch_rt, ins, insm, ins0, insl.
  change (_max_vanilla_routine_index + 1) with 0x43.
  pose proof (land_FFFF_range p) as Hq.
  pose proof (fit_operand_ok (Z.land p 0xFFFF) 2 Hq) as Hfit.
  set (q := Z.land p 0xFFFF) in *. clearbody q.
  cbn [emit encode_operand mode_of mode arg mnem default_mode operand_size
       inst_size rbind of_option].
  rewrite lookup_singleton_eq, Hfit.
  vm_compute. reflexivity.
Qed.

Lemma assemble_bank_switch_length (p : Z) :
  exists bs, assemble (make_bank_switch_rt p) = Ok bs /\ zlen bs = 24.
Proof. eexists. split; [apply assemble_bank_switch | reflexivity]. Qed.
End AssemblerFacts.

(** ** The secondary pointer table *)

Lemma rmap_length {A B : Type} (f : A -> result B) (l : list A) (l' : list B) :
  rmap f l = Ok l' -> length l' = length l.
Proof.
  revert l'. induction l as [|a l IH]; intros l'; cbn.
  - by intros [= <-].
  - destruct (f a); cbn; [|discriminate].
    destruct (rmap f l); cbn; [|discriminate].
    intros [= <-]. cbn. f_equal. by apply IH.
Qed.

Lemma rmap_lookup {A B : Type} (f : A -> result B) (l : list A) (l' : list B) i a :
  rmap f l = Ok l' -> l !! i = Some a -> exists b, l' !! i = Some b /\ f a = Ok b.
Proof.
  revert l' i. induction l as [|x l IH]; intros l' i; cbn; [by intros _ ?|].
  destruct (f x) as [b|] eqn:Ef; cbn; [|discriminate].
  destruct (rmap f l) as [bs|]; cbn; [|discriminate].
  intros [= <-]. destruct i as [|i]; cbn.
  - intros [= ->]. eauto.
  - intros Hi. by apply IH.
Qed.

Lemma rmap_ok {A B : Type} (f : A -> result B) (g : A -> B) (l : list A) :
  (forall a, a ∈ l -> f a = Ok (g a)) -> rmap f l = Ok (map g l).
Proof.
  induction l as [|x l IH]; intros Hf; cbn; [done|].
  rewrite Hf by left. cbn. rewrite IH; [done|].
  intros a Ha. apply Hf. by right.
Qed.

Lemma rmap_error {A B : Type} (f : A -> result B) (l : list A) (e : pyerr) :
  rmap f l = Err e -> exists a, a ∈ l /\ f a = Err e.
Proof.
  induction l as [|x l IH]; cbn; [done|].
  destruct (f x) as [b|e'] eqn:Ef; cbn.
  - destruct (rmap f l); cbn; [done|].
    intros [= ->]. destruct IH as (a & Ha & Hfa); [done|].
    exists a. split; [by right | done].
  - intros [= ->]. exists x. split; [by left | done].
Qed.

Lemma zlen_concat {A : Type} (ls : list (list A)) :
  zlen (concat ls) = zsum (map zlen ls).
Proof.
  induction ls as [|l ls IH]; [done|].
  cbn [concat map]. rewrite zlen_app, IH. reflexivity.
Qed.

Lemma zsum_app (l1 l2 : list Z) : zsum (l1 ++ l2) = zsum l1 + zsum l2.
Proof.
  induction l1 as [|x l1 IH]; [done|].
  change (x + zsum (l1 ++ l2) = x + zsum l1 + zsum l2). lia.
Qed.

Lemma zsum_cons (x : Z) (l : list Z) : zsum (x :: l) = x + zsum l.
Proof. reflexivity. Qed.

Lemma zsum_nonneg (l : list Z) : Forall (fun x => 0 <= x) l -> 0 <= zsum l.
Proof. induction 1 as [|x l Hx _ IH]; [done|]. rewrite zsum_cons. lia. Qed.

Lemma length_append_ptrs (last : Z) (lens : list Z) :
  length (append_ptrs last lens) = length lens.
Proof. revert last. induction lens as [|l lens IH]; intros last; cbn; [done | by rewrite IH]. Qed.

(** The [i]-th pointer is the first one plus the lengths of the routines
    before it. *)
Lemma ptrs_lookup (first : Z) (lens : list Z) (i : nat) :
  (i <= length lens)%nat ->
  (first :: append_ptrs first lens) !! i = Some (first + zsum (take i lens)).
Proof.
  revert first i. induction lens as [|l lens IH]; intros first i Hi.
  - assert (i = 0%nat) as -> by (cbn in Hi; lia). cbn. f_equal. lia.
  - destruct i as [|i].
    + cbn. f_equal. lia.
    + cbn [length] in Hi.
      change ((first + l :: append_ptrs (first + l) lens) !! i
              = Some (first + zsum (l :: take i lens))).
      rewrite (IH (first + l) i) by lia. rewrite zsum_cons. f_equal. lia.
Qed.

Lemma to_bytes_le_ok (v : Z) (n : nat) :
  0 <= v < 256 ^ Z.of_nat n -> to_bytes_le v n = Ok (le_digits n v).
Proof.
  intros Hv. unfold to_bytes_le.
  replace (0 <=? v) with true by zbool true.
  replace (v <? 256 ^ Z.of_nat n) with true by (symmetry; apply Z.ltb_lt; lia).
  reflexivity.
Qed.

Lemma to_bytes_le_inv (v : Z) (n : nat) (bs : list Z) :
  to_bytes_le v n = Ok bs -> 0 <= v < 256 ^ Z.of_nat n /\ bs = le_digits n v.
Proof.
  unfold to_bytes_le.
  destruct (0 <=? v) eqn:E1; [|discriminate].
  destruct (v <? 256 ^ Z.of_nat n) eqn:E2; [|discriminate].
  cbn. intros [= <-]. apply Z.leb_le in E1. apply Z.ltb_lt in E2. done.
Qed.

(** Reading entry [i] out of a concatenation of 2-byte strings. *)
Lemma concat_chunks2 (chunks : list (list Z)) (i : nat) (c : list Z) :
  Forall (fun c => length c = 2%nat) chunks ->
  chunks !! i = Some c ->
  take 2 (drop (2 * i) (concat chunks)) = c.
Proof.
  intros Hall. revert i. induction Hall as [|x chunks Hx Hall IH]; intros i; [done|].
  destruct i as [|i]; cbn [lookup list_lookup concat].
  - intros [= ->]. change (2 * 0)%nat with 0%nat. rewrite drop_0.
    by rewrite take_app_length'.
  - intros Hi. replace (2 * S i)%nat with (length x + 2 * i)%nat by lia.
    rewrite drop_app_add. by apply IH.
Qed.

Lemma rmap_Forall {A B : Type} (f : A -> result B) (P : B -> Prop)
    (l : list A) (l' : list B) :
  rmap f l = Ok l' -> (forall a b, f a = Ok b -> P b) -> Forall P l'.
Proof.
  intros Hmap HP. apply Forall_lookup. intros i b Hb.
  assert (Hi : is_Some (l !! i)).
  { apply lookup_lt_is_Some. rewrite <- (rmap_length _ _ _ Hmap).
    by eapply lookup_lt_Some. }
  destruct Hi as [a Ha].
  destruct (rmap_lookup _ _ _ _ _ Hmap Ha) as (b' & Hb' & Hf).
  rewrite Hb in Hb'. injection Hb' as ->. by eapply HP.
Qed.

Lemma zlen_concat_chunks2 (chunks : list (list Z)) :
  Forall (fun c => length c = 2%nat) chunks -> zlen (concat chunks) = 2 * zlen chunks.
Proof.
  induction 1 as [|c chunks Hc _ IH]; [done|].
  cbn [concat]. rewrite zlen_app, zlen_cons, IH. unfold zlen at 1. rewrite Hc. lia.
Qed.

Lemma zsum_take_le (l : list Z) (i : nat) :
  Forall (fun x => 0 <= x) l -> 0 <= zsum (take i l) <= zsum l.
Proof.
  intros Hl. rewrite <- (take_drop i l) at 3. rewrite zsum_app.
  assert (0 <= zsum (take i l)) by (by apply zsum_nonneg, Forall_take).
  assert (0 <= zsum (drop i l)) by (by apply zsum_nonneg, Forall_drop).
  lia.
Qed.

Lemma Forall_zlen_nonneg {A : Type} (ls : list (list A)) :
  Forall (fun x => 0 <= x) (map zlen ls).
Proof. apply Forall_fmap, Forall_forall. intros l _. apply zlen_nonneg. Qed.

Lemma Forall_removelast {A : Type} (P : A -> Prop) (l : list A) :
  Forall P l -> Forall P (removelast l).
Proof. rewrite removelast_firstn_len. apply Forall_take. Qed.

Lemma length_removelast' {A : Type} (l : list A) :
  length (removelast l) = pred (length l).
Proof. rewrite removelast_firstn_len, length_take. lia. Qed.

Lemma build_ptr_table_error payload_addr routines effect_rts e :
  build_ptr_table payload_addr routines effect_rts = Err e -> e = OverflowError.
Proof.
  unfold build_ptr_table. destruct routines; [done|].
  destruct (rmap _ _) as [bs|e'] eqn:E; cbn [rbind]; [done|].
  intros [= ->]. apply rmap_error in E as (ptr & _ & Hptr).
  unfold to_bytes_le in Hptr. destruct (_ && _); congruence.
Qed.

Section PointerTable.
Variable payload_addr : Z.
Variable routines : list ASMList.
Variable effect_rts : list (list Z).
Hypothesis routines_nonempty : routines <> [].
Hypothesis same_length : length effect_rts = length routines.

Let lens := map zlen effect_rts.
Let first_ptr := Z.land (payload_addr + zlen routines * 2) 0xFFFF.
Let ptrs := first_ptr :: append_ptrs first_ptr (removelast lens).

Local Lemma build_ptr_table_unfold :
  build_ptr_table payload_addr routines effect_rts =
    (do ptr_bs <- rmap (fun ptr => to_bytes_le ptr 2) ptrs;
     Ok (concat ptr_bs, concat effect_rts)).
Proof. unfold build_ptr_table. by destruct routines. Qed.

Local Lemma length_lens : length lens = length routines.
Proof. unfold lens. by rewrite length_map. Qed.

Local Lemma length_ptrs : length ptrs = length routines.
Proof.
  unfold ptrs. cbn [length].
  rewrite length_append_ptrs, length_removelast', length_lens.
  destruct routines; [done | reflexivity].
Qed.

Local Lemma ptrs_at (i : nat) :
  (i < length routines)%nat ->
  ptrs !! i = Some (first_ptr + zsum (take i lens)).
Proof.
  intros Hi. unfold ptrs. rewrite ptrs_lookup.
  - rewrite firstn_removelast; [done | by rewrite length_lens].
  - rewrite length_removelast', length_lens. lia.
Qed.

(** The table is built exactly when the last pointer still fits in 16
    bits; otherwise [int.to_bytes] raises [OverflowError]. *)
Lemma build_ptr_table_succeeds :
  (exists ptr_b rt_b,
     build_ptr_table payload_addr routines effect_rts = Ok (ptr_b, rt_b))
  <-> first_ptr + zsum (removelast lens) < 0x10000.
Proof.
  rewrite build_ptr_table_unfold.
  pose proof (land_FFFF_range (payload_addr + zlen routines * 2)) as Hfirst.
  fold first_ptr in Hfirst.
  assert (Hnn : Forall (fun x => 0 <= x) (removelast lens))
    by apply Forall_removelast, Forall_zlen_nonneg.
  split.
  - intros (ptr_b & rt_b & Hb).
    destruct (rmap _ ptrs) as [ptr_bs|] eqn:E; [|discriminate].
    assert (Hlast : ptrs !! length (removelast lens)
                    = Some (first_ptr + zsum (removelast lens))).
    { unfold ptrs. rewrite ptrs_lookup by lia. by rewrite firstn_all. }
    destruct (rmap_lookup _ _ _ _ _ E Hlast) as (b & _ & Hfit).
    apply to_bytes_le_inv in Hfit as [Hr _].
    change (256 ^ Z.of_nat 2) with 0x10000 in Hr. lia.
  - intros Hfit.
    rewrite (rmap_ok _ (le_digits 2)); [cbn; eauto|].
    intros ptr Hin. apply to_bytes_le_ok.
    change (256 ^ Z.of_nat 2) with 0x10000.
    apply list_elem_of_lookup in Hin as [i Hi].
    assert (Hlt : (i <= length (removelast lens))%nat).
    { apply lookup_lt_Some in Hi. unfold ptrs in Hi. cbn [length] in Hi.
      rewrite length_append_ptrs in Hi. lia. }
    unfold ptrs in Hi. rewrite ptrs_lookup in Hi by done. injection Hi as <-.
    pose proof (zsum_take_le (removelast lens) i Hnn). lia.
Qed.

(** What a built table holds. *)
Lemma build_ptr_table_layout (ptr_b rt_b : list Z) :
  build_ptr_table payload_addr routines effect_rts = Ok (ptr_b, rt_b) ->
  rt_b = concat effect_rts
  /\ zlen ptr_b = 2 * zlen routines
  /\ (forall i : nat, (i < length routines)%nat ->
        take 2 (drop (2 * i) ptr_b) =
          le_digits 2
            ((payload_addr + 2 * zlen routines + zsum (take i lens)) mod 0x10000)).
Proof.
  rewrite build_ptr_table_unfold.
  destruct (rmap _ ptrs) as [ptr_bs|] eqn:E; [|discriminate].
  cbn [rbind]. intros [= <- <-].
  assert (Hall : Forall (fun c => length c = 2%nat) ptr_bs).
  { eapply rmap_Forall; [exact E|]. cbn. intros a b Hb.
    apply to_bytes_le_inv in Hb as [_ ->]. apply length_le_digits. }
  split; [done|]. split.
  - rewrite zlen_concat_chunks2 by done. unfold zlen.
    by rewrite (rmap_length _ _ _ E), length_ptrs.
  - intros i Hi.
    destruct (rmap_lookup _ _ _ _ _ E (ptrs_at i Hi)) as (b & Hb & Hfit).
    rewrite (concat_chunks2 _ _ _ Hall Hb).
    apply to_bytes_le_inv in Hfit as [Hr ->].
    change (256 ^ Z.of_nat 2) with 0x10000 in Hr.
    f_equal. unfold first_ptr in *. rewrite land_FFFF in *.
    rewrite <- (Z.mod_small _ _ Hr), Zplus_mod_idemp_l.
    f_equal. lia.
Qed.
End PointerTable.

(** ** The routine payload *)

Lemma concat_lookup_chunk {A : Type} (ls : list (list A)) (i : nat) (l : list A) :
  ls !! i = Some l ->
  take (length l) (drop (length (concat (take i ls))) (concat ls)) = l.
Proof.
  intros Hi.
  rewrite <- (take_drop_middle ls i l Hi) at 2.
  rewrite concat_app, drop_app_length. cbn [concat].
  by rewrite take_app_length.
Qed.

Section RoutinePayload.
Context `{Env}.

(** Taking a successful [build_routine_payload] apart. *)
Lemma build_routine_payload_inv (ct_rom : CTRom) (routines : list ASMList)
    (payload_addr : Z) (ptr_b rt_b payload : list Z) :
  build_routine_payload ct_rom routines = Ok (payload_addr, ptr_b, rt_b, payload) ->
  exists effect_rts bank_switch_b,
    rmap assemble routines = Ok effect_rts
    /\ assemble (make_bank_switch_rt (to_rom_ptr payload_addr)) = Ok bank_switch_b
    /\ build_ptr_table payload_addr routines effect_rts = Ok (ptr_b, rt_b)
    /\ payload = ptr_b ++ rt_b ++ bank_switch_b.
Proof.
  unfold build_routine_payload.
  destruct (rmap assemble routines) as [effect_rts|] eqn:Ert; [|discriminate].
  cbn [rbind].
  destruct (assemble (make_bank_switch_rt 0)) as [dummy_b|]; [|discriminate].
  cbn [rbind].
  destruct (get_free_addr _ _ _) as [addr|]; [|discriminate].
  cbn [rbind of_option].
  destruct (assemble (make_bank_switch_rt (to_rom_ptr addr)))
    as [real_b|] eqn:Ereal; [|discriminate].
  cbn [rbind].
  destruct (build_ptr_table addr routines effect_rts) as [[pb rb]|] eqn:Eptr;
    [|discriminate].
  cbn [rbind].
  destruct (negb _); [discriminate|].
  intros [= <- <- <- <-]. eauto 10.
Qed.

Lemma emit_not_ValueError tbl rt off : emit tbl rt off <> Err ValueError.
Proof.
  revert off. induction rt as [|[i|s] rt IH]; intros off; cbn [emit]; [done| |done].
  destruct (encode_operand tbl off i) as [ob|e] eqn:Eo; cbn [rbind].
  - specialize (IH (off + inst_size i)).
    destruct (emit tbl rt (off + inst_size i)); cbn [rbind]; congruence.
  - intros [= ->]. by apply encode_operand_not_ValueError in Eo.
Qed.

Lemma assemble_not_ValueError rt : assemble rt <> Err ValueError.
Proof. apply emit_not_ValueError. Qed.

(** The length check of [expand_effect_mods] cannot fail. *)
Lemma payload_length_check_passes (ct_rom : CTRom) (routines : list ASMList) :
  build_routine_payload ct_rom routines <> Err ValueError.
Proof.
  unfold build_routine_payload.
  destruct (rmap assemble routines) as [effect_rts|e] eqn:Ert; cbn [rbind].
  2:{ intros [= ->]. apply rmap_error in Ert as (rt & _ & Hrt).
      by apply assemble_not_ValueError in Hrt. }
  destruct (assemble_bank_switch_length 0) as (dummy_b & -> & Hdummy).
  cbn [rbind].
  destruct (get_free_addr _ _ _) as [addr|]; [|done].
  cbn [rbind of_option].
  destruct (assemble_bank_switch_length (to_rom_ptr addr)) as (real_b & -> & Hreal).
  cbn [rbind].
  destruct (build_ptr_table addr routines effect_rts) as [[ptr_b rt_b]|e] eqn:Eptr;
    cbn [rbind].
  2:{ intros [= ->]. by apply build_ptr_table_error in Eptr. }
  assert (Hlen : length effect_rts = length routines) by by eapply rmap_length.
  assert (Hsize : zlen (ptr_b ++ rt_b ++ real_b)
                  = zsum (map zlen effect_rts) + 2 * zlen effect_rts + zlen dummy_b).
  { rewrite !zlen_app, Hdummy, Hreal.
    destruct routines as [|rt0 routines'].
    - destruct effect_rts; [|done]. cbn in Eptr. injection Eptr as <- <-. reflexivity.
    - apply build_ptr_table_layout in Eptr as (-> & Hptr & _); [|done|done].
      rewrite Hptr, zlen_concat. unfold zlen. rewrite Hlen. lia. }
  rewrite Hsize, Z.eqb_refl. done.
Qed.
End RoutinePayload.

(** C4. For every pointer-table address [p] the dispatch routine
    assembles, and to as many bytes as [make_bank_switch_rt 0] does.  In
    general the assembled length is the static size of the routine, in
    which an instruction counts by its mnemonic and addressing mode alone,
    whatever its operand.  Hence in [expand_effect_mods] the payload is
    always [total_size] bytes long: the check never raises its
    [ValueError]. *)
Theorem bank_switch_length_independent `{Env} (p : Z) :
  (exists b b0,
     assemble (make_bank_switch_rt p) = Ok b
     /\ assemble (make_bank_switch_rt 0) = Ok b0
     /\ zlen b = zlen b0)
  /\ (forall (m : mnemonic) (a a' : option operand) (am : option AM),
        inst_size (Inst m a am) = inst_size (Inst m a' am))
  /\ (forall (rt : ASMList) (bs : list Z),
        assemble rt = Ok bs -> zlen bs = static_size rt)
  /\ (forall (ct_rom : CTRom) (routines : list ASMList),
        build_routine_payload ct_rom routines <> Err ValueError).
Proof.
  split; [|split; [|split]].
  - destruct (assemble_bank_switch_length p) as (b & Hb & Hlen).
    destruct (assemble_bank_switch_length 0) as (b0 & Hb0 & Hlen0).
    exists b, b0. repeat split; [done | done | congruence].
  - reflexivity.
  - apply @assemble_length.
  - apply @payload_length_check_passes.
Qed.

(** With the sample opcode table, the venus bow routine assembles to 7
    bytes, its static size. *)
Lemma bank_switch_length_independent_witness :
  @assemble sample_env get_venus_bow_rt = Ok [0xA2; 0x09; 0x03; 0x8E; 0x89; 0xAD; 0x60]
  /\ zlen [0xA2; 0x09; 0x03; 0x8E; 0x89; 0xAD; 0x60] = static_size get_venus_bow_rt.
Proof.
  assert (Hasm : @assemble sample_env get_venus_bow_rt
                 = Ok [0xA2; 0x09; 0x03; 0x8E; 0x89; 0xAD; 0x60])
    by (vm_compute; reflexivity).
  split; [exact Hasm|].
  destruct (@bank_switch_length_independent sample_env 0) as (_ & _ & Hlen & _).
  exact (Hlen _ _ Hasm).
Defined.

(** C3. With R >= 1 routines, the payload [expand_effect_mods] builds is
    the pointer table, then the assembled routines in order, then the
    dispatch routine.  The table takes the first 2R bytes; its entry [i]
    is the little-endian 16-bit value
    [(payload_addr + 2R + sum of the lengths of routines 0..i-1) mod 0x10000],
    and routine [i] starts that many bytes (2R + the lengths before it)
    into the payload.  The table is built exactly when the last pointer,
    computed from the masked first one, still fits in 16 bits. *)
Theorem secondary_pointer_table_layout `{Env} (routines : list ASMList) :
  routines <> [] ->
  (forall (ct_rom : CTRom) (payload_addr : Z) (ptr_b rt_b payload : list Z),
     build_routine_payload ct_rom routines = Ok (payload_addr, ptr_b, rt_b, payload) ->
     exists effect_rts bank_switch_b,
       rmap assemble routines = Ok effect_rts
       /\ assemble (make_bank_switch_rt (to_rom_ptr payload_addr)) = Ok bank_switch_b
       /\ payload = ptr_b ++ concat effect_rts ++ bank_switch_b
       /\ zlen ptr_b = 2 * zlen routines
       /\ (forall i : nat, (i < length routines)%nat ->
             take 2 (drop (2 * i) payload) =
               le_digits 2
                 ((payload_addr + 2 * zlen routines
                   + zsum (take i (map zlen effect_rts))) mod 0x10000))
       /\ (forall (i : nat) (rt_i : list Z), effect_rts !! i = Some rt_i ->
             let offset := (2 * length routines + length (concat (take i effect_rts)))%nat in
             take (length rt_i) (drop offset payload) = rt_i
             /\ Z.of_nat offset = 2 * zlen routines + zsum (take i (map zlen effect_rts))))
  /\ (forall (payload_addr : Z) (effect_rts : list (list Z)),
        length effect_rts = length routines ->
        (exists ptr_b rt_b,
           build_ptr_table payload_addr routines effect_rts = Ok (ptr_b, rt_b))
        <-> Z.land (payload_addr + zlen routines * 2) 0xFFFF
            + zsum (removelast (map zlen effect_rts)) < 0x10000).
Proof.
  intros Hne. split.
  - intros ct_rom payload_addr ptr_b rt_b payload Hbuild.
    apply build_routine_payload_inv in Hbuild
      as (effect_rts & bank_switch_b & Hrts & Hbank & Hptr & ->).
    assert (Hlen : length effect_rts = length routines) by by eapply rmap_length.
    apply build_ptr_table_layout in Hptr as (-> & Hsize & Hentry); [|done|done].
    assert (Hplen : length ptr_b = (2 * length routines)%nat)
      by (unfold zlen in Hsize; lia).
    exists effect_rts, bank_switch_b. repeat split; try done.
    + intros i Hi. rewrite <- (Hentry i Hi).
      rewrite drop_app_le by lia. rewrite take_app_le; [done|].
      rewrite length_drop. lia.
    + rewrite <- Hplen, drop_app_add.
      rewrite drop_app_le.
      2:{ rewrite <- (take_drop i effect_rts) at 2. rewrite concat_app, length_app. lia. }
      rewrite take_app_le.
      2:{ rewrite length_drop.
          rewrite <- (take_drop_middle effect_rts i rt_i) at 1 by done.
          rewrite concat_app, length_app. cbn [concat]. rewrite length_app. lia. }
      by apply concat_lookup_chunk.
    + rewrite Nat2Z.inj_add, Nat2Z.inj_mul.
      change (Z.of_nat (length (concat (take i effect_rts))))
        with (zlen (concat (take i effect_rts))).
      rewrite zlen_concat, <- firstn_map. unfold zlen. lia.
  - intros payload_addr effect_rts Hlen. by apply build_ptr_table_succeeds.
Qed.

(** On the sample image the two routines of [gather_new_effects_and_rts]
    are laid out at [0x410000]: 4 bytes of pointer table, 7 and 55 bytes
    of routines, 24 bytes of dispatch routine. *)
Lemma secondary_pointer_table_layout_witness :
  exists ptr_b rt_b payload,
    @build_routine_payload sample_env sample_rom
      [ get_venus_bow_rt; get_spellslinger_rt ]
    = Ok (0x410000, ptr_b, rt_b, payload)
    /\ zlen ptr_b = 4
    /\ take 2 (drop 0 payload) = [0x04; 0x00]
    /\ take 2 (drop 2 payload) = [0x0B; 0x00].
Proof.
  destruct (@build_routine_payload sample_env sample_rom
              [ get_venus_bow_rt; get_spellslinger_rt ])
    as [[[[addr ptr_b] rt_b] payload]|] eqn:Hbuild;
    [|vm_compute in Hbuild; discriminate].
  assert (Haddr : addr = 0x410000).
  { vm_compute in Hbuild. by injection Hbuild as <- _ _ _. }
  subst addr.
  exists ptr_b, rt_b, payload. split; [reflexivity|].
  destruct (@secondary_pointer_table_layout sample_env
              [ get_venus_bow_rt; get_spellslinger_rt ] ltac:(discriminate))
    as [Hlayout _].
  destruct (Hlayout sample_rom 0x410000 ptr_b rt_b payload Hbuild)
    as (effect_rts & bank_switch_b & Hrts & _ & _ & Hsize & Hentry & _).
  assert (Heff : effect_rts = [ [0xA2; 0x09; 0x03; 0x8E; 0x89; 0xAD; 0x60];
                                nth 1 effect_rts [] ]).
  { vm_compute in Hrts. by injection Hrts as <-. }
  split; [exact Hsize|]. split.
  - exact (Hentry 0%nat ltac:(cbn; lia)).
  - etransitivity; [exact (Hentry 1%nat ltac:(cbn; lia))|].
    rewrite Heff. reflexivity.
Defined.

(** ** The image: reading back what was written *)

Lemma poke_lookup_out (addr : Z) (bs : list Z) (m : gmap Z Z) (x : Z) :
  ~ in_block addr (zlen bs) x -> poke addr bs m !! x = m !! x.
Proof.
  unfold in_block. revert addr m. induction bs as [|b bs IH]; intros addr m Hx; [done|].
  cbn [poke]. rewrite zlen_cons in Hx. pose proof (zlen_nonneg bs).
  rewrite IH by lia. apply lookup_insert_ne. lia.
Qed.

Lemma poke_lookup_in (addr : Z) (bs : list Z) (m : gmap Z Z) (i : nat) :
  (i < length bs)%nat -> poke addr bs m !! (addr + Z.of_nat i) = bs !! i.
Proof.
  revert addr m i. induction bs as [|b bs IH]; intros addr m i Hi; [cbn in Hi; lia|].
  cbn [poke]. destruct i as [|i].
  - rewrite poke_lookup_out by (unfold in_block; lia).
    rewrite Z.add_0_r. apply lookup_insert_eq.
  - cbn [length] in Hi.
    replace (addr + Z.of_nat (S i)) with (addr + 1 + Z.of_nat i) by lia.
    rewrite IH by lia. reflexivity.
Qed.

Lemma peek_ext (addr : Z) (n : nat) (m1 m2 : gmap Z Z) :
  (forall x, in_block addr (Z.of_nat n) x -> m1 !! x = m2 !! x) ->
  peek addr n m1 = peek addr n m2.
Proof.
  unfold in_block. revert addr. induction n as [|n IH]; intros addr Hx; [done|].
  cbn [peek]. rewrite Hx by lia. rewrite (IH (addr + 1)); [done|].
  intros x Hr. apply Hx. lia.
Qed.

Lemma peek_lookup (addr : Z) (n : nat) (m : gmap Z Z) (bs : list Z) :
  length bs = n ->
  (forall i : nat, (i < n)%nat -> m !! (addr + Z.of_nat i) = bs !! i) ->
  peek addr n m = Some bs.
Proof.
  revert addr bs. induction n as [|n IH]; intros addr bs Hlen Hbs.
  - by destruct bs.
  - destruct bs as [|b bs]; [done|]. cbn [peek].
    pose proof (Hbs 0%nat ltac:(lia)) as H0. rewrite Z.add_0_r in H0. rewrite H0.
    cbn [lookup list_lookup]. rewrite (IH (addr + 1) bs); [done | by injection Hlen |].
    intros i Hi. specialize (Hbs (S i) ltac:(lia)).
    replace (addr + 1 + Z.of_nat i) with (addr + Z.of_nat (S i)) by lia. exact Hbs.
Qed.

(** Reading back a slice of what was just written. *)
Lemma peek_poke_slice (addr : Z) (bs : list Z) (m : gmap Z Z) (off n : nat) :
  (off + n <= length bs)%nat ->
  peek (addr + Z.of_nat off) n (poke addr bs m) = Some (take n (drop off bs)).
Proof.
  intros Hlen. apply peek_lookup.
  - rewrite length_take, length_drop. lia.
  - intros i Hi.
    replace (addr + Z.of_nat off + Z.of_nat i) with (addr + Z.of_nat (off + i)) by lia.
    rewrite poke_lookup_in by lia.
    rewrite lookup_take_lt by done. by rewrite lookup_drop.
Qed.

Lemma peek_poke_all (addr : Z) (bs : list Z) (m : gmap Z Z) :
  peek addr (length bs) (poke addr bs m) = Some bs.
Proof.
  pose proof (peek_poke_slice addr bs m 0 (length bs) ltac:(lia)) as Hp.
  rewrite Z.add_0_r, drop_0, firstn_all in Hp. exact Hp.
Qed.

(** A write elsewhere does not change what is read. *)
Lemma peek_poke_disjoint (a : Z) (n : nat) (addr : Z) (bs : list Z) (m : gmap Z Z) :
  (forall x, in_block a (Z.of_nat n) x -> ~ in_block addr (zlen bs) x) ->
  peek a n (poke addr bs m) = peek a n m.
Proof. intros Hd. apply peek_ext. intros x Hx. apply poke_lookup_out. by apply Hd. Qed.

Lemma peek_length (addr : Z) (n : nat) (m : gmap Z Z) (bs : list Z) :
  peek addr n m = Some bs -> length bs = n.
Proof.
  revert addr bs. induction n as [|n IH]; intros addr bs; cbn [peek].
  - by intros [= <-].
  - destruct (m !! addr); [|done].
    destruct (peek (addr + 1) n m) eqn:E; [|done].
    intros [= <-]. cbn. f_equal. by eapply IH.
Qed.

(** ** The relocated effect table *)

Lemma concat_chunks (k : nat) (chunks : list (list Z)) (i : nat) (c : list Z) :
  Forall (fun c => length c = k) chunks ->
  chunks !! i = Some c ->
  take k (drop (k * i) (concat chunks)) = c.
Proof.
  intros Hall. revert i. induction Hall as [|x chunks Hx Hall IH]; intros i; [done|].
  destruct i as [|i]; cbn [lookup list_lookup concat].
  - intros [= ->]. rewrite Nat.mul_0_r, drop_0. by rewrite take_app_length'.
  - intros Hi. replace (k * S i)%nat with (length x + k * i)%nat by lia.
    rewrite drop_app_add. by apply IH.
Qed.

Lemma length_concat_chunks (k : nat) (chunks : list (list Z)) :
  Forall (fun c => length c = k) chunks ->
  length (concat chunks) = (k * length chunks)%nat.
Proof.
  induction 1 as [|c chunks Hc _ IH]; [cbn; lia|].
  cbn [concat length]. rewrite length_app, IH, Hc. lia.
Qed.

Lemma EffectMod_inv (data b : list Z) :
  EffectMod data = Ok b -> b = data /\ length data = 3%nat.
Proof.
  unfold EffectMod, EffectMod_SIZE, zlen.
  destruct (Z.of_nat (length data) =? 3) eqn:E; [|done].
  intros [= <-]. apply Z.eqb_eq in E. split; [done | lia].
Qed.

Lemma gather_new_effects_and_rts_value :
  gather_new_effects_and_rts =
    Ok ([ [0x43; 0; 0]; [0x44; 0; 2]; [0x26; 0x44; 0]; [0; 0; 0]; [0; 1; 0]; [0; 2; 0] ],
        [ get_venus_bow_rt; get_spellslinger_rt ]).
Proof. reflexivity. Qed.

Lemma zrange_lookup (n : Z) (i : nat) :
  (i < Z.to_nat n)%nat -> zrange n !! i = Some (Z.of_nat i).
Proof.
  intros Hi. unfold zrange. rewrite list_lookup_fmap, lookup_seq_lt by done. reflexivity.
Qed.

Section EffectTable.
Context `{Env}.

Lemma read_from_ctrom_length (ct_rom : CTRom) (ind : Z) (b : list Z) :
  read_from_ctrom ct_rom ind = Ok b -> length b = 3%nat.
Proof.
  unfold read_from_ctrom.
  destruct (get_data_start_from_ctrom ct_rom); [|done]. cbn [rbind].
  destruct (peek _ _ _); [|done]. cbn [rbind of_option].
  intros Hb. by apply EffectMod_inv in Hb as [-> ?].
Qed.

Lemma gather_vanilla_effects_inv (ct_rom : CTRom) (vanilla : list (list Z)) :
  gather_vanilla_effects ct_rom = Ok vanilla ->
  length vanilla = 0x39%nat
  /\ Forall (fun c => length c = 3%nat) vanilla
  /\ (forall (i : nat) (v : list Z),
        vanilla !! i = Some v -> read_from_ctrom ct_rom (Z.of_nat i) = Ok v).
Proof.
  unfold gather_vanilla_effects. intros Hg. split; [|split].
  - by rewrite (rmap_length _ _ _ Hg).
  - eapply rmap_Forall; [exact Hg|]. intros a b. apply read_from_ctrom_length.
  - intros i v Hv.
    assert (Hi : (i < 0x39)%nat).
    { apply lookup_lt_Some in Hv. by rewrite (rmap_length _ _ _ Hg) in Hv. }
    destruct (rmap_lookup _ _ _ _ _ Hg (zrange_lookup _vanilla_effect_count i Hi))
      as (b & Hb & Hread).
    congruence.
Qed.

(** Taking a successful [write_effect_table] apart. *)
Lemma write_effect_table_inv (ct_rom ct_rom' : CTRom) (new_eff_start : Z)
    (payload : list Z) (routines : list ASMList) :
  write_effect_table ct_rom = Ok (new_eff_start, payload, routines, ct_rom') ->
  exists vanilla additional,
    gather_vanilla_effects ct_rom = Ok vanilla
    /\ gather_new_effects_and_rts = Ok (additional, routines)
    /\ payload = concat (vanilla ++ additional)
    /\ get_free_addr (space_manager ct_rom)
         (zlen (vanilla ++ additional) * EffectMod_SIZE) 0x410000 = Some new_eff_start
    /\ ct_rom' = write payload MARK_USED (seek new_eff_start ct_rom).
Proof.
  unfold write_effect_table.
  destruct (gather_vanilla_effects ct_rom) as [vanilla|] eqn:Eg; [|done].
  rewrite gather_new_effects_and_rts_value. cbn [rbind].
  destruct (get_free_addr _ _ _) as [addr|] eqn:Ea; [|done].
  cbn [rbind of_option]. intros [= <- <- <- <-].
  eexists vanilla, _. repeat split; try done.
Qed.
End EffectTable.



(** C7 (amended). The relocated table extends the 0x39 vanilla records by
    the six records of [gather_new_effects_and_rts] (one per new routine
    and four armor records): the payload written at [new_eff_start] is
    [(0x39 + 6) * 3 = 0xBD] bytes long, 0x3F records. *)
Theorem relocated_table_size `{Env} (ct_rom ct_rom' : CTRom)
    (new_eff_start : Z) (payload : list Z) (routines : list ASMList) :
  write_effect_table ct_rom = Ok (new_eff_start, payload, routines, ct_rom') ->
  zlen payload = (0x39 + 6) * 3
  /\ zlen payload = 0x3F * EffectMod_SIZE
  /\ (exists additional,
        gather_new_effects_and_rts = Ok (additional, routines)
        /\ length additional = 6%nat /\ length routines = 2%nat)
  /\ rom_data ct_rom' = poke new_eff_start payload (rom_data ct_rom).
Proof.
  intros Hw.
  apply write_effect_table_inv in Hw
    as (vanilla & additional & Hg & Hnew & -> & _ & ->).
  destruct (gather_vanilla_effects_inv _ _ Hg) as (Hlen & Hall & _).
  pose proof Hnew as Hnew'. rewrite gather_new_effects_and_rts_value in Hnew'.
  injection Hnew' as <- <-.
  assert (Hz : zlen (concat (vanilla ++ [ [0x43; 0; 0]; [0x44; 0; 2];
                 [0x26; 0x44; 0]; [0; 0; 0]; [0; 1; 0]; [0; 2; 0] ])) = 189).
  { unfold zlen. rewrite concat_app, length_app, (length_concat_chunks 3 vanilla) by done.
    rewrite Hlen. reflexivity. }
  split; [exact Hz|]. split; [exact Hz|]. split; [|reflexivity].
  eexists. split; [exact Hnew|]. split; reflexivity.
Qed.

(** On the sample image the payload is 189 bytes long. *)
Lemma relocated_table_size_witness :
  exists addr payload routines ct_rom',
    @write_effect_table sample_env sample_rom = Ok (addr, payload, routines, ct_rom')
    /\ zlen payload = 189.
Proof.
  assert (Hrun : match @write_effect_table sample_env sample_rom with
                 | Ok _ => True
                 | Err _ => False
                 end) by (vm_compute; exact Logic.I).
  destruct (@write_effect_table sample_env sample_rom)
    as [[[[addr payload] routines] ct_rom']|] eqn:Hw; [|contradiction].
  exists addr, payload, routines, ct_rom'. split; [reflexivity|].
  exact (proj1 (@relocated_table_size sample_env _ _ _ _ _ Hw)).
Defined.

(** C7 as stated fails: with two added entries the payload would be
    [(0x39 + 2) * 3 = 177] bytes; on the sample image it is 189. *)
Lemma relocated_table_size_counterexample :
  exists addr payload routines ct_rom',
    @write_effect_table sample_env sample_rom = Ok (addr, payload, routines, ct_rom')
    /\ zlen payload <> (0x39 + 2) * 3.
Proof.
  assert (Hrun : match @write_effect_table sample_env sample_rom with
                 | Ok (_, payload, _, _) => zlen payload = 189
                 | Err _ => False
                 end) by (vm_compute; reflexivity).
  destruct (@write_effect_table sample_env sample_rom)
    as [[[[addr payload] routines] ct_rom']|] eqn:Hw; [|contradiction].
  exists addr, payload, routines, ct_rom'. split; [reflexivity|].
  rewrite Hrun. discriminate.
Qed.

(** ** The rewritten references *)

Lemma reference_byte_cases (x : Z) :
  reference_byte x <->
  Exists (fun ao : Z * Z => in_block ao.1 3 x) addr_offset_dict.
Proof.
  unfold reference_byte. rewrite Exists_exists. split.
  - intros (addr & offset & Hin & Hx). exists (addr, offset). by split.
  - intros ([addr offset] & Hin & Hx). eauto.
Qed.

Lemma addr_offset_dict_disjoint :
  ForallOrdPairs (fun a b : Z * Z => a.1 + 3 <= b.1 \/ b.1 + 3 <= a.1)
    addr_offset_dict.
Proof. unfold addr_offset_dict. repeat constructor; cbn; lia. Qed.

Section References.
Context `{Env}.

Lemma rom_data_write (bs : list Z) (tag : FSWriteType) (addr : Z) (ct_rom : CTRom) :
  rom_data (write bs tag (seek addr ct_rom)) = poke addr bs (rom_data ct_rom).
Proof. reflexivity. Qed.

(** The loop changes nothing outside the three bytes at each address it
    is given, and leaves the free-space manager alone. *)
Lemma rewrite_refs_frame (rom_addr : Z) (items : list (Z * Z)) (ct_rom ct_rom' : CTRom) :
  rewrite_refs rom_addr items ct_rom = Ok ct_rom' ->
  (forall x, Forall (fun ao : Z * Z => ~ in_block ao.1 3 x) items ->
             rom_data ct_rom' !! x = rom_data ct_rom !! x)
  /\ space_manager ct_rom' = space_manager ct_rom.
Proof.
  revert ct_rom. induction items as [|[addr offset] items IH]; intros ct_rom; cbn [rewrite_refs].
  - by intros [= <-].
  - destruct (to_bytes_le (rom_addr + offset) 3) as [b|] eqn:Eb; [|done].
    cbn [rbind]. intros Hr. apply IH in Hr as [Hdata Hfs]. split; [|by rewrite Hfs].
    intros x Hx. apply Forall_cons in Hx as [Hx Hxs].
    rewrite (Hdata x Hxs), rom_data_write. apply poke_lookup_out.
    apply to_bytes_le_inv in Eb as [_ ->].
    unfold zlen. rewrite length_le_digits. exact Hx.
Qed.

(** After the loop each address holds the three little-endian bytes of
    [rom_addr + offset]. *)
Lemma rewrite_refs_written (rom_addr : Z) (items : list (Z * Z)) (ct_rom ct_rom' : CTRom) :
  ForallOrdPairs (fun a b : Z * Z => a.1 + 3 <= b.1 \/ b.1 + 3 <= a.1) items ->
  rewrite_refs rom_addr items ct_rom = Ok ct_rom' ->
  Forall (fun ao : Z * Z =>
            0 <= rom_addr + ao.2 < 2 ^ 24
            /\ peek ao.1 3 (rom_data ct_rom') = Some (le_digits 3 (rom_addr + ao.2)))
    items.
Proof.
  intros Hdis. revert ct_rom.
  induction Hdis as [|[addr offset] items Hhead Htail IH]; intros ct_rom;
    cbn [rewrite_refs]; [constructor|].
  destruct (to_bytes_le (rom_addr + offset) 3) as [b|] eqn:Eb; [|done].
  cbn [rbind]. intros Hr. constructor; [|by eapply IH].
  apply to_bytes_le_inv in Eb as [Hrange ->]. split; [exact Hrange|].
  cbn [fst snd].
  destruct (rewrite_refs_frame _ _ _ _ Hr) as [Hdata _].
  rewrite (peek_ext addr 3 _ (poke addr (le_digits 3 (rom_addr + offset)) (rom_data ct_rom))).
  - exact (peek_poke_all addr (le_digits 3 (rom_addr + offset)) (rom_data ct_rom)).
  - intros x Hx. rewrite Hdata; [by rewrite rom_data_write|].
    eapply Forall_impl; [exact Hhead|]. cbn. unfold in_block in *. intros [b o]. cbn. lia.
Qed.

(** A jump patch changes nothing outside the block it allocates and the
    four bytes at its hook. *)
Lemma apply_jmp_patch_frame (P : Z -> Prop) (rt : ASMList) (hook hint : Z)
    (ct_rom ct_rom' : CTRom) :
  (forall fs size h a, get_free_addr fs size h = Some a ->
                       forall x, in_block a size x -> ~ P x) ->
  (forall x, in_block hook 4 x -> ~ P x) ->
  apply_jmp_patch rt hook ct_rom hint = Ok ct_rom' ->
  forall x, P x -> rom_data ct_rom' !! x = rom_data ct_rom !! x.
Proof.
  intros Halloc Hhook. unfold apply_jmp_patch.
  destruct (assemble rt) as [rt_b|]; [|done]. cbn [rbind].
  destruct (get_free_addr _ _ _) as [addr|] eqn:Ea; [|done]. cbn [rbind of_option].
  destruct (assemble [_]) as [jmp_b|] eqn:Ej; [|done]. cbn [rbind].
  intros [= <-] x Hx. rewrite !rom_data_write.
  apply assemble_length in Ej. change (static_size _) with 4 in Ej.
  rewrite poke_lookup_out by (rewrite Ej; intros Hb; by apply (Hhook x)).
  apply poke_lookup_out. intros Hb. by apply (Halloc _ _ _ _ Ea x).
Qed.

Lemma apply_jmp_patches_frame (P : Z -> Prop) (calls : list (ASMList * Z * Z))
    (ct_rom ct_rom' : CTRom) :
  (forall fs size h a, get_free_addr fs size h = Some a ->
                       forall x, in_block a size x -> ~ P x) ->
  Forall (fun c : ASMList * Z * Z => forall x, in_block c.1.2 4 x -> ~ P x) calls ->
  apply_jmp_patches calls ct_rom = Ok ct_rom' ->
  forall x, P x -> rom_data ct_rom' !! x = rom_data ct_rom !! x.
Proof.
  intros Halloc Hhooks. revert ct_rom.
  induction Hhooks as [|[[rt hook] hint] calls Hhook _ IH]; intros ct_rom;
    cbn [apply_jmp_patches].
  - by intros [= <-].
  - destruct (apply_jmp_patch rt hook ct_rom hint) as [ct1|] eqn:E1; [|done].
    cbn [rbind]. intros Hrest x Hx.
    rewrite (IH _ Hrest x Hx). by eapply apply_jmp_patch_frame.
Qed.

Lemma build_routine_payload_alloc (ct_rom : CTRom) (routines : list ASMList)
    (payload_addr : Z) (ptr_b rt_b payload : list Z) :
  build_routine_payload ct_rom routines = Ok (payload_addr, ptr_b, rt_b, payload) ->
  get_free_addr (space_manager ct_rom) (zlen payload) 0x410000 = Some payload_addr.
Proof.
  unfold build_routine_payload.
  destruct (rmap assemble routines) as [effect_rts|]; [|done]. cbn [rbind].
  destruct (assemble (make_bank_switch_rt 0)) as [dummy_b|]; [|done]. cbn [rbind].
  destruct (get_free_addr _ _ _) as [addr|] eqn:Ea; [|done]. cbn [rbind of_option].
  destruct (assemble (make_bank_switch_rt (to_rom_ptr addr))) as [real_b|]; [|done].
  cbn [rbind].
  destruct (build_ptr_table addr routines effect_rts) as [[pb rb]|]; [|done].
  cbn [rbind].
  destruct (zlen (pb ++ rb ++ real_b) =? _) eqn:Echeck; [|done].
  cbn [negb]. intros [= <- <- <- <-]. apply Z.eqb_eq in Echeck. by rewrite Echeck.
Qed.

(** [expand_effect_mods], stage by stage. *)
Lemma expand_effect_mods_inv (ct_rom ct_final : CTRom) :
  expand_effect_mods ct_rom = Ok ct_final ->
  exists new_eff_start table routines ct1 ct2 payload_addr ptr_b rt_b payload hook_b,
    write_effect_table ct_rom = Ok (new_eff_start, table, routines, ct1)
    /\ rewrite_refs (to_rom_ptr new_eff_start) addr_offset_dict ct1 = Ok ct2
    /\ build_routine_payload ct2 routines = Ok (payload_addr, ptr_b, rt_b, payload)
    /\ assemble [ ins JMP (to_rom_ptr (to_rom_ptr (payload_addr + zlen rt_b + zlen ptr_b))) LNG ]
       = Ok hook_b
    /\ apply_jmp_patches (jmp_patch_calls new_eff_start)
         (write hook_b NO_MARK
            (seek 0x01EB41 (write payload MARK_USED (seek payload_addr ct2))))
       = Ok ct_final.
Proof.
  unfold expand_effect_mods.
  destruct (write_effect_table ct_rom) as [[[[s table] routines] ct1]|] eqn:E1; [|done].
  cbn [rbind].
  destruct (rewrite_refs _ _ ct1) as [ct2|] eqn:E2; [|done]. cbn [rbind].
  destruct (build_routine_payload ct2 routines) as [[[[pa pb] rb] payload]|] eqn:E3;
    [|done].
  cbn [rbind].
  destruct (assemble [_]) as [hook_b|] eqn:E4; [|done]. cbn [rbind].
  rewrite patches_are_jmp_patch_calls. intros Hp.
  exists s, table, routines, ct1, ct2, pa, pb, rb, payload, hook_b.
  exact (conj eq_refl (conj E2 (conj E3 (conj E4 Hp)))).
Qed.
End References.

Lemma reference_byte_range (x : Z) :
  reference_byte x ->
  0x01EB2E <= x < 0x01EB31 \/ 0x01EB36 <= x < 0x01EB39 \/ 0x01EB3E <= x < 0x01EB41
  \/ 0x3DB5B2 <= x < 0x3DB5B5 \/ 0x3DB5D1 <= x < 0x3DB5D4 \/ 0x3DB5F0 <= x < 0x3DB5F3
  \/ 0x3DB610 <= x < 0x3DB613 \/ 0x3DB62F <= x < 0x3DB632 \/ 0x3DB64E <= x < 0x3DB651.
Proof.
  rewrite reference_byte_cases. unfold addr_offset_dict, in_block.
  rewrite !Exists_cons, Exists_nil. cbn [fst]. lia.
Qed.

Lemma reference_byte_of_block (ao : Z * Z) (x : Z) :
  ao ∈ addr_offset_dict -> in_block ao.1 3 x -> reference_byte x.
Proof. destruct ao as [addr offset]. intros Hin Hx. exists addr, offset. by split. Qed.

(** C5. After [expand_effect_mods] has run, each of the nine addresses of
    [addr_offset_dict] holds the three little-endian bytes of
    [to_rom_ptr new_eff_start + offset], with the dict's offset (0, 1 or
    2), where [new_eff_start] is the address allocated for the relocated
    table; and the rewriting loop changes no byte outside those nine
    operands.  The free-space manager is assumed never to hand out the
    operand bytes, and the seven jump-patch hooks not to overlap them. *)
Theorem effect_table_references_rewritten `{Env} (ct_rom ct_final : CTRom) :
  (forall fs size hint a,
     get_free_addr fs size hint = Some a ->
     forall x, in_block a size x -> ~ reference_byte x) ->
  (forall h, h ∈ map fst hook_pc_pairs ++ [ sunshades_hook_rom_addr ] ->
             forall x, in_block (to_file_ptr h) 4 x -> ~ reference_byte x) ->
  expand_effect_mods ct_rom = Ok ct_final ->
  exists new_eff_start,
    get_free_addr (space_manager ct_rom) ((0x39 + 6) * 3) 0x410000 = Some new_eff_start
    /\ Forall (fun ao : Z * Z =>
                 0 <= to_rom_ptr new_eff_start + ao.2 < 2 ^ 24
                 /\ peek ao.1 3 (rom_data ct_final)
                    = Some (le_digits 3 (to_rom_ptr new_eff_start + ao.2)))
         addr_offset_dict
    /\ addr_offset_dict =
         [ (0x01EB2E, 1); (0x01EB36, 2); (0x01EB3E, 0); (0x3DB5B2, 1); (0x3DB5D1, 1);
           (0x3DB5F0, 1); (0x3DB610, 1); (0x3DB62F, 1); (0x3DB64E, 1) ]
    /\ (forall (rom_addr : Z) (ct1 ct2 : CTRom),
          rewrite_refs rom_addr addr_offset_dict ct1 = Ok ct2 ->
          forall x, ~ reference_byte x -> rom_data ct2 !! x = rom_data ct1 !! x).
Proof.
  intros Halloc Hhooks Hrun.
  apply expand_effect_mods_inv in Hrun
    as (s & table & routines & ct1 & ct2 & pa & ptr_b & rt_b & payload & hook_b
        & Htable & Hrefs & Hbuild & Hhook & Hpatches).
  exists s. split; [|split; [|split; [reflexivity|]]].
  - apply write_effect_table_inv in Htable
      as (vanilla & additional & Hg & Hnew & _ & Ha & _).
    rewrite gather_new_effects_and_rts_value in Hnew. injection Hnew as <- _.
    destruct (gather_vanilla_effects_inv _ _ Hg) as (Hlen & _ & _).
    rewrite <- Ha. f_equal. unfold zlen, EffectMod_SIZE. rewrite length_app, Hlen.
    reflexivity.
  - (* the bytes written by the loop survive the later writes *)
    assert (Hkeep : forall x, reference_byte x ->
                              rom_data ct_final !! x = rom_data ct2 !! x).
    { intros x Hx.
      assert (Hcalls : Forall (fun c : ASMList * Z * Z =>
                                 forall x, in_block c.1.2 4 x -> ~ reference_byte x)
                         (jmp_patch_calls s)); [|
      rewrite (apply_jmp_patches_frame reference_byte _ _ _ Halloc Hcalls Hpatches x Hx)].
      2:{ rewrite !rom_data_write.
        apply assemble_length in Hhook. change (static_size _) with 4 in Hhook.
        rewrite poke_lookup_out.
        + apply poke_lookup_out. intros Hb.
          by apply (Halloc _ _ _ _ (build_routine_payload_alloc _ _ _ _ _ _ Hbuild) x).
        + rewrite Hhook. unfold in_block.
          apply reference_byte_range in Hx. lia. }
      unfold jmp_patch_calls. apply Forall_app. split.
      - apply Forall_fmap, Forall_forall. intros [hook pc] Hin. cbn.
        apply Hhooks. apply elem_of_app. left.
        apply list_elem_of_fmap. by exists (hook, pc).
      - constructor; [|constructor]. cbn. apply Hhooks.
        apply elem_of_app. right. by left. }
    pose proof (rewrite_refs_written _ _ _ _ addr_offset_dict_disjoint Hrefs) as Hw.
    apply Forall_forall. intros ao Hin.
    destruct (proj1 (Forall_forall _ _) Hw ao Hin) as [Hrange Hpeek].
    split; [exact Hrange|]. rewrite <- Hpeek.
    apply peek_ext. intros x Hx. apply Hkeep. by eapply reference_byte_of_block.
  - intros rom_addr c1 c2 Hr x Hx.
    destruct (rewrite_refs_frame _ _ _ _ Hr) as [Hdata _]. apply Hdata.
    apply Forall_forall. intros ao Hin Hb. apply Hx. by eapply reference_byte_of_block.
Qed.

(** On the sample image the table goes to file address [0x410000], which
    is also its ROM address, so the operands become [01 00 41], [02 00 41]
    and [00 00 41]. *)
Lemma effect_table_references_rewritten_witness :
  exists ct_final,
    @expand_effect_mods sample_env sample_rom = Ok ct_final
    /\ peek 0x01EB2E 3 (@rom_data sample_env ct_final) = Some [0x01; 0x00; 0x41]
    /\ peek 0x01EB36 3 (@rom_data sample_env ct_final) = Some [0x02; 0x00; 0x41]
    /\ peek 0x01EB3E 3 (@rom_data sample_env ct_final) = Some [0x00; 0x00; 0x41]
    /\ peek 0x3DB64E 3 (@rom_data sample_env ct_final) = Some [0x01; 0x00; 0x41].
Proof.
  assert (Hrun : match @expand_effect_mods sample_env sample_rom with
                 | Ok _ => True
                 | Err _ => False
                 end) by (vm_compute; exact Logic.I).
  destruct (@expand_effect_mods sample_env sample_rom) as [ct_final|] eqn:Hw;
    [|contradiction].
  exists ct_final. split; [reflexivity|].
  assert (Halloc : forall (fs : @FS sample_env) size hint a,
             @get_free_addr sample_env fs size hint = Some a ->
             forall x, in_block a size x -> ~ reference_byte x).
  { intros fs size hint a Ha x Hx Href. cbn in Ha. injection Ha as <-.
    apply reference_byte_range in Href. unfold in_block in Hx. lia. }
  assert (Hhooks : forall h,
             h ∈ map fst hook_pc_pairs ++ [ sunshades_hook_rom_addr ] ->
             forall x, in_block (@to_file_ptr sample_env h) 4 x -> ~ reference_byte x).
  { intros h Hin x Hx Href. apply reference_byte_range in Href.
    unfold in_block in Hx. cbn in Hin.
    repeat (apply elem_of_cons in Hin as [->|Hin];
            [ set (f := @to_file_ptr sample_env _) in *; vm_compute in f; subst f; lia |]).
    by apply elem_of_nil in Hin. }
  destruct (@effect_table_references_rewritten sample_env sample_rom ct_final
              Halloc Hhooks Hw) as (s & Hs & Hall & _).
  cbn in Hs. injection Hs as <-.
  pose proof (proj1 (Forall_lookup _ _) Hall) as Hat.
  exact (conj (proj2 (Hat 0%nat (0x01EB2E, 1) eq_refl))
          (conj (proj2 (Hat 1%nat (0x01EB36, 2) eq_refl))
             (conj (proj2 (Hat 2%nat (0x01EB3E, 0) eq_refl))
                (proj2 (Hat 8%nat (0x3DB64E, 1) eq_refl))))).
Defined.

(** ** [Distribution] *)

Section DistributionFacts.
Context {T : Type}.

Lemma handle_pairs_nonempty (pairs : list (weight * Distribution.ObjType T)) :
  Forall (fun p : weight * list T => p.2 <> [] /\ py_is_zero p.1 = false)
    (Distribution._handle_weight_object_pairs pairs).
Proof.
  induction pairs as [|[w obj] pairs IH]; cbn [Distribution._handle_weight_object_pairs];
    [constructor|].
  destruct (py_is_zero w) eqn:Ez; [exact IH|].
  destruct obj as [x|[|x l]]; [|exact IH|]; by constructor.
Qed.



Lemma init_inv (pairs : list (weight * Distribution.ObjType T)) (d : Distribution.t T) :
  Distribution.init pairs = Ok d ->
  Distribution.weight_object_pairs d = Distribution._handle_weight_object_pairs pairs
  /\ py_sum (map fst (Distribution._handle_weight_object_pairs pairs))
     = Ok (Distribution.total_weight d)
  /\ py_is_zero (Distribution.total_weight d) = false.
Proof.
  unfold Distribution.init, Distribution.set_weight_object_pairs.
  destruct (py_sum _) as [total|]; [|discriminate].
  destruct (py_is_zero total) eqn:Ez; [discriminate|].
  by intros [= <-].
Qed.

End DistributionFacts.

(** ** Rounding in binary64

    What [SFmul] and [binary_normalize] return is read off their
    definitions: a right shift, a rounding to nearest with ties to even,
    and a second shift when the rounding carries into a 54th bit. *)

Lemma digits2_pos_log2 (p : positive) :
  Z.pos (digits2_pos p) = Z.log2 (Z.pos p) + 1.
Proof.
  induction p as [p IH|p IH|]; cbn [digits2_pos]; [| |reflexivity];
    rewrite Pos2Z.inj_succ, IH.
  - change (Z.pos p~1) with (2 * Z.pos p + 1). rewrite Z.log2_succ_double by lia. lia.
  - change (Z.pos p~0) with (2 * Z.pos p). rewrite Z.log2_double by lia. lia.
Qed.

Lemma digits2_pos_bounds (p : positive) :
  2 ^ (Z.pos (digits2_pos p) - 1) <= Z.pos p < 2 ^ Z.pos (digits2_pos p).
Proof.
  rewrite digits2_pos_log2.
  replace (Z.log2 (Z.pos p) + 1 - 1) with (Z.log2 (Z.pos p)) by lia.
  apply (Z.log2_spec (Z.pos p)). lia.
Qed.








Lemma digits2_pos_unique (p : positive) (d : Z) :
  2 ^ (d - 1) <= Z.pos p < 2 ^ d -> Z.pos (digits2_pos p) = d.
Proof.
  intros [Hlo Hhi]. pose proof (digits2_pos_bounds p) as [Hl Hh].
  set (dp := Z.pos (digits2_pos p)) in *.
  assert (Hdp : 0 < dp) by (unfold dp; lia).
  assert (Hd : 0 < d).
  { destruct (Z.lt_ge_cases 0 d) as [|Hd]; [done|].
    destruct (Z.eq_dec d 0) as [->|]; [cbn in Hhi; lia|].
    rewrite (Z.pow_neg_r 2 d) in Hhi by lia. lia. }
  assert (dp - 1 < d) by (apply (Z.pow_lt_mono_r_iff 2); lia).
  assert (d - 1 < dp) by (apply (Z.pow_lt_mono_r_iff 2); lia).
  lia.
Qed.

Lemma SFltb_finite_pos (m1 : positive) (e1 : Z) (m2 : positive) (e2 : Z) :
  SFltb (S754_finite false m1 e1) (S754_finite false m2 e2) = true
  <-> e1 < e2 \/ (e1 = e2 /\ Z.pos m1 < Z.pos m2).
Proof.
  unfold SFltb, SFcompare.
  change (PosDef.Pos.compare_cont Eq m1 m2) with (Pos.compare m1 m2).
  rewrite Pos2Z.inj_compare.
  destruct (Z.compare_spec e1 e2) as [He|He|He].
  - destruct (Z.compare_spec (Z.pos m1) (Z.pos m2)) as [Hm|Hm|Hm];
      split; try discriminate; try lia.
  - split; [by left | done].
  - split; [discriminate | lia].
Qed.


Lemma normal_above_min_inv (m : positive) (e : Z) :
  normal_above_min (S754_finite false m e) = true ->
  2 ^ 52 <= Z.pos m < 2 ^ 53 /\ -1074 <= e <= 971
  /\ (Z.pos m = 2 ^ 52 -> -1074 < e).
Proof.
  unfold normal_above_min, bounded, canonical_mantissa, fexp, emin. intros HT.
  apply andb_prop in HT as [HT Hmin]. apply andb_prop in HT as [HT HdT].
  apply andb_prop in HT as [HcT HeT].
  apply Z.eqb_eq in HdT, HcT. apply Z.leb_le in HeT. rewrite HdT in HcT.
  pose proof (digits2_pos_bounds m) as Hm. rewrite HdT in Hm.
  change (2 ^ (53 - 1)) with (2 ^ 52) in Hm.
  split; [exact Hm|]. split; [lia|]. intros Hm52.
  apply negb_true_iff in Hmin. apply andb_false_iff in Hmin as [H|H];
    apply Z.eqb_neq in H; lia.
Qed.



Lemma normal_above_min_intro (m : positive) (e : Z) :
  2 ^ 52 <= Z.pos m < 2 ^ 53 -> -1074 <= e <= 971 ->
  (Z.pos m = 2 ^ 52 -> -1074 < e) ->
  normal_above_min (S754_finite false m e) = true.
Proof.
  intros Hm He Hmin.
  assert (Hd : Z.pos (digits2_pos m) = 53) by (apply digits2_pos_unique; exact Hm).
  unfold normal_above_min, bounded, canonical_mantissa, fexp, emin. rewrite Hd.
  repeat (apply andb_true_intro; split).
  - apply Z.eqb_eq. lia.
  - apply Z.leb_le. lia.
  - apply Z.eqb_eq. reflexivity.
  - apply negb_true_iff, andb_false_iff.
    destruct (Z.eq_dec (Z.pos m) (2 ^ 52)) as [Heq|Hne].
    + right. apply Z.eqb_neq. specialize (Hmin Heq). lia.
    + left. by apply Z.eqb_neq.
Qed.



(** [normal_above_min] in the words of the comparison operators: a valid
    binary64 value strictly between [2^-1022] and infinity. *)
Lemma normal_above_min_iff (f : float) :
  normal_above_min f = true
  <-> valid_binary 53 1024 f = true
      /\ SFltb float_min_normal f = true
      /\ SFltb f (S754_infinity false) = true.
Proof.
  split.
  - intros Hf. destruct f as [| | |[] m e]; try discriminate.
    destruct (normal_above_min_inv _ _ Hf) as (Hm & He & Hmin).
    split; [|split; [|reflexivity]].
    + unfold normal_above_min in Hf. cbn [valid_binary].
      apply andb_prop in Hf as [Hf _]. by apply andb_prop in Hf as [Hf _].
    + apply SFltb_finite_pos. change (Z.pos 4503599627370496) with (2 ^ 52).
      destruct (Z.eq_dec e (-1074)) as [->|]; [right | left; lia].
      split; [reflexivity|].
      destruct (Z.eq_dec (Z.pos m) (2 ^ 52)) as [Heq|]; [|lia].
      specialize (Hmin Heq). lia.
  - intros (Hvalid & Hlo & Hhi).
    destruct f as [s|[]| |[] m e]; try discriminate.
    apply SFltb_finite_pos in Hlo. change (Z.pos 4503599627370496) with (2 ^ 52) in Hlo.
    cbn [valid_binary] in Hvalid. unfold bounded, canonical_mantissa, fexp, emin in Hvalid.
    apply andb_prop in Hvalid as [Hc He].
    apply Z.eqb_eq in Hc. apply Z.leb_le in He.
    pose proof (digits2_pos_bounds m) as Hd.
    set (d := Z.pos (digits2_pos m)) in *.
    assert (Hd53 : d = 53).
    { destruct Hlo as [Hlo|[He' Hm]]; [lia|].
      assert (52 < d); [|lia].
      apply (Z.pow_lt_mono_r_iff 2); [lia | unfold d; lia | lia]. }
    rewrite Hd53 in Hd. change (2 ^ (53 - 1)) with (2 ^ 52) in Hd.
    apply normal_above_min_intro; lia.
Qed.





(** A stored total above the last cumulative weight, as [sum] of Python
    3.12 can give it: ten weights [0.1] add up, left to right, to
    [1 - 2^-53], while their compensated sum is [1.0].  With the total
    [1.0] stored and [r = 1 - 2^-53] the target is [1 - 2^-53], which no
    cumulative weight exceeds. *)
Lemma stored_total_above_sum_no_choice :
  let pairs := repeat (WFloat float_tenth, [7]) 10 in
  py_sum (map fst pairs) = Ok (WFloat float_below_one)
  /\ good_total (WFloat fone) = true
  /\ valid_binary 53 1024 float_below_one = true
  /\ SFleb fzero float_below_one = true
  /\ SFltb float_below_one fone = true
  /\ @Distribution.get_random_item Z float const_rng
       (Distribution.mk (WFloat fone) pairs) float_below_one
     = Err ValueError.
Proof. repeat split; vm_compute; reflexivity. Qed.

(* ================================================================== *)
(** * Part III. Further properties of the modelled code                *)
(* ================================================================== *)

(** ** [clip] and [PostRandoOptions] *)

(** The middle element of three sorted [int]s is their median. *)
Lemma py_sorted3_middle (a v b : Z) :
  py_sorted [a; v; b] !! 1%nat = Some (Z.max (Z.min a b) (Z.min v (Z.max a b))).
Proof.
  unfold py_sorted. cbn [fold_left py_insert].
  destruct (v <? a) eqn:E1; cbn [py_insert];
    [destruct (b <? v) eqn:E2 | destruct (b <? a) eqn:E2];
    cbn [py_insert]; try destruct (b <? a) eqn:E3; try destruct (b <? v) eqn:E4;
    cbn [py_insert lookup list_lookup]; f_equal;
    repeat match goal with
           | H : (_ <? _) = true |- _ => apply Z.ltb_lt in H
           | H : (_ <? _) = false |- _ => apply Z.ltb_ge in H
           end; lia.
Qed.

(** X1. [clip(val, min_val, max_val)] never fails and returns the median
    of its three arguments.  With [min_val <= max_val] the result lies in
    [[min_val, max_val]], is [val] itself when [val] is in that range,
    and saturates at the nearer bound otherwise; the two bounds may be
    given in either order, and clipping a clipped value changes
    nothing. *)
Theorem clip_median (val min_val max_val : Z) :
  exists m,
    clip val min_val max_val = Ok m
    /\ m = Z.max (Z.min min_val max_val) (Z.min val (Z.max min_val max_val))
    /\ (min_val <= max_val -> min_val <= m <= max_val)
    /\ (min_val <= val <= max_val -> m = val)
    /\ (val < min_val <= max_val -> m = min_val)
    /\ (min_val <= max_val < val -> m = max_val)
    /\ clip val max_val min_val = Ok m
    /\ clip m min_val max_val = Ok m.
Proof.
  eexists. unfold clip. rewrite !py_sorted3_middle. cbn [of_option].
  split; [reflexivity|]. split; [reflexivity|].
  repeat split; intros; try (f_equal; lia); lia.
Qed.

(** Speed 11 is clipped to 8, speed 3 is kept. *)
Lemma clip_median_witness :
  clip 11 1 8 = Ok 8 /\ clip 3 1 8 = Ok 3.
Proof.
  destruct (clip_median 11 1 8) as (m & Hm & _ & _ & _ & _ & Hmax & _).
  destruct (clip_median 3 1 8) as (m' & Hm' & _ & _ & Hin & _).
  rewrite Hm, Hm'. split; f_equal; [apply Hmax | apply Hin]; lia.
Defined.

(** X2. [PostRandoOptions.__post_init__] raises what
    [int(self.battle_speed)] raises, or else what
    [int(self.message_speed)] raises.  When both conversions succeed it
    stores each converted speed brought into [[1, 8]] (a value already
    there is kept, one outside goes to the nearer bound) and changes no
    other field: [window_background] in particular is stored as given,
    whatever its value.  Running it again on the result changes
    nothing. *)
Theorem post_init_clamps_speeds {SNESPalette : Type}
    (int_of_str : string -> result Z) (self : PostRandoOptions.t SNESPalette) :
  match py_int int_of_str (PostRandoOptions.battle_speed _ self),
        py_int int_of_str (PostRandoOptions.message_speed _ self) with
  | Err e, _ => PostRandoOptions.__post_init__ _ int_of_str self = Err e
  | Ok _, Err e => PostRandoOptions.__post_init__ _ int_of_str self = Err e
  | Ok b, Ok m =>
      let self' :=
        PostRandoOptions.mk _
          (PostRandoOptions.default_fast_loc_movement _ self)
          (PostRandoOptions.default_fast_ow_movement _ self)
          (PostRandoOptions.default_fast_epoch_movement _ self)
          (VInt (Z.max 1 (Z.min b 8)))
          (VInt (Z.max 1 (Z.min m 8)))
          (PostRandoOptions.battle_memory_cursor _ self)
          (PostRandoOptions.menu_memory_cursor _ self)
          (PostRandoOptions.window_background _ self)
          (PostRandoOptions.crono_palette _ self)
          (PostRandoOptions.marle_palette _ self)
          (PostRandoOptions.lucca_palette _ self)
          (PostRandoOptions.robo_palette _ self)
          (PostRandoOptions.frog_palette _ self)
          (PostRandoOptions.ayla_palette _ self)
          (PostRandoOptions.magus_palette _ self) in
      PostRandoOptions.__post_init__ _ int_of_str self = Ok self'
      /\ (1 <= b <= 8 -> PostRandoOptions.battle_speed _ self' = VInt b)
      /\ (1 <= m <= 8 -> PostRandoOptions.message_speed _ self' = VInt m)
      /\ PostRandoOptions.__post_init__ _ int_of_str self' = Ok self'
  end.
Proof.
  assert (Hmid : forall x, py_sorted [1; x; 8] !! 1%nat = Some (Z.max 1 (Z.min x 8)))
    by (intros x; apply py_sorted3_middle).
  unfold PostRandoOptions.__post_init__.
  destruct (py_int int_of_str (PostRandoOptions.battle_speed _ self)) as [b|e];
    cbn [rbind]; [|reflexivity].
  rewrite Hmid. cbn [of_option rbind].
  destruct (py_int int_of_str (PostRandoOptions.message_speed _ self)) as [m|e];
    cbn [rbind]; [|reflexivity].
  rewrite Hmid. cbn [of_option rbind].
  cbn [PostRandoOptions.battle_speed PostRandoOptions.message_speed py_int rbind].
  rewrite !Hmid. cbn [of_option rbind].
  split; [reflexivity|].
  split; [intros Hb; f_equal; lia|].
  split; [intros Hm; f_equal; lia|].
  do 3 f_equal; lia.
Qed.

(** Speeds given as the float 2.9 and the int 11 are stored as 2 and 8;
    a NaN speed ends in [ValueError], a missing one in [TypeError]. *)
Lemma post_init_clamps_speeds_witness :
  PostRandoOptions.__post_init__ unit (fun _ => Err ValueError)
    (sample_options (VFloat float_2_9) (VInt 11))
  = Ok (sample_options (VInt 2) (VInt 8))
  /\ PostRandoOptions.__post_init__ unit (fun _ => Err ValueError)
       (sample_options (VFloat S754_nan) (VInt 11))
     = Err ValueError
  /\ PostRandoOptions.__post_init__ unit (fun _ => Err ValueError)
       (sample_options (VInt 3) VNone)
     = Err TypeError.
Proof.
  pose proof (post_init_clamps_speeds (fun _ => Err ValueError)
                (sample_options (VFloat float_2_9) (VInt 11))) as H1.
  pose proof (post_init_clamps_speeds (fun _ => Err ValueError)
                (sample_options (VFloat S754_nan) (VInt 11))) as H2.
  pose proof (post_init_clamps_speeds (fun _ => Err ValueError)
                (sample_options (VInt 3) VNone)) as H3.
  split; [exact (proj1 H1) | split; [exact H2 | exact H3]].
Defined.

(** ** [TechOptions], again *)

Lemma py_max_fzero_idem (x : float) :
  py_max fzero (py_max fzero x) = py_max fzero x.
Proof.
  unfold py_max. destruct (SFltb fzero x) eqn:E; [by rewrite E | reflexivity].
Qed.

Lemma SFltb_asym (a b : float) : SFltb a b = true -> SFltb b a = false.
Proof.
  unfold SFltb. destruct (SFcompare a b) as [[]|] eqn:C; try discriminate.
  by rewrite (SFcompare_antisym _ _ _ C).
Qed.

Lemma SFleb_not_ltb (a b : float) : SFleb a b = true -> SFltb b a = false.
Proof.
  unfold SFleb, SFltb. destruct (SFcompare a b) as [[]|] eqn:C; try discriminate;
    by rewrite (SFcompare_antisym _ _ _ C).
Qed.

Lemma SFltb_fzero_trans (a b : float) :
  SFltb fzero a = true -> SFleb a b = true -> SFltb fzero b = true.
Proof.
  intros Ha Hab.
  destruct b as [[]|[]| |[] mb eb]; try reflexivity;
    destruct a as [[]|[]| |[] ma ea]; cbn in Ha, Hab; discriminate.
Qed.

(** X3. Building a [TechOptions] from the fields of one already built
    gives the same object: the clamping and sorting of the two damage
    factors are idempotent, for every float input (NaN, infinities and
    negative zero included). *)
Theorem tech_options_init_idempotent
    (order : TechOrder.t) (damage : TechDamage.t) (fmin fmax : float)
    (pm : bool) (bh_min bh_factor : float) :
  let o := TechOptions.init order damage fmin fmax pm bh_min bh_factor in
  TechOptions.init (TechOptions.tech_order o) (TechOptions.tech_damage o)
    (TechOptions.tech_damage_random_factor_min o)
    (TechOptions.tech_damage_random_factor_max o)
    (TechOptions.preserve_magic o) (TechOptions.black_hole_min o)
    (TechOptions.black_hole_factor o)
  = o.
Proof.
  cbv zeta. unfold TechOptions.init, py_sorted2.
  destruct (SFltb (py_max fzero fmax) (py_max fzero fmin)) eqn:E;
    cbn [TechOptions.tech_order TechOptions.tech_damage
         TechOptions.tech_damage_random_factor_min
         TechOptions.tech_damage_random_factor_max
         TechOptions.preserve_magic TechOptions.black_hole_min
         TechOptions.black_hole_factor];
    rewrite !py_max_fzero_idem.
  - by rewrite (SFltb_asym _ _ E).
  - by rewrite E.
Qed.

(** X4. A pair of damage factors given as [0 < fmin <= fmax] is stored as
    given, and the same pair given in the reverse order is stored in the
    right order: the constructor changes only what is out of range or out
    of order. *)
Theorem tech_options_valid_factors_kept
    (order : TechOrder.t) (damage : TechDamage.t) (fmin fmax : float)
    (pm : bool) (bh_min bh_factor : float) :
  SFltb fzero fmin = true ->
  SFleb fmin fmax = true ->
  TechOptions.init order damage fmin fmax pm bh_min bh_factor
  = TechOptions.mk order damage fmin fmax pm bh_min bh_factor
  /\ (SFltb fmin fmax = true ->
      TechOptions.init order damage fmax fmin pm bh_min bh_factor
      = TechOptions.mk order damage fmin fmax pm bh_min bh_factor).
Proof.
  intros Hpos Hle.
  pose proof (SFltb_fzero_trans _ _ Hpos Hle) as Hpos'.
  unfold TechOptions.init, py_max. rewrite Hpos, Hpos'. unfold py_sorted2.
  rewrite (SFleb_not_ltb _ _ Hle). split; [reflexivity|].
  intros Hlt. by rewrite Hlt.
Qed.

(** The factors 0.75 and 1.0 are stored as given. *)
Lemma tech_options_valid_factors_kept_witness :
  TechOptions.init TechOrder.VANILLA TechDamage.RANDOM
    float_three_quarters fone false fzero fone
  = TechOptions.mk TechOrder.VANILLA TechDamage.RANDOM
      float_three_quarters fone false fzero fone.
Proof.
  exact (proj1 (tech_options_valid_factors_kept TechOrder.VANILLA TechDamage.RANDOM
                  float_three_quarters fone false fzero fone eq_refl eq_refl)).
Defined.

(** ** [Distribution], again *)

Section DistributionMore.
Context {T : Type}.

Lemma handle_pairs_app (p q : list (weight * Distribution.ObjType T)) :
  Distribution._handle_weight_object_pairs (p ++ q)
  = Distribution._handle_weight_object_pairs p
    ++ Distribution._handle_weight_object_pairs q.
Proof.
  induction p as [|[w o] p IH]; cbn [app Distribution._handle_weight_object_pairs];
    [reflexivity|].
  destruct (py_is_zero w); [exact IH|].
  destruct o as [x|[|x l]]; cbn [app]; by rewrite IH.
Qed.

Lemma handle_pairs_skip (w : weight) (o : Distribution.ObjType T)
    (q : list (weight * Distribution.ObjType T)) :
  py_is_zero w = true \/ o = Distribution.AList [] ->
  Distribution._handle_weight_object_pairs ((w, o) :: q)
  = Distribution._handle_weight_object_pairs q.
Proof.
  cbn [Distribution._handle_weight_object_pairs].
  intros [-> | ->]; [reflexivity|]. by destruct (py_is_zero w).
Qed.

Lemma handle_pairs_kept (l : list (weight * list T)) :
  Forall (fun p : weight * list T => p.2 <> [] /\ py_is_zero p.1 = false) l ->
  Distribution._handle_weight_object_pairs (map as_list_pair l) = l.
Proof.
  induction 1 as [|[w obj] l [Hne Hnz] _ IH];
    cbn [map as_list_pair fst snd Distribution._handle_weight_object_pairs] in *;
    [reflexivity|].
  rewrite Hnz, IH. by destruct obj.
Qed.

(** Where a stored pair comes from. *)
Lemma handle_pairs_origin (pairs : list (weight * Distribution.ObjType T))
    (w : weight) (obj : list T) :
  (w, obj) ∈ Distribution._handle_weight_object_pairs pairs ->
  exists o, (w, o) ∈ pairs /\ py_is_zero w = false
            /\ (o = Distribution.AList obj \/ exists x, o = Distribution.Single x /\ obj = [x]).
Proof.
  induction pairs as [|[w' o'] pairs IH]; cbn [Distribution._handle_weight_object_pairs].
  - intros Hin. by apply elem_of_nil in Hin.
  - assert (Hrest : (w, obj) ∈ Distribution._handle_weight_object_pairs pairs ->
                    exists o, (w, o) ∈ (w', o') :: pairs /\ py_is_zero w = false
                      /\ (o = Distribution.AList obj
                          \/ exists x, o = Distribution.Single x /\ obj = [x])).
    { intros Hin. destruct (IH Hin) as (o & Ho & Hrest). exists o. split; [by right | exact Hrest]. }
    destruct (py_is_zero w') eqn:Ez; [exact Hrest|].
    destruct o' as [x|[|x l]]; [|exact Hrest|].
    + intros Hin. apply elem_of_cons in Hin as [[= -> ->] | Hin]; [|by apply Hrest].
      exists (Distribution.Single x). split; [by left|]. split; [exact Ez|]. right. by exists x.
    + intros Hin. apply elem_of_cons in Hin as [[= -> ->] | Hin]; [|by apply Hrest].
      exists (Distribution.AList (x :: l)). split; [by left|]. split; [exact Ez|]. by left.
Qed.

Lemma choose_pair_member (target : float) (cum : weight)
    (pairs : list (weight * list T)) (obj : list T) :
  Distribution.choose_pair target cum pairs = Ok obj ->
  exists w, (w, obj) ∈ pairs.
Proof.
  revert cum. induction pairs as [|[w o] pairs IH]; intros cum; cbn [Distribution.choose_pair];
    [discriminate|].
  destruct (py_add cum w) as [cum'|]; cbn [rbind]; [|discriminate].
  destruct (py_gt_float cum' target).
  - intros [= ->]. exists w. by left.
  - intros Hc. destruct (IH _ Hc) as [w' Hw']. exists w'. by right.
Qed.

Lemma py_add_not_IndexError (a b : weight) : py_add a b <> Err IndexError.
Proof.
  unfold py_add, to_float, float_of_int.
  destruct a as [x|x], b as [y|y]; cbn [rbind];
    repeat match goal with
           | |- context [binary_normalize ?a ?b ?c ?d ?e] =>
               destruct (binary_normalize a b c d e); cbn [rbind]
           end; discriminate.
Qed.

Lemma choose_pair_not_IndexError (target : float) (cum : weight)
    (pairs : list (weight * list T)) :
  Distribution.choose_pair target cum pairs <> Err IndexError.
Proof.
  revert cum. induction pairs as [|[w o] pairs IH]; intros cum;
    cbn [Distribution.choose_pair]; [discriminate|].
  destruct (py_add cum w) as [cum'|e] eqn:Ea; cbn [rbind].
  - destruct (py_gt_float cum' target); [discriminate | apply IH].
  - intros [= ->]. by apply py_add_not_IndexError in Ea.
Qed.
End DistributionMore.

(** X5. An entry whose weight is 0 (the [int] 0, or a float zero of
    either sign) or whose value is the empty list plays no part: the
    distribution built, or the exception raised, is the same with the
    entry as without it, wherever in the argument list it stands. *)
Theorem distribution_ignores_null_entries {T : Type}
    (p q : list (weight * Distribution.ObjType T))
    (w : weight) (o : Distribution.ObjType T) (self : Distribution.t T) :
  py_is_zero w = true \/ o = Distribution.AList [] ->
  Distribution.init (p ++ (w, o) :: q) = Distribution.init (p ++ q)
  /\ Distribution.set_weight_object_pairs self (p ++ (w, o) :: q)
     = Distribution.set_weight_object_pairs self (p ++ q).
Proof.
  intros Hnull.
  assert (Hsame : Distribution._handle_weight_object_pairs (p ++ (w, o) :: q)
                  = Distribution._handle_weight_object_pairs (p ++ q)).
  { by rewrite !handle_pairs_app, handle_pairs_skip. }
  unfold Distribution.init, Distribution.set_weight_object_pairs.
  by rewrite Hsame.
Qed.

(** A weight of [-0.0] in the middle is dropped like any other zero. *)
Lemma distribution_ignores_null_entries_witness :
  Distribution.init [ (WInt 3, Distribution.Single 7);
                      (WFloat (S754_zero true), Distribution.Single 8);
                      (WInt 1, Distribution.AList [1; 2]) ]
  = Distribution.init [ (WInt 3, Distribution.Single 7);
                        (WInt 1, Distribution.AList [1; 2]) ].
Proof.
  exact (proj1 (distribution_ignores_null_entries
                  [ (WInt 3, Distribution.Single 7) ]
                  [ (WInt 1, Distribution.AList [1; 2]) ]
                  (WFloat (S754_zero true)) (Distribution.Single 8)
                  (Distribution.mk (WInt 0) []) (or_introl eq_refl))).
Defined.

(** X6. The pairs [get_weight_object_pairs] returns describe the
    distribution completely: a distribution constructed from them is the
    one they were taken from, with the same total weight, and setting
    them on the distribution itself changes nothing and raises nothing. *)
Theorem distribution_pairs_round_trip {T : Type}
    (pairs : list (weight * Distribution.ObjType T)) (d : Distribution.t T) :
  Distribution.init pairs = Ok d ->
  Distribution.init (map as_list_pair (Distribution.get_weight_object_pairs d)) = Ok d
  /\ Distribution.set_weight_object_pairs d
       (map as_list_pair (Distribution.get_weight_object_pairs d))
     = (d, None).
Proof.
  intros Hd. apply init_inv in Hd as (Hpairs & Hsum & Hnz).
  unfold Distribution.init, Distribution.set_weight_object_pairs,
    Distribution.get_weight_object_pairs.
  rewrite Hpairs, (handle_pairs_kept _ (handle_pairs_nonempty pairs)), Hsum, Hnz.
  destruct d as [total stored]. cbn [Distribution.weight_object_pairs
    Distribution.total_weight] in *. by subst stored.
Qed.

(** The distribution built from [(3, 7)], [(0, 8)] and [(1.0, [1, 2])] is
    rebuilt from its two stored pairs. *)
Lemma distribution_pairs_round_trip_witness :
  exists d : Distribution.t Z,
    Distribution.init [ (WInt 3, Distribution.Single 7);
                        (WInt 0, Distribution.Single 8);
                        (WFloat fone, Distribution.AList [1; 2]) ] = Ok d
    /\ Distribution.get_weight_object_pairs d = [ (WInt 3, [7]); (WFloat fone, [1; 2]) ]
    /\ Distribution.init [ (WInt 3, Distribution.AList [7]);
                           (WFloat fone, Distribution.AList [1; 2]) ] = Ok d.
Proof.
  eexists. split; [vm_compute; reflexivity|]. split; [reflexivity|].
  exact (proj1 (distribution_pairs_round_trip
                  [ (WInt 3, Distribution.Single 7);
                    (WInt 0, Distribution.Single 8);
                    (WFloat fone, Distribution.AList [1; 2]) ] _ eq_refl)).
Defined.

(** X7. Whatever the random source answers, an item [get_random_item]
    returns is a value of an entry the distribution was built from, and
    that entry's weight is not 0; with a source whose [choice] fails only
    on an empty sequence, [get_random_item] never ends in [IndexError].
    The source is assumed to pick from the sequence it is given. *)
Theorem get_random_item_member {T G : Type} `{Distribution.RNGType G}
    (pairs : list (weight * Distribution.ObjType T)) (d : Distribution.t T) (rng : G) :
  (forall (l : list T) (g g' : G) (x : T),
     Distribution.choice l g = Some (x, g') -> x ∈ l) ->
  Distribution.init pairs = Ok d ->
  (forall (x : T) (rng' : G),
     Distribution.get_random_item d rng = Ok (x, rng') ->
     exists (w : weight) (o : Distribution.ObjType T),
       (w, o) ∈ pairs /\ py_is_zero w = false
       /\ (o = Distribution.Single x \/ exists l, o = Distribution.AList l /\ x ∈ l))
  /\ ((forall (l : list T) (g : G), l <> [] -> Distribution.choice l g <> None) ->
      Distribution.get_random_item d rng <> Err IndexError).
Proof.
  intros Hchoice Hd. apply init_inv in Hd as (Hpairs & Hsum & Hnz).
  unfold Distribution.get_random_item. rewrite Hpairs.
  destruct (Distribution.random rng) as [r rng1].
  destruct (py_mul_float r (Distribution.total_weight d)) as [target|e] eqn:Et;
    cbn [rbind].
  2:{ split; [discriminate|]. intros _ [= ->]. revert Et.
      unfold py_mul_float, to_float, float_of_int.
      destruct (Distribution.total_weight d) as [n|f]; cbn [rbind]; [|discriminate].
      destruct (binary_normalize 53 1024 n 0 false); cbn [rbind]; discriminate. }
  destruct (Distribution.choose_pair target (WInt 0) _) as [obj|e] eqn:Ec; cbn [rbind].
  2:{ split; [discriminate|]. intros _ [= ->]. by apply choose_pair_not_IndexError in Ec. }
  destruct (choose_pair_member _ _ _ _ Ec) as [w Hw].
  split.
  - intros x rng' Hx.
    destruct (Distribution.choice obj rng1) as [[x' g']|] eqn:Ech; [|discriminate].
    cbn [of_option] in Hx. injection Hx as -> ->.
    apply Hchoice in Ech.
    destruct (handle_pairs_origin _ _ _ Hw) as (o & Ho & Hz & [-> | (y & -> & ->)]).
    + exists w, (Distribution.AList obj). split; [exact Ho|]. split; [exact Hz|].
      right. by exists obj.
    + exists w, (Distribution.Single y). split; [exact Ho|]. split; [exact Hz|].
      left. apply list_elem_of_singleton in Ech. by subst.
  - intros Hne.
    assert (Hobj : obj <> []).
    { pose proof (handle_pairs_nonempty pairs) as Hall.
      rewrite Forall_forall in Hall. exact (proj1 (Hall _ Hw)). }
    specialize (Hne obj rng1 Hobj).
    by destruct (Distribution.choice obj rng1).
Qed.

(** With weights 3 and 1.0 and a source that answers 0.75 and picks the
    first element, the item is 1, the first value of the second entry. *)
Lemma get_random_item_member_witness :
  @Distribution.get_random_item Z float const_rng
    (Distribution.mk (WFloat (S754_finite false 4503599627370496 (-50)))
       [ (WInt 3, [7]); (WFloat fone, [1; 2]) ])
    float_three_quarters
  = Ok (1, float_three_quarters)
  /\ exists (w : weight) (o : Distribution.ObjType Z),
       (w, o) ∈ [ (WInt 3, Distribution.Single 7);
                  (WFloat fone, Distribution.AList [1; 2]) ]
       /\ py_is_zero w = false
       /\ (o = Distribution.Single 1 \/ exists l, o = Distribution.AList l /\ 1 ∈ l).
Proof.
  split; [vm_compute; reflexivity|].
  refine (proj1 (@get_random_item_member Z float const_rng
                   [ (WInt 3, Distribution.Single 7);
                     (WFloat fone, Distribution.AList [1; 2]) ]
                   (Distribution.mk (WFloat (S754_finite false 4503599627370496 (-50)))
                      [ (WInt 3, [7]); (WFloat fone, [1; 2]) ])
                   float_three_quarters _ _) 1 float_three_quarters _).
  - intros [|y l] g g' x; cbn; [discriminate|]. intros [= -> _]. by left.
  - vm_compute. reflexivity.
  - vm_compute. reflexivity.
Defined.

(** ** [expand_effect_mods]: what it changes, and what is read afterwards *)

Lemma from_bytes_le_digits (n : nat) (v : Z) :
  0 <= v < 256 ^ Z.of_nat n -> from_bytes_le (le_digits n v) = v.
Proof.
  revert v. induction n as [|n IH]; intros v Hv.
  - change (256 ^ Z.of_nat 0) with 1 in Hv. cbn. lia.
  - cbn [le_digits from_bytes_le]. rewrite Nat2Z.inj_succ, Z.pow_succ_r in Hv by lia.
    rewrite IH.
    + pose proof (Z.div_mod v 256 ltac:(lia)). lia.
    + split; [apply Z.div_pos; lia | apply Z.div_lt_upper_bound; lia].
Qed.

Lemma rmap_ext {A B : Type} (f g : A -> result B) (l : list A) :
  (forall a, a ∈ l -> f a = g a) -> rmap f l = rmap g l.
Proof.
  induction l as [|a l IH]; intros Hfg; cbn [rmap]; [reflexivity|].
  rewrite (Hfg a) by by left. rewrite IH; [reflexivity|].
  intros b Hb. apply Hfg. by right.
Qed.

(** Reading back one part of a byte string written in one piece. *)
Lemma peek_poke_part (addr : Z) (pre mid post : list Z) (m : gmap Z Z) :
  peek (addr + zlen pre) (length mid) (poke addr (pre ++ mid ++ post) m) = Some mid.
Proof.
  unfold zlen. rewrite peek_poke_slice by (rewrite !length_app; lia).
  by rewrite drop_app_length, take_app_length.
Qed.

Section Expansion.
Context `{Env}.

Lemma write_changes (bs : list Z) (tag : FSWriteType) (addr : Z) (ct_rom : CTRom) (x : Z) :
  rom_data (write bs tag (seek addr ct_rom)) !! x <> rom_data ct_rom !! x ->
  in_block addr (zlen bs) x.
Proof.
  intros Hx. unfold in_block.
  destruct (decide (addr <= x < addr + zlen bs)) as [Hin|Hout]; [exact Hin|].
  exfalso. apply Hx. rewrite rom_data_write. by apply poke_lookup_out.
Qed.

Lemma jmp_patch_calls_hook_byte (s : Z) :
  Forall (fun c : ASMList * Z * Z => forall x, in_block c.1.2 4 x -> hook_byte x)
    (jmp_patch_calls s).
Proof.
  unfold jmp_patch_calls. apply Forall_app. split.
  - apply Forall_fmap, Forall_forall. intros [hook pc] Hin x Hx. cbn in Hx.
    right. exists hook. split; [|exact Hx].
    apply elem_of_app. left. apply list_elem_of_fmap. by exists (hook, pc).
  - constructor; [|constructor]. cbn. intros x Hx.
    right. exists sunshades_hook_rom_addr. split; [|exact Hx].
    apply elem_of_app. right. by left.
Qed.

Lemma jmp_patch_calls_avoid (P : Z -> Prop) (s : Z) :
  (forall x, hook_byte x -> ~ P x) ->
  Forall (fun c : ASMList * Z * Z => forall x, in_block c.1.2 4 x -> ~ P x)
    (jmp_patch_calls s).
Proof.
  intros HP. eapply Forall_impl; [apply jmp_patch_calls_hook_byte|].
  intros c Hc x Hx. by apply HP, Hc.
Qed.

Variable used : FS -> Z -> Prop.
Hypothesis used_mark :
  forall fs a b x, used fs x \/ a <= x < b -> used (mark_used fs a b) x.

(** A jump patch changes only what it marks as used and the four bytes
    at its hook; what was used stays used. *)
Lemma apply_jmp_patch_accounted (rt : ASMList) (hook hint : Z) (ct_rom ct_rom' : CTRom) :
  apply_jmp_patch rt hook ct_rom hint = Ok ct_rom' ->
  (forall x, rom_data ct_rom' !! x <> rom_data ct_rom !! x ->
             used (space_manager ct_rom') x \/ in_block hook 4 x)
  /\ (forall x, used (space_manager ct_rom) x -> used (space_manager ct_rom') x).
Proof.
  unfold apply_jmp_patch.
  destruct (assemble rt) as [rt_b|]; [|done]. cbn [rbind].
  destruct (get_free_addr _ _ _) as [addr|] eqn:Ea; [|done]. cbn [rbind of_option].
  destruct (assemble [_]) as [jmp_b|] eqn:Ej; [|done]. cbn [rbind].
  intros [= <-]. apply assemble_length in Ej. change (static_size _) with 4 in Ej.
  cbn [space_manager write seek rom_pos]. split.
  - intros x Hx. rewrite !rom_data_write in Hx. unfold in_block.
    destruct (decide (hook <= x < hook + 4)) as [Hh|Hh]; [by right|]. left.
    rewrite poke_lookup_out in Hx by (rewrite Ej; exact Hh).
    destruct (decide (addr <= x < addr + zlen rt_b)) as [Hin|Hout].
    + apply used_mark. by right.
    + exfalso. apply Hx. by apply poke_lookup_out.
  - intros x Hx. apply used_mark. by left.
Qed.

Lemma apply_jmp_patches_accounted (calls : list (ASMList * Z * Z))
    (ct_rom ct_rom' : CTRom) :
  apply_jmp_patches calls ct_rom = Ok ct_rom' ->
  (forall x, rom_data ct_rom' !! x <> rom_data ct_rom !! x ->
             used (space_manager ct_rom') x
             \/ Exists (fun c : ASMList * Z * Z => in_block c.1.2 4 x) calls)
  /\ (forall x, used (space_manager ct_rom) x -> used (space_manager ct_rom') x).
Proof.
  revert ct_rom. induction calls as [|[[rt hook] hint] calls IH]; intros ct_rom;
    cbn [apply_jmp_patches].
  - intros [= <-]. split; [intros x Hx; by destruct Hx | done].
  - destruct (apply_jmp_patch rt hook ct_rom hint) as [ct1|] eqn:E1; [|done].
    cbn [rbind]. intros Hrest.
    destruct (apply_jmp_patch_accounted _ _ _ _ _ E1) as [Hc1 Hm1].
    destruct (IH _ Hrest) as [Hc Hm]. split; [|by auto].
    intros x Hx.
    destruct (decide (rom_data ct_rom' !! x = rom_data ct1 !! x)) as [Heq|Hne].
    + rewrite Heq in Hx.
      destruct (Hc1 x Hx) as [Hu|Hh]; [left; by apply Hm | right; by left].
    + destruct (Hc x Hne) as [Hu|Hh]; [by left | right; by right].
Qed.

(** X9. Whatever [expand_effect_mods] changes in the image, it accounts
    for: a byte that differs afterwards is marked as used in the
    free-space manager (the relocated table, the routine payload and the
    seven patch routines are written with [MARK_USED]), or is one of the
    27 operand bytes of [addr_offset_dict], or one of the 32 hook bytes.
    Every other byte is as it was, and what the manager held as used
    before is still used. *)
Theorem expand_effect_mods_changes_accounted (ct_rom ct_final : CTRom) :
  expand_effect_mods ct_rom = Ok ct_final ->
  (forall x, ~ used (space_manager ct_final) x -> ~ reference_byte x -> ~ hook_byte x ->
             rom_data ct_final !! x = rom_data ct_rom !! x)
  /\ (forall x, used (space_manager ct_rom) x -> used (space_manager ct_final) x).
Proof.
  intros Hrun.
  apply expand_effect_mods_inv in Hrun
    as (s & table & routines & ct1 & ct2 & pa & ptr_b & rt_b & payload & hook_b
        & Htable & Hrefs & Hbuild & Hhook & Hpatches).
  apply write_effect_table_inv in Htable as (vanilla & additional & _ & _ & _ & _ & ->).
  destruct (rewrite_refs_frame _ _ _ _ Hrefs) as [Hdata2 Hfs2].
  destruct (apply_jmp_patches_accounted _ _ _ Hpatches) as [Hc Hm].
  apply assemble_length in Hhook. change (static_size _) with 4 in Hhook.
  cbn [space_manager write seek rom_pos] in Hm, Hfs2.
  assert (Hm1 : forall x, used (space_manager ct_rom) x \/ in_block s (zlen table) x ->
                          used (space_manager ct2) x).
  { intros x Hx. rewrite Hfs2. by apply used_mark. }
  assert (Hm3 : forall x, used (space_manager ct2) x \/ in_block pa (zlen payload) x ->
                          used (space_manager ct_final) x).
  { intros x Hx. apply Hm. by apply used_mark. }
  split; [|intros x Hx; apply Hm3; left; apply Hm1; by left].
  intros x Hused Href Hhk.
  destruct (decide (rom_data ct_final !! x
                    = rom_data (write hook_b NO_MARK
                        (seek 0x01EB41 (write payload MARK_USED (seek pa ct2)))) !! x))
    as [->|Hne].
  2:{ exfalso. destruct (Hc x Hne) as [Hu|Hh]; [by apply Hused|].
      apply Hhk. apply Exists_exists in Hh as (c & Hin & Hx).
      pose proof (jmp_patch_calls_hook_byte s) as Hall. rewrite Forall_forall in Hall.
      by apply (Hall c Hin). }
  rewrite !rom_data_write.
  rewrite poke_lookup_out by (rewrite Hhook; intros Hb; apply Hhk; by left).
  rewrite poke_lookup_out by (intros Hb; apply Hused, Hm3; by right).
  rewrite Hdata2.
  2:{ apply Forall_forall. intros ao Hin Hb. apply Href. by eapply reference_byte_of_block. }
  rewrite rom_data_write.
  apply poke_lookup_out. intros Hb. apply Hused, Hm3. left. apply Hm1. by right.
Qed.
End Expansion.

Lemma sample_used_mark (fs : @FS sample_env) (a b x : Z) :
  sample_used fs x \/ a <= x < b -> sample_used (@mark_used sample_env fs a b) x.
Proof. unfold sample_used. cbn. lia. Qed.

Lemma sample_used_fresh (fs : @FS sample_env) (size hint a : Z) :
  @get_free_addr sample_env fs size hint = Some a ->
  forall x, in_block a size x -> ~ sample_used fs x.
Proof. unfold sample_used, in_block. cbn. intros [= <-] x. lia. Qed.

Lemma sample_hook_byte_range (x : Z) :
  @hook_byte sample_env x ->
  0x01EB41 <= x < 0x01EB45 \/ 0x01E5D8 <= x < 0x01E5DC
  \/ 0x3DB5A9 <= x < 0x3DB5AD \/ 0x3DB5C8 <= x < 0x3DB5CC \/ 0x3DB5E7 <= x < 0x3DB5EB
  \/ 0x3DB607 <= x < 0x3DB60B \/ 0x3DB626 <= x < 0x3DB62A \/ 0x3DB645 <= x < 0x3DB649.
Proof.
  intros [Hx | (h & Hin & Hx)]; unfold in_block in Hx; [lia|].
  cbn in Hin.
  repeat (apply elem_of_cons in Hin as [->|Hin];
          [ set (f := @to_file_ptr sample_env _) in *; vm_compute in f; subst f; lia |]).
  by apply elem_of_nil in Hin.
Qed.

Lemma sample_sites_reserved (fs : @FS sample_env) (size hint a : Z) :
  @get_free_addr sample_env fs size hint = Some a ->
  forall x, in_block a size x -> ~ reference_byte x /\ ~ @hook_byte sample_env x.
Proof.
  unfold in_block. cbn. intros [= <-] x Hx. split.
  - intros Href. apply reference_byte_range in Href. lia.
  - intros Hh. apply sample_hook_byte_range in Hh. lia.
Qed.

Lemma sample_hooks_apart_refs (x : Z) : @hook_byte sample_env x -> ~ reference_byte x.
Proof.
  intros Hh Href. apply sample_hook_byte_range in Hh. apply reference_byte_range in Href. lia.
Qed.

(** On the sample image nothing at [0x500000] changes: the manager's mark
    ends below it. *)
Lemma expand_effect_mods_changes_accounted_witness :
  exists ct_final,
    @expand_effect_mods sample_env sample_rom = Ok ct_final
    /\ @rom_data sample_env ct_final !! 0x500000 = @rom_data sample_env sample_rom !! 0x500000.
Proof.
  assert (Hrun : match @expand_effect_mods sample_env sample_rom with
                 | Ok c => (@space_manager sample_env c <=? 0x500000) = true
                 | Err _ => False
                 end) by (vm_compute; reflexivity).
  destruct (@expand_effect_mods sample_env sample_rom) as [ct_final|] eqn:Hw;
    [|contradiction].
  exists ct_final. split; [reflexivity|].
  apply (proj1 (@expand_effect_mods_changes_accounted sample_env sample_used
                  sample_used_mark sample_rom ct_final Hw)).
  - unfold sample_used. apply Z.leb_le in Hrun. lia.
  - intros Href. apply reference_byte_range in Href. lia.
  - intros Hh. apply sample_hook_byte_range in Hh. lia.
Defined.

Section ReadBack.
Context `{Env}.
Variable used : FS -> Z -> Prop.
Hypothesis used_mark :
  forall fs a b x, used fs x \/ a <= x < b -> used (mark_used fs a b) x.
Hypothesis used_fresh :
  forall fs size hint a, get_free_addr fs size hint = Some a ->
                         forall x, in_block a size x -> ~ used fs x.
Hypothesis sites_reserved :
  forall fs size hint a, get_free_addr fs size hint = Some a ->
                         forall x, in_block a size x -> ~ reference_byte x /\ ~ hook_byte x.
Hypothesis hooks_apart_refs : forall x, hook_byte x -> ~ reference_byte x.

(** A jump patch leaves alone what the manager holds as used, as long as
    its hook is elsewhere. *)
Lemma apply_jmp_patch_keeps_used (K : Z -> Prop) (rt : ASMList) (hook hint : Z)
    (ct_rom ct_rom' : CTRom) :
  (forall x, K x -> used (space_manager ct_rom) x) ->
  (forall x, in_block hook 4 x -> ~ K x) ->
  apply_jmp_patch rt hook ct_rom hint = Ok ct_rom' ->
  forall x, K x -> rom_data ct_rom' !! x = rom_data ct_rom !! x.
Proof.
  intros HK Hhook. unfold apply_jmp_patch.
  destruct (assemble rt) as [rt_b|]; [|done]. cbn [rbind].
  destruct (get_free_addr _ _ _) as [addr|] eqn:Ea; [|done]. cbn [rbind of_option].
  destruct (assemble [_]) as [jmp_b|] eqn:Ej; [|done]. cbn [rbind].
  intros [= <-] x Hx. rewrite !rom_data_write.
  apply assemble_length in Ej. change (static_size _) with 4 in Ej.
  rewrite poke_lookup_out by (rewrite Ej; intros Hb; by apply (Hhook x)).
  apply poke_lookup_out. intros Hb. by apply (used_fresh _ _ _ _ Ea x Hb), HK.
Qed.

Lemma apply_jmp_patches_keeps_used (K : Z -> Prop) (calls : list (ASMList * Z * Z))
    (ct_rom ct_rom' : CTRom) :
  (forall x, K x -> used (space_manager ct_rom) x) ->
  Forall (fun c : ASMList * Z * Z => forall x, in_block c.1.2 4 x -> ~ K x) calls ->
  apply_jmp_patches calls ct_rom = Ok ct_rom' ->
  forall x, K x -> rom_data ct_rom' !! x = rom_data ct_rom !! x.
Proof.
  intros HK Hhooks. revert ct_rom HK.
  induction Hhooks as [|[[rt hook] hint] calls Hhook _ IH]; intros ct_rom HK;
    cbn [apply_jmp_patches].
  - by intros [= <-].
  - destruct (apply_jmp_patch rt hook ct_rom hint) as [ct1|] eqn:E1; [|done].
    cbn [rbind]. intros Hrest x Hx.
    rewrite (IH ct1); [by eapply apply_jmp_patch_keeps_used | | exact Hrest | exact Hx].
    intros y Hy.
    apply (proj2 (apply_jmp_patch_accounted used used_mark _ _ _ _ _ E1)). by apply HK.
Qed.

(** What survives of each stage of [expand_effect_mods] in the image it
    returns: the relocated table, the rewritten meta-pointer, the routine
    payload, and the hook of the dispatch routine. *)
Lemma expand_effect_mods_survivors (ct_rom ct_final : CTRom) :
  expand_effect_mods ct_rom = Ok ct_final ->
  exists s vanilla additional routines ct2 pa ptr_b rt_b payload hook_b,
    gather_vanilla_effects ct_rom = Ok vanilla
    /\ gather_new_effects_and_rts = Ok (additional, routines)
    /\ get_free_addr (space_manager ct_rom) ((0x39 + 6) * 3) 0x410000 = Some s
    /\ (forall (n : nat) (c : list Z),
          (vanilla ++ additional) !! n = Some c ->
          peek (s + Z.of_nat n * 3) 3 (rom_data ct_final) = Some c)
    /\ 0 <= to_rom_ptr s < 2 ^ 24
    /\ peek 0x01EB3E 3 (rom_data ct_final) = Some (le_digits 3 (to_rom_ptr s))
    /\ space_manager ct2
       = mark_used (space_manager ct_rom) s (s + (0x39 + 6) * 3)
    /\ build_routine_payload ct2 routines = Ok (pa, ptr_b, rt_b, payload)
    /\ (forall pre mid post : list Z,
          payload = pre ++ mid ++ post ->
          peek (pa + zlen pre) (length mid) (rom_data ct_final) = Some mid)
    /\ assemble [ ins JMP (to_rom_ptr (to_rom_ptr (pa + zlen rt_b + zlen ptr_b))) LNG ]
       = Ok hook_b
    /\ ((forall h, h ∈ map fst hook_pc_pairs ++ [ sunshades_hook_rom_addr ] ->
                   forall x, in_block (to_file_ptr h) 4 x -> ~ in_block 0x01EB41 4 x) ->
        peek 0x01EB41 4 (rom_data ct_final) = Some hook_b).
Proof.
  intros Hrun.
  apply expand_effect_mods_inv in Hrun
    as (s & table & routines & ct1 & ct2 & pa & ptr_b & rt_b & payload & hook_b
        & Htable & Hrefs & Hbuild & Hhook & Hpatches).
  apply write_effect_table_inv in Htable
    as (vanilla & additional & Hg & Hnew & -> & Halloc & ->).
  destruct (gather_vanilla_effects_inv _ _ Hg) as (Hvlen & Hvall & _).
  assert (Hadd : Forall (fun c => length c = 3%nat) additional /\ length additional = 6%nat).
  { pose proof Hnew as Hnew'. rewrite gather_new_effects_and_rts_value in Hnew'.
    injection Hnew' as <- _. split; [by repeat constructor | reflexivity]. }
  destruct Hadd as [Haall Halen].
  assert (Hall : Forall (fun c => length c = 3%nat) (vanilla ++ additional))
    by (by apply Forall_app).
  assert (Hcount : length (vanilla ++ additional) = 63%nat)
    by (rewrite length_app, Hvlen, Halen; reflexivity).
  set (table := concat (vanilla ++ additional)) in *.
  assert (Htlen : length table = 189%nat).
  { unfold table. rewrite (length_concat_chunks 3) by done. rewrite Hcount. reflexivity. }
  assert (Hsize : zlen (vanilla ++ additional) * EffectMod_SIZE = zlen table).
  { unfold zlen, EffectMod_SIZE. rewrite Hcount, Htlen. reflexivity. }
  rewrite Hsize in Halloc.
  destruct (rewrite_refs_frame _ _ _ _ Hrefs) as [Hdata2 Hfs2].
  pose proof (rewrite_refs_written _ _ _ _ addr_offset_dict_disjoint Hrefs) as Hw.
  pose proof (build_routine_payload_alloc _ _ _ _ _ _ Hbuild) as Hpalloc.
  pose proof (assemble_length _ _ Hhook) as Hhlen. change (static_size _) with 4 in Hhlen.
  cbn [space_manager write seek rom_pos] in Hfs2.
  assert (Hnoref : forall x, ~ reference_byte x ->
                             Forall (fun ao : Z * Z => ~ in_block ao.1 3 x) addr_offset_dict).
  { intros x Hx. apply Forall_forall. intros ao Hin Hb. apply Hx.
    by eapply reference_byte_of_block. }
  (* the relocated table *)
  assert (Hkeep_table : forall x, in_block s (zlen table) x ->
            rom_data ct_final !! x = poke s table (rom_data ct_rom) !! x).
  { assert (HKused : forall y, in_block s (zlen table) y ->
              used (space_manager (write hook_b NO_MARK
                 (seek 0x01EB41 (write payload MARK_USED (seek pa ct2))))) y).
    { intros y Hy. cbn [space_manager write seek rom_pos]. apply used_mark. left.
      rewrite Hfs2. apply used_mark. by right. }
    assert (HKavoid : Forall (fun c : ASMList * Z * Z =>
                        forall x, in_block c.1.2 4 x -> ~ in_block s (zlen table) x)
                        (jmp_patch_calls s)).
    { apply jmp_patch_calls_avoid. intros y Hy Hb.
      by apply (proj2 (sites_reserved _ _ _ _ Halloc y Hb)). }
    intros x Hx. destruct (sites_reserved _ _ _ _ Halloc x Hx) as [Href Hhk].
    assert (Hu2 : used (space_manager ct2) x) by (rewrite Hfs2; apply used_mark; by right).
    rewrite (apply_jmp_patches_keeps_used (fun y => in_block s (zlen table) y)
               _ _ _ HKused HKavoid Hpatches x Hx).
    rewrite !rom_data_write.
    rewrite poke_lookup_out by (rewrite Hhlen; intros Hb; apply Hhk; by left).
    rewrite poke_lookup_out by (intros Hb; by apply (used_fresh _ _ _ _ Hpalloc x Hb)).
    rewrite (Hdata2 x (Hnoref x Href)). by rewrite rom_data_write. }
  (* the operands of [addr_offset_dict] *)
  assert (Hkeep_refs : forall x, reference_byte x ->
            rom_data ct_final !! x = rom_data ct2 !! x).
  { intros x Hx.
    rewrite (apply_jmp_patches_frame reference_byte _ _ _
               (fun fs size h a Ha y Hy => proj1 (sites_reserved fs size h a Ha y Hy))
               (jmp_patch_calls_avoid reference_byte s hooks_apart_refs) Hpatches x Hx).
    rewrite !rom_data_write.
    rewrite poke_lookup_out.
    - apply poke_lookup_out. intros Hb.
      by apply (proj1 (sites_reserved _ _ _ _ Hpalloc x Hb)).
    - rewrite Hhlen. intros Hb. apply (hooks_apart_refs x); [by left | exact Hx]. }
  (* the routine payload *)
  assert (Hkeep_payload : forall x, in_block pa (zlen payload) x ->
            rom_data ct_final !! x = poke pa payload (rom_data ct2) !! x).
  { assert (HKused : forall y, in_block pa (zlen payload) y ->
              used (space_manager (write hook_b NO_MARK
                 (seek 0x01EB41 (write payload MARK_USED (seek pa ct2))))) y).
    { intros y Hy. cbn [space_manager write seek rom_pos]. apply used_mark. by right. }
    assert (HKavoid : Forall (fun c : ASMList * Z * Z =>
                        forall x, in_block c.1.2 4 x -> ~ in_block pa (zlen payload) x)
                        (jmp_patch_calls s)).
    { apply jmp_patch_calls_avoid. intros y Hy Hb.
      by apply (proj2 (sites_reserved _ _ _ _ Hpalloc y Hb)). }
    intros x Hx. destruct (sites_reserved _ _ _ _ Hpalloc x Hx) as [Href Hhk].
    rewrite (apply_jmp_patches_keeps_used (fun y => in_block pa (zlen payload) y)
               _ _ _ HKused HKavoid Hpatches x Hx).
    rewrite !rom_data_write.
    apply poke_lookup_out. rewrite Hhlen. intros Hb. apply Hhk. by left. }
  exists s, vanilla, additional, routines, ct2, pa, ptr_b, rt_b, payload, hook_b.
  split; [exact Hg|]. split; [exact Hnew|]. split.
  { rewrite <- Halloc. f_equal. unfold zlen. rewrite Htlen. reflexivity. }
  split.
  { intros n c Hc.
    assert (Hn : (n < 63)%nat) by (rewrite <- Hcount; by eapply lookup_lt_Some).
    rewrite (peek_ext _ _ _ (poke s table (rom_data ct_rom))).
    - replace (Z.of_nat n * 3) with (Z.of_nat (3 * n)) by lia.
      rewrite peek_poke_slice by lia. f_equal. by apply (concat_chunks 3).
    - intros x Hx. apply Hkeep_table. unfold in_block, zlen in *. lia. }
  pose proof (proj1 (Forall_lookup _ _) Hw 2%nat (0x01EB3E, 0) eq_refl) as [Hrange Hmeta].
  cbn [fst snd] in Hrange, Hmeta. rewrite Z.add_0_r in Hrange, Hmeta.
  split; [exact Hrange|]. split.
  { rewrite <- Hmeta. apply peek_ext. intros x Hx. apply Hkeep_refs.
    apply (reference_byte_of_block (0x01EB3E, 0)); [|exact Hx].
    unfold addr_offset_dict. do 2 right. by left. }
  split.
  { rewrite Hfs2. unfold zlen. rewrite Htlen. reflexivity. }
  split; [exact Hbuild|]. split.
  { intros pre mid post Hp.
    rewrite (peek_ext _ _ _ (poke pa payload (rom_data ct2))).
    - rewrite Hp. apply peek_poke_part.
    - intros x Hx. apply Hkeep_payload. rewrite Hp.
      unfold in_block in *. rewrite !zlen_app.
      pose proof (zlen_nonneg pre). pose proof (zlen_nonneg post).
      unfold zlen in *. lia. }
  split; [exact Hhook|].
  intros Hapart.
  assert (Hcalls : Forall (fun c : ASMList * Z * Z =>
                             forall x, in_block c.1.2 4 x -> ~ in_block 0x01EB41 4 x)
                     (jmp_patch_calls s)).
  { unfold jmp_patch_calls. apply Forall_app. split.
    - apply Forall_fmap, Forall_forall. intros [hook pc] Hin. cbn.
      apply Hapart. apply elem_of_app. left. apply list_elem_of_fmap. by exists (hook, pc).
    - constructor; [|constructor]. cbn. apply Hapart. apply elem_of_app. right. by left. }
  rewrite (peek_ext _ _ _ (rom_data (write hook_b NO_MARK
             (seek 0x01EB41 (write payload MARK_USED (seek pa ct2)))))).
  - rewrite rom_data_write.
    replace 4%nat with (length hook_b) by (unfold zlen in Hhlen; lia).
    apply peek_poke_all.
  - intros x Hx.
    apply (apply_jmp_patches_frame (fun y => in_block 0x01EB41 4 y) _ _ _
             (fun fs size h a Ha y Hy Hb =>
                proj2 (sites_reserved fs size h a Ha y Hy) (or_introl Hb))
             Hcalls Hpatches x Hx).
Qed.
End ReadBack.

(** X10. After [expand_effect_mods], [EffectMod.read_from_ctrom] works
    on the relocated table: the meta-pointer read from the image is the
    address the table went to, every vanilla index reads the record it
    read before (so [gather_vanilla_effects] returns the same list), and
    the indices [0x39] to [0x3E] read the six records of
    [gather_new_effects_and_rts], in order.  None of the later writes of
    the function (the routine payload, the dispatch hook, the seven jump
    patches) disturbs the table or the meta-pointer.  Assumed of the
    environment: the manager hands out only space it does not hold as
    used and never the patch sites, marking makes used, the hooks do not
    overlap the operands, and the address of the table survives the
    conversion to a ROM address and back. *)
Theorem relocated_table_read_back `{Env} (used : FS -> Z -> Prop)
    (ct_rom ct_final : CTRom) :
  (forall fs a b x, used fs x \/ a <= x < b -> used (mark_used fs a b) x) ->
  (forall fs size hint a, get_free_addr fs size hint = Some a ->
                          forall x, in_block a size x -> ~ used fs x) ->
  (forall fs size hint a, get_free_addr fs size hint = Some a ->
                          forall x, in_block a size x ->
                                    ~ reference_byte x /\ ~ hook_byte x) ->
  (forall x, hook_byte x -> ~ reference_byte x) ->
  (forall a, get_free_addr (space_manager ct_rom) ((0x39 + 6) * 3) 0x410000 = Some a ->
             to_file_ptr (to_rom_ptr a) = a) ->
  expand_effect_mods ct_rom = Ok ct_final ->
  exists new_eff_start additional routines,
    get_free_addr (space_manager ct_rom) ((0x39 + 6) * 3) 0x410000 = Some new_eff_start
    /\ get_data_start_from_ctrom ct_final = Ok new_eff_start
    /\ (forall i, 0 <= i < _vanilla_effect_count ->
          exists v, read_from_ctrom ct_rom i = Ok v /\ read_from_ctrom ct_final i = Ok v)
    /\ gather_vanilla_effects ct_final = gather_vanilla_effects ct_rom
    /\ gather_new_effects_and_rts = Ok (additional, routines)
    /\ (forall (k : nat) (e : list Z),
          additional !! k = Some e ->
          read_from_ctrom ct_final (_vanilla_effect_count + Z.of_nat k) = Ok e)
    /\ read_from_ctrom ct_final 0x3A = Ok [0x44; 0; 2].
Proof.
  intros Hmark Hfresh Hsites Hapart Hptr Hrun.
  destruct (expand_effect_mods_survivors used Hmark Hfresh Hsites Hapart _ _ Hrun)
    as (s & vanilla & additional & routines & ct2 & pa & ptr_b & rt_b & payload & hook_b
        & Hg & Hnew & Halloc & Hpeek & Hrange & Hmeta & _).
  destruct (gather_vanilla_effects_inv _ _ Hg) as (Hvlen & _ & Hvread).
  assert (Hstart : get_data_start_from_ctrom ct_final = Ok s).
  { unfold get_data_start_from_ctrom, EffectMod_ROM_RW. rewrite Hmeta. cbn [of_option rbind].
    rewrite from_bytes_le_digits by exact Hrange. by rewrite (Hptr s Halloc). }
  assert (Hrec : forall (n : nat) (c : list Z),
             (vanilla ++ additional) !! n = Some c ->
             read_from_ctrom ct_final (Z.of_nat n) = Ok c).
  { intros n c Hc. unfold read_from_ctrom, EffectMod_SIZE. rewrite Hstart. cbn [rbind].
    pose proof (Hpeek n c Hc) as Hp. rewrite Hp. cbn [of_option rbind].
    apply peek_length in Hp. unfold EffectMod, EffectMod_SIZE, zlen. by rewrite Hp. }
  assert (Hvan : forall n : nat, (n < 57)%nat ->
             exists v, read_from_ctrom ct_rom (Z.of_nat n) = Ok v
                       /\ read_from_ctrom ct_final (Z.of_nat n) = Ok v).
  { intros n Hn. destruct (lookup_lt_is_Some_2 vanilla n ltac:(lia)) as [v Hv].
    exists v. split; [by apply Hvread|]. apply Hrec. by rewrite lookup_app_l by lia. }
  assert (Hadd : forall (k : nat) (e : list Z),
             additional !! k = Some e ->
             read_from_ctrom ct_final (_vanilla_effect_count + Z.of_nat k) = Ok e).
  { intros k e He. change _vanilla_effect_count with (Z.of_nat 57).
    rewrite <- Nat2Z.inj_add. apply Hrec.
    rewrite lookup_app_r by lia. rewrite Hvlen.
    by replace (57 + k - 57)%nat with k by lia. }
  exists s, additional, routines.
  split; [exact Halloc|]. split; [exact Hstart|]. split; [|split; [|split; [|split]]].
  - intros i Hi. unfold _vanilla_effect_count in Hi.
    rewrite <- (Z2Nat.id i) by lia. apply Hvan. lia.
  - unfold gather_vanilla_effects. apply rmap_ext. intros a Ha.
    apply list_elem_of_lookup in Ha as [n Hn].
    assert (Hlt : (n < 57)%nat).
    { apply lookup_lt_Some in Hn. unfold zrange in Hn.
      by rewrite length_map, length_seq in Hn. }
    rewrite zrange_lookup in Hn by exact Hlt. injection Hn as <-.
    destruct (Hvan n Hlt) as (v & -> & ->). reflexivity.
  - exact Hnew.
  - exact Hadd.
  - pose proof Hnew as Hnew'. rewrite gather_new_effects_and_rts_value in Hnew'.
    injection Hnew' as <- _. exact (Hadd 1%nat _ eq_refl).
Qed.

(** On the sample image the table goes to [0x410000]; afterwards record 0
    still reads [00 01 02] and record [0x3A] reads the spellslinger
    record. *)
Lemma relocated_table_read_back_witness :
  exists ct_final,
    @expand_effect_mods sample_env sample_rom = Ok ct_final
    /\ @get_data_start_from_ctrom sample_env ct_final = Ok 0x410000
    /\ @read_from_ctrom sample_env ct_final 0 = Ok [0; 1; 2]
    /\ @read_from_ctrom sample_env ct_final 0x3A = Ok [0x44; 0; 2].
Proof.
  assert (Hrun : match @expand_effect_mods sample_env sample_rom with
                 | Ok _ => True
                 | Err _ => False
                 end) by (vm_compute; exact Logic.I).
  destruct (@expand_effect_mods sample_env sample_rom) as [ct_final|] eqn:Hw;
    [|contradiction].
  exists ct_final. split; [reflexivity|].
  assert (Hptr : forall a,
             @get_free_addr sample_env (@space_manager sample_env sample_rom)
               ((0x39 + 6) * 3) 0x410000 = Some a ->
             @to_file_ptr sample_env (@to_rom_ptr sample_env a) = a).
  { intros a. cbn. intros [= <-]. reflexivity. }
  destruct (@relocated_table_read_back sample_env sample_used sample_rom ct_final
              sample_used_mark sample_used_fresh sample_sites_reserved
              sample_hooks_apart_refs Hptr Hw)
    as (s & additional & routines & Hs & Hstart & Hvan & _ & _ & _ & Hspell).
  cbn in Hs. injection Hs as <-.
  destruct (Hvan 0 ltac:(unfold _vanilla_effect_count; lia)) as (v & Hv0 & Hv).
  assert (Hread : @read_from_ctrom sample_env sample_rom 0 = Ok [0; 1; 2])
    by (vm_compute; reflexivity).
  rewrite Hread in Hv0. injection Hv0 as <-.
  exact (conj Hstart (conj Hv Hspell)).
Defined.

(** The parts of the routine payload, read from an image that holds
    the payload at [payload_addr]. *)
Lemma routine_payload_parts `{Env} (ct_rom : CTRom) (image : gmap Z Z)
    (payload_addr : Z) (ptr_b rt_b payload : list Z) :
  build_routine_payload ct_rom [ get_venus_bow_rt; get_spellslinger_rt ]
  = Ok (payload_addr, ptr_b, rt_b, payload) ->
  (forall pre mid post : list Z,
     payload = pre ++ mid ++ post ->
     peek (payload_addr + zlen pre) (length mid) image = Some mid) ->
  exists venus_b spell_b switch_b,
    assemble get_venus_bow_rt = Ok venus_b
    /\ assemble get_spellslinger_rt = Ok spell_b
    /\ assemble (make_bank_switch_rt (to_rom_ptr payload_addr)) = Ok switch_b
    /\ zlen ptr_b = 4
    /\ rt_b = venus_b ++ spell_b
    /\ zlen payload = 4 + (zlen venus_b + zlen spell_b) + zlen switch_b
    /\ peek (payload_addr + (zlen venus_b + zlen spell_b) + 4) (length switch_b) image
       = Some switch_b
    /\ peek payload_addr 2 image = Some (le_digits 2 ((payload_addr + 4) mod 0x10000))
    /\ peek (payload_addr + 2) 2 image
       = Some (le_digits 2 ((payload_addr + 4 + zlen venus_b) mod 0x10000))
    /\ peek (payload_addr + 4) (length venus_b) image = Some venus_b
    /\ peek (payload_addr + 4 + zlen venus_b) (length spell_b) image = Some spell_b.
Proof.
  intros Hbuild Hpart. set (pa := payload_addr) in *.
  apply build_routine_payload_inv in Hbuild
    as (effect_rts & switch_b & Hrts & Hswitch & Hptr & ->).
  cbn [rmap] in Hrts.
  destruct (assemble get_venus_bow_rt) as [venus_b|] eqn:Ev; [|discriminate].
  destruct (assemble get_spellslinger_rt) as [spell_b|] eqn:Es; [|discriminate].
  cbn [rbind] in Hrts. injection Hrts as <-.
  apply build_ptr_table_layout in Hptr as (-> & Hlen & Hentry); [|discriminate|reflexivity].
  cbn [concat] in *. rewrite app_nil_r in *.
  change (zlen [get_venus_bow_rt; get_spellslinger_rt]) with 2 in Hlen, Hentry.
  change (2 * 2) with 4 in Hlen, Hentry.
  assert (Hplen : length ptr_b = 4%nat) by (unfold zlen in Hlen; lia).
  pose proof (Hentry 0%nat ltac:(cbn; lia)) as He0.
  pose proof (Hentry 1%nat ltac:(cbn; lia)) as He1.
  cbn [take map zsum fold_right] in He0, He1.
  rewrite drop_0 in He0. change (2 * 1)%nat with 2%nat in He1.
  rewrite Z.add_0_r in He0, He1.
  assert (Hsplit : ptr_b = take 2 ptr_b ++ take 2 (drop 2 ptr_b)).
  { rewrite <- (take_drop 2 ptr_b) at 1. f_equal.
    rewrite take_ge; [done|]. rewrite length_drop. lia. }
  exists venus_b, spell_b, switch_b.
  split; [reflexivity|]. split; [reflexivity|]. split; [exact Hswitch|].
  split; [exact Hlen|]. split; [reflexivity|]. split.
  { rewrite !zlen_app, Hlen. lia. }
  split; [|split; [|split; [|split]]].
  - pose proof (Hpart (ptr_b ++ venus_b ++ spell_b) switch_b []) as Hp.
    rewrite !zlen_app, Hlen in Hp.
    replace (pa + (zlen venus_b + zlen spell_b) + 4)
      with (pa + (4 + (zlen venus_b + zlen spell_b))) by lia.
    apply Hp. by rewrite app_nil_r, <- !app_assoc.
  - pose proof (Hpart [] (take 2 ptr_b) (take 2 (drop 2 ptr_b) ++ (venus_b ++ spell_b) ++ switch_b))
      as Hp.
    change (zlen []) with 0 in Hp. rewrite Z.add_0_r in Hp.
    rewrite length_take, Hplen in Hp. change (2 `min` 4)%nat with 2%nat in Hp.
    rewrite Hp; [by rewrite He0|].
    cbn [app]. rewrite (app_assoc (take 2 ptr_b)), <- Hsplit. reflexivity.
  - pose proof (Hpart (take 2 ptr_b) (take 2 (drop 2 ptr_b)) ((venus_b ++ spell_b) ++ switch_b))
      as Hp.
    unfold zlen in Hp at 1. rewrite !length_take, length_drop, Hplen in Hp.
    change (Z.of_nat (2 `min` 4)) with 2 in Hp.
    change (2 `min` (4 - 2))%nat with 2%nat in Hp.
    rewrite Hp; [by rewrite He1|].
    rewrite (app_assoc (take 2 ptr_b)), <- Hsplit. reflexivity.
  - pose proof (Hpart ptr_b venus_b (spell_b ++ switch_b)) as Hp.
    rewrite Hlen in Hp. apply Hp. by rewrite <- !app_assoc.
  - pose proof (Hpart (ptr_b ++ venus_b) spell_b switch_b) as Hp.
    rewrite zlen_app, Hlen in Hp.
    replace (pa + 4 + zlen venus_b) with (pa + (4 + zlen venus_b)) by lia.
    apply Hp. by rewrite <- !app_assoc.
Qed.

(** X11. After [expand_effect_mods] the new dispatch is in place, end to
    end: the four bytes at [0x01EB41] are the long jump to
    [to_rom_ptr (to_rom_ptr (payload_addr + len(rt_b) + len(ptr_b)))],
    the payload address of the dispatch routine converted twice; at that
    payload address the image holds the assembled
    [make_bank_switch_rt (to_rom_ptr payload_addr)]; the two slots of the
    pointer table at [payload_addr] hold the in-bank offsets of the venus
    bow and spellslinger routines, and the routines' bytes lie where the
    slots point.  The later jump patches overwrite none of it.  Assumed
    as for the relocated table, and that no jump-patch hook overlaps the
    four bytes at [0x01EB41]. *)
Theorem dispatch_chain_installed `{Env} (used : FS -> Z -> Prop)
    (ct_rom ct_final : CTRom) :
  (forall fs a b x, used fs x \/ a <= x < b -> used (mark_used fs a b) x) ->
  (forall fs size hint a, get_free_addr fs size hint = Some a ->
                          forall x, in_block a size x -> ~ used fs x) ->
  (forall fs size hint a, get_free_addr fs size hint = Some a ->
                          forall x, in_block a size x ->
                                    ~ reference_byte x /\ ~ hook_byte x) ->
  (forall x, hook_byte x -> ~ reference_byte x) ->
  (forall h, h ∈ map fst hook_pc_pairs ++ [ sunshades_hook_rom_addr ] ->
             forall x, in_block (to_file_ptr h) 4 x -> ~ in_block 0x01EB41 4 x) ->
  expand_effect_mods ct_rom = Ok ct_final ->
  exists new_eff_start payload_addr venus_b spell_b switch_b jmp_b,
    assemble get_venus_bow_rt = Ok venus_b
    /\ assemble get_spellslinger_rt = Ok spell_b
    /\ assemble (make_bank_switch_rt (to_rom_ptr payload_addr)) = Ok switch_b
    /\ get_free_addr (space_manager ct_rom) ((0x39 + 6) * 3) 0x410000 = Some new_eff_start
    /\ get_free_addr
         (mark_used (space_manager ct_rom) new_eff_start (new_eff_start + (0x39 + 6) * 3))
         (4 + (zlen venus_b + zlen spell_b) + zlen switch_b) 0x410000
       = Some payload_addr
    /\ assemble [ ins JMP (to_rom_ptr (to_rom_ptr
                    (payload_addr + (zlen venus_b + zlen spell_b) + 4))) LNG ] = Ok jmp_b
    /\ peek 0x01EB41 4 (rom_data ct_final) = Some jmp_b
    /\ peek (payload_addr + (zlen venus_b + zlen spell_b) + 4) (length switch_b)
         (rom_data ct_final) = Some switch_b
    /\ peek payload_addr 2 (rom_data ct_final)
       = Some (le_digits 2 ((payload_addr + 4) mod 0x10000))
    /\ peek (payload_addr + 2) 2 (rom_data ct_final)
       = Some (le_digits 2 ((payload_addr + 4 + zlen venus_b) mod 0x10000))
    /\ peek (payload_addr + 4) (length venus_b) (rom_data ct_final) = Some venus_b
    /\ peek (payload_addr + 4 + zlen venus_b) (length spell_b) (rom_data ct_final)
       = Some spell_b.
Proof.
  intros Hmark Hfresh Hsites Hapart Hhooks Hrun.
  destruct (expand_effect_mods_survivors used Hmark Hfresh Hsites Hapart _ _ Hrun)
    as (s & vanilla & additional & routines & ct2 & pa & ptr_b & rt_b & payload & hook_b
        & _ & Hnew & Halloc & _ & _ & _ & Hfs2 & Hbuild & Hpart & Hhook & Hhookpeek).
  rewrite gather_new_effects_and_rts_value in Hnew. injection Hnew as _ <-.
  pose proof (build_routine_payload_alloc _ _ _ _ _ _ Hbuild) as Hpalloc.
  rewrite Hfs2 in Hpalloc.
  destruct (routine_payload_parts _ _ _ _ _ _ Hbuild Hpart)
    as (venus_b & spell_b & switch_b & Hv & Hs & Hsw & Hlen & -> & Hsize & Hparts).
  rewrite Hlen in Hhook. rewrite Hsize in Hpalloc.
  exists s, pa, venus_b, spell_b, switch_b, hook_b.
  split; [exact Hv|]. split; [exact Hs|]. split; [exact Hsw|].
  split; [exact Halloc|]. split; [exact Hpalloc|].
  split; [by rewrite <- zlen_app|]. split; [exact (Hhookpeek Hhooks)|].
  exact Hparts.
Qed.

Lemma sample_patch_hooks_apart (h : Z) :
  h ∈ map fst hook_pc_pairs ++ [ sunshades_hook_rom_addr ] ->
  forall x, in_block (@to_file_ptr sample_env h) 4 x -> ~ in_block 0x01EB41 4 x.
Proof.
  intros Hin x Hx. unfold in_block in *. cbn in Hin.
  repeat (apply elem_of_cons in Hin as [->|Hin];
          [ set (f := @to_file_ptr sample_env _) in *; vm_compute in f; subst f; lia |]).
  by apply elem_of_nil in Hin.
Qed.

(** On the sample image the payload goes to [0x4100BD], behind the
    table: the slots hold [0x00C1] and [0x00C8], the dispatch routine
    starts at [0x4100FF], and the hook is [5C FF 00 41]. *)
Lemma dispatch_chain_installed_witness :
  exists ct_final,
    @expand_effect_mods sample_env sample_rom = Ok ct_final
    /\ peek 0x01EB41 4 (@rom_data sample_env ct_final) = Some [0x5C; 0xFF; 0x00; 0x41]
    /\ peek 0x4100BD 2 (@rom_data sample_env ct_final) = Some [0xC1; 0x00]
    /\ peek 0x4100BF 2 (@rom_data sample_env ct_final) = Some [0xC8; 0x00]
    /\ peek 0x4100C1 7 (@rom_data sample_env ct_final)
       = Some [0xA2; 0x09; 0x03; 0x8E; 0x89; 0xAD; 0x60].
Proof.
  assert (Hrun : match @expand_effect_mods sample_env sample_rom with
                 | Ok _ => True
                 | Err _ => False
                 end) by (vm_compute; exact Logic.I).
  destruct (@expand_effect_mods sample_env sample_rom) as [ct_final|] eqn:Hw;
    [|contradiction].
  exists ct_final. split; [reflexivity|].
  destruct (@dispatch_chain_installed sample_env sample_used sample_rom ct_final
              sample_used_mark sample_used_fresh sample_sites_reserved
              sample_hooks_apart_refs sample_patch_hooks_apart Hw)
    as (s & pa & venus_b & spell_b & switch_b & jmp_b & Hv & Hs & Hsw & Hs0 & Hpa & Hj
        & Hhook & _ & Hslot0 & Hslot1 & Hvenus & _).
  vm_compute in Hv. injection Hv as <-.
  vm_compute in Hs. injection Hs as <-.
  cbn in Hs0. injection Hs0 as <-.
  cbn in Hpa. injection Hpa as <-.
  vm_compute in Hj. injection Hj as <-.
  exact (conj Hhook (conj Hslot0 (conj Hslot1 Hvenus))).
Defined.

(** ** The effect records and routines of the module *)

(** X8. [get_spellslinger_effect] builds the record
    [effect_id, 0, damage_divisor] exactly when the divisor is in
    [1 .. 0xFE] and the effect id is a byte; every other pair of
    arguments ends in [ValueError], from the function's own check or
    from [bytes].  A divisor of 0 is never stored. *)
Theorem get_spellslinger_effect_bounds (effect_id damage_divisor : Z) :
  (get_spellslinger_effect effect_id damage_divisor
   = Ok [effect_id; 0; damage_divisor]
   <-> 0 <= effect_id < 256 /\ 1 <= damage_divisor < 0xFF)
  /\ (get_spellslinger_effect effect_id damage_divisor = Err ValueError
      <-> ~ (0 <= effect_id < 256 /\ 1 <= damage_divisor < 0xFF))
  /\ (forall b, get_spellslinger_effect effect_id damage_divisor = Ok b ->
                b = [effect_id; 0; damage_divisor] /\ b !! 2%nat <> Some 0).
Proof.
  assert (Hok : 0 <= effect_id < 256 /\ 1 <= damage_divisor < 0xFF ->
                get_spellslinger_effect effect_id damage_divisor
                = Ok [effect_id; 0; damage_divisor]).
  { intros [Hid Hdd]. unfold get_spellslinger_effect, py_bytes, is_byte. cbn [forallb].
    replace (1 <=? damage_divisor) with true by (symmetry; apply Z.leb_le; lia).
    replace (damage_divisor <? 255) with true by (symmetry; apply Z.ltb_lt; lia).
    replace (0 <=? effect_id) with true by (symmetry; apply Z.leb_le; lia).
    replace (effect_id <? 256) with true by (symmetry; apply Z.ltb_lt; lia).
    replace (0 <=? damage_divisor) with true by (symmetry; apply Z.leb_le; lia).
    replace (damage_divisor <? 256) with true by (symmetry; apply Z.ltb_lt; lia).
    reflexivity. }
  assert (Herr : ~ (0 <= effect_id < 256 /\ 1 <= damage_divisor < 0xFF) ->
                 get_spellslinger_effect effect_id damage_divisor = Err ValueError).
  { intros Hout. unfold get_spellslinger_effect, py_bytes, is_byte. cbn [forallb].
    destruct (1 <=? damage_divisor) eqn:E1; [|reflexivity].
    destruct (damage_divisor <? 255) eqn:E2; [|reflexivity].
    cbn [andb negb].
    apply Z.leb_le in E1. apply Z.ltb_lt in E2.
    destruct (0 <=? effect_id) eqn:E3; [|reflexivity].
    destruct (effect_id <? 256) eqn:E4; [|reflexivity].
    apply Z.leb_le in E3. apply Z.ltb_lt in E4. lia. }
  destruct (decide (0 <= effect_id < 256 /\ 1 <= damage_divisor < 0xFF)) as [Hin|Hout].
  - rewrite (Hok Hin). split; [done|]. split; [split; [discriminate | done]|].
    intros b [= <-]. split; [reflexivity|]. cbn. intros [= Hz]. lia.
  - rewrite (Herr Hout). split; [split; [discriminate | done]|].
    split; [done|]. intros b [=].
Qed.

(** ** The armor routine and the venus bow routine, run *)

Lemma mrun_inst fuel cfg prog i r st :
  mrun (S fuel) cfg prog (I i :: r) st =
    match mstep cfg i st with
    | MNext st' => mrun fuel cfg prog r st'
    | MBranch s =>
        match after_label s prog with
        | Some r' => mrun fuel cfg prog r' st
        | None => None
        end
    | MLeave target => Some (Jumped target st)
    | MReturn => Some (Returned st)
    | MFault => None
    end.
Proof. reflexivity. Qed.

Lemma mrun_label fuel cfg prog s r st :
  mrun (S fuel) cfg prog (L s :: r) st = mrun fuel cfg prog r st.
Proof. reflexivity. Qed.

Ltac mrun_step :=
  first [ rewrite mrun_label
        | rewrite mrun_inst;
          cbv [mstep mnem mode_of mode arg default_mode];
          cbv [acc idx zero memory] ].

Ltac mrun_branch :=
  cbn [after_label String.eqb Ascii.eqb Bool.eqb].

Section ArmorRoutine.
Variable cfg : mconfig.
Variables effect_mod_start_rom battle_index hook_rom_addr : Z.
Variable st : machine.

Let rt := make_effect_rt effect_mod_start_rom battle_index hook_rom_addr.
Let e0 := mread (memory st) (effect_mod_start_rom + idx st).
Let e1 := mread (memory st) (effect_mod_start_rom + 1 + idx st).

Lemma armor_rt_vanilla_path :
  e0 <> 0 ->
  mexecute cfg rt st
  = Some (Jumped (hook_rom_addr + 4) (mkMachine e0 (idx st) false (memory st))).
Proof.
  intros H0. subst rt e0 e1.
  unfold mexecute, make_effect_rt, ins, insm, ins0, insl. cbv [length].
  destruct st as [a x z m]; cbv [idx memory] in *.
  do 2 mrun_step.
  replace (mread m (effect_mod_start_rom + x) =? 0) with false
    by (symmetry; by apply Z.eqb_neq).
  do 2 mrun_step. reflexivity.
Qed.

Local Ltac armor_start :=
  subst rt e0 e1;
  unfold mexecute, make_effect_rt, ins, insm, ins0, insl; cbv [length];
  destruct st as [a x z m]; cbv [idx memory] in *.

Lemma armor_rt_aegis_path :
  e0 = 0 -> e1 = 0 ->
  let element := data_bank cfg + (0x5E2D + 0x80 * battle_index + 0x3F) in
  mexecute cfg rt st
  = Some (Jumped (hook_rom_addr + 15)
            (mkMachine 0 (idx st) true
               (<[element + 3 := 0]> (<[element + 2 := 0]> (<[element + 1 := 0]>
                  (<[element := 0]> (memory st))))))).
Proof.
  intros H0 H1 element. subst element. armor_start.
  do 2 mrun_step. rewrite H0. change (0 =? 0) with true.
  mrun_step. mrun_branch.
  do 2 mrun_step. rewrite H1. change (0 =? 0) with true.
  do 7 mrun_step.
  replace (data_bank cfg + (24109 + 128 * battle_index + 63 + 3))
    with (data_bank cfg + (24109 + 128 * battle_index + 63) + 3) by lia.
  replace (data_bank cfg + (24109 + 128 * battle_index + 63 + 2))
    with (data_bank cfg + (24109 + 128 * battle_index + 63) + 2) by lia.
  replace (data_bank cfg + (24109 + 128 * battle_index + 63 + 1))
    with (data_bank cfg + (24109 + 128 * battle_index + 63) + 1) by lia.
  reflexivity.
Qed.

Lemma armor_rt_crown_path :
  e0 = 0 -> e1 = 1 ->
  let crown := data_bank cfg + (_crown_offset + 0x80 * battle_index) in
  let status := data_bank cfg + (0x5E50 + 0x80 * battle_index) in
  exists z',
    mexecute cfg rt st
    = Some (Jumped (hook_rom_addr + 15)
              (mkMachine 0xFF (idx st) z'
                 (<[status := Z.lor (mread (memory st) status) 0xFF]>
                    (<[crown := Z.lor (mread (memory st) crown) 0x80]> (memory st))))).
Proof.
  intros H0 H1 crown status. subst crown status. armor_start. eexists.
  do 2 mrun_step. rewrite H0. change (0 =? 0) with true.
  mrun_step. mrun_branch.
  do 2 mrun_step. rewrite H1. change (1 =? 0) with false.
  mrun_step. mrun_branch. mrun_step.
  change ((1 - 1) mod 256) with 0. change (0 =? 0) with true.
  do 6 mrun_step.
  replace (data_bank cfg + (24109 + 128 * battle_index + (_crown_offset - 24109)))
    with (data_bank cfg + (_crown_offset + 128 * battle_index)) by lia.
  replace (data_bank cfg + (24109 + 128 * battle_index + (24144 - 24109)))
    with (data_bank cfg + (24144 + 128 * battle_index)) by lia.
  unfold mread at 1 3. rewrite !lookup_insert_ne by (unfold _crown_offset; lia).
  reflexivity.
Qed.

Lemma armor_rt_tiara_path :
  e0 = 0 -> e1 = 2 ->
  let haste := data_bank cfg + (0x5E52 + 0x80 * battle_index) in
  let status := data_bank cfg + (0x5E50 + 0x80 * battle_index) in
  exists z',
    mexecute cfg rt st
    = Some (Jumped (hook_rom_addr + 15)
              (mkMachine 0xFF (idx st) z'
                 (<[status := Z.lor (mread (memory st) status) 0xFF]>
                    (<[haste := Z.lor (mread (memory st) haste) 0x80]> (memory st))))).
Proof.
  intros H0 H1 haste status. subst haste status. armor_start. eexists.
  do 2 mrun_step. rewrite H0. change (0 =? 0) with true.
  mrun_step. mrun_branch.
  do 2 mrun_step. rewrite H1. change (2 =? 0) with false.
  mrun_step. mrun_branch. mrun_step.
  change ((2 - 1) mod 256) with 1. change (1 =? 0) with false.
  mrun_step. mrun_branch. mrun_step.
  change ((1 - 1) mod 256) with 0. change (0 =? 0) with true.
  do 7 mrun_step.
  replace (data_bank cfg + (24109 + 128 * battle_index + (24144 - 24109 + 2)))
    with (data_bank cfg + (24146 + 128 * battle_index)) by lia.
  replace (data_bank cfg + (24109 + 128 * battle_index + (24144 - 24109)))
    with (data_bank cfg + (24144 + 128 * battle_index)) by lia.
  unfold mread at 1 3. rewrite !lookup_insert_ne by lia.
  reflexivity.
Qed.

Lemma armor_rt_other_path :
  e0 = 0 -> 3 <= e1 < 256 ->
  mexecute cfg rt st
  = Some (Jumped (hook_rom_addr + 15) (mkMachine (e1 - 2) (idx st) false (memory st))).
Proof.
  intros H0 H1. armor_start.
  set (v := mread m (effect_mod_start_rom + 1 + x)) in *.
  do 2 mrun_step. rewrite H0. change (0 =? 0) with true.
  mrun_step. mrun_branch.
  do 2 mrun_step. fold v.
  replace (v =? 0) with false by (symmetry; apply Z.eqb_neq; lia).
  mrun_step. mrun_branch. mrun_step.
  replace ((v - 1) mod 256) with (v - 1) by (symmetry; apply Z.mod_small; lia).
  replace (v - 1 =? 0) with false by (symmetry; apply Z.eqb_neq; lia).
  mrun_step. mrun_branch. mrun_step.
  replace ((v - 1 - 1) mod 256) with (v - 2) by (symmetry; rewrite Z.mod_small; lia).
  replace (v - 2 =? 0) with false by (symmetry; apply Z.eqb_neq; lia).
  mrun_step. mrun_branch. mrun_step.
  reflexivity.
Qed.
End ArmorRoutine.

(** X13. What an armor routine does when it runs.  With [XX] and [YY]
    the first two bytes of the effect record X selects in the relocated
    table: if [XX] is not 0 the routine has only loaded [XX], as the
    overwritten instruction did, and leaves for [hook_rom_addr + 4], the
    vanilla code behind the hook; otherwise it leaves for
    [hook_rom_addr + 15], after clearing the four element bytes of the
    character ([YY = 0]), after setting bit [0x80] of the byte at
    [_crown_offset] and filling the status byte at [0x5E50] ([YY = 1]),
    after setting bit [0x80] at [0x5E52] and filling the status byte
    ([YY = 2]), or with the memory untouched (any other byte [YY]); all
    addresses are those of character [battle_index], [0x80] bytes
    apart. *)
Theorem make_effect_rt_run (cfg : mconfig)
    (effect_mod_start_rom battle_index hook_rom_addr : Z) (st : machine) :
  let rt := make_effect_rt effect_mod_start_rom battle_index hook_rom_addr in
  let m := memory st in
  let XX := mread m (effect_mod_start_rom + idx st) in
  let YY := mread m (effect_mod_start_rom + 1 + idx st) in
  let element := data_bank cfg + (0x5E2D + 0x80 * battle_index + 0x3F) in
  let crown := data_bank cfg + (_crown_offset + 0x80 * battle_index) in
  let status := data_bank cfg + (0x5E50 + 0x80 * battle_index) in
  let haste := data_bank cfg + (0x5E52 + 0x80 * battle_index) in
  (XX <> 0 ->
     mexecute cfg rt st
     = Some (Jumped (hook_rom_addr + 4) (mkMachine XX (idx st) false m)))
  /\ (XX = 0 -> YY = 0 ->
      mexecute cfg rt st
      = Some (Jumped (hook_rom_addr + 15)
                (mkMachine 0 (idx st) true
                   (<[element + 3 := 0]> (<[element + 2 := 0]> (<[element + 1 := 0]>
                      (<[element := 0]> m)))))))
  /\ (XX = 0 -> YY = 1 ->
      exists z',
        mexecute cfg rt st
        = Some (Jumped (hook_rom_addr + 15)
                  (mkMachine 0xFF (idx st) z'
                     (<[status := Z.lor (mread m status) 0xFF]>
                        (<[crown := Z.lor (mread m crown) 0x80]> m)))))
  /\ (XX = 0 -> YY = 2 ->
      exists z',
        mexecute cfg rt st
        = Some (Jumped (hook_rom_addr + 15)
                  (mkMachine 0xFF (idx st) z'
                     (<[status := Z.lor (mread m status) 0xFF]>
                        (<[haste := Z.lor (mread m haste) 0x80]> m)))))
  /\ (XX = 0 -> 3 <= YY < 256 ->
      mexecute cfg rt st
      = Some (Jumped (hook_rom_addr + 15) (mkMachine (YY - 2) (idx st) false m))).
Proof.
  cbv zeta. split; [apply armor_rt_vanilla_path|].
  split; [apply armor_rt_aegis_path|].
  split; [apply armor_rt_crown_path|].
  split; [apply armor_rt_tiara_path | apply armor_rt_other_path].
Qed.

(** X14. The venus bow routine stores 777 as the 16-bit damage at
    [_current_damage_offset], low byte first, whatever the state it is
    entered with, and returns; nothing else in memory changes and the
    accumulator is as it was. *)
Theorem get_venus_bow_rt_run (cfg : mconfig) (st : machine) :
  exists st',
    mexecute cfg get_venus_bow_rt st = Some (Returned st')
    /\ memory st'
       = <[data_bank cfg + _current_damage_offset + 1 := 3]>
           (<[data_bank cfg + _current_damage_offset := 9]> (memory st))
    /\ read16 (memory st') (data_bank cfg + _current_damage_offset) = 777
    /\ acc st' = acc st.
Proof.
  destruct st as [a x z m]. eexists. split; [|split; [|split]].
  - unfold mexecute, get_venus_bow_rt, ins, ins0. cbv [length].
    do 3 mrun_step. reflexivity.
  - reflexivity.
  - cbn [memory]. unfold read16, write16, mread.
    rewrite lookup_insert_ne by lia. rewrite !lookup_insert_eq. reflexivity.
  - reflexivity.
Qed.

(** ** [Distribution] with [int] weights *)

Lemma py_sum_from_ints (a : Z) (ws : list Z) :
  py_sum_from (WInt a) (map WInt ws) = Ok (WInt (a + zsum ws)).
Proof.
  revert a. induction ws as [|w ws IH]; intros a; cbn [map py_sum_from].
  - unfold zsum. cbn. by rewrite Z.add_0_r.
  - cbn [py_add rbind]. rewrite IH, zsum_cons. do 2 f_equal. lia.
Qed.

Lemma handle_pairs_ints {T : Type} (pairs : list (Z * Distribution.ObjType T)) :
  Forall (fun p : Z * Distribution.ObjType T => 0 <= p.1) pairs ->
  exists ws : list Z,
    map fst (Distribution._handle_weight_object_pairs
               (map (fun p : Z * Distribution.ObjType T => (WInt p.1, p.2)) pairs))
    = map WInt ws
    /\ Forall (fun w => 0 < w) ws.
Proof.
  induction 1 as [|[w o] pairs Hw _ (ws & Hws & Hpos)];
    cbn [map fst snd Distribution._handle_weight_object_pairs].
  - by exists [].
  - cbn [py_is_zero]. cbn [fst] in Hw. destruct (w =? 0) eqn:Ez; [by exists ws|].
    apply Z.eqb_neq in Ez.
    destruct o as [x|[|x l]]; [|by exists ws|];
      (exists (w :: ws); cbn [map fst]; split; [by rewrite Hws | constructor; [lia | done]]).
Qed.

(** X15. With [int] weights none of which is negative, constructing a
    [Distribution] fails exactly when no entry is kept, that is when
    every entry has weight 0 or an empty list (no entry at all
    included); otherwise it succeeds, the weights kept are positive and
    [get_total_weight] is their exact sum, an [int] above 0. *)
Theorem distribution_int_weights {T : Type} (pairs : list (Z * Distribution.ObjType T)) :
  Forall (fun p : Z * Distribution.ObjType T => 0 <= p.1) pairs ->
  let wpairs := map (fun p : Z * Distribution.ObjType T => (WInt p.1, p.2)) pairs in
  let cleaned := Distribution._handle_weight_object_pairs wpairs in
  (cleaned = [] -> Distribution.init wpairs = Err ZeroWeightException)
  /\ (cleaned <> [] ->
      exists (d : Distribution.t T) (ws : list Z),
        Distribution.init wpairs = Ok d
        /\ Distribution.get_weight_object_pairs d = cleaned
        /\ map fst cleaned = map WInt ws
        /\ Forall (fun w => 0 < w) ws
        /\ Distribution.get_total_weight d = WInt (zsum ws)
        /\ 0 < zsum ws).
Proof.
  intros Hnn wpairs cleaned.
  destruct (handle_pairs_ints pairs Hnn) as (ws & Hws & Hpos).
  fold wpairs in Hws. fold cleaned in Hws.
  assert (Hsum : py_sum (map fst cleaned) = Ok (WInt (zsum ws))).
  { rewrite Hws. unfold py_sum. by rewrite py_sum_from_ints. }
  unfold Distribution.init, Distribution.set_weight_object_pairs.
  fold cleaned. rewrite Hsum. cbn [py_is_zero].
  split.
  - intros Hnil. rewrite Hnil in Hws. destruct ws; [|discriminate]. reflexivity.
  - intros Hne.
    assert (Htotal : 0 < zsum ws).
    { destruct Hpos as [|w ws' Hw Hrest].
      - destruct cleaned; [done | discriminate].
      - rewrite zsum_cons.
        assert (0 <= zsum ws') by (apply zsum_nonneg; eapply Forall_impl; [exact Hrest|]; cbn; lia).
        lia. }
    replace (zsum ws =? 0) with false by (symmetry; apply Z.eqb_neq; lia).
    eexists _, ws. repeat split; try done.
Qed.

(** Weights 3, 0 and 1: the entry of weight 0 is dropped and the total
    is 4. *)
Lemma distribution_int_weights_witness :
  exists d : Distribution.t Z,
    Distribution.init [ (WInt 3, Distribution.Single 7);
                        (WInt 0, Distribution.Single 8);
                        (WInt 1, Distribution.AList [1; 2]) ] = Ok d
    /\ Distribution.get_total_weight d = WInt 4.
Proof.
  destruct (@distribution_int_weights Z
              [ (3, Distribution.Single 7); (0, Distribution.Single 8);
                (1, Distribution.AList [1; 2]) ]
              ltac:(repeat constructor; cbn; lia)) as [_ Hok].
  destruct (Hok ltac:(discriminate)) as (d & ws & Hd & _ & Hws & _ & Htotal & _).
  exists d. split; [exact Hd|].
  rewrite Htotal. cbn in Hws.
  destruct ws as [|a [|b [|c ws]]]; try discriminate.
  by injection Hws as <- <-.
Defined.

(** ** The exceptions of [expand_effect_mods] *)

Lemma labels_closed_spec (rt : ASMList) (i : instruction) (s : string) :
  labels_closed rt = true -> I i ∈ rt -> arg i = Some (Lbl s) -> L s ∈ rt.
Proof.
  unfold labels_closed. rewrite forallb_forall. intros Hall Hin Harg.
  apply list_elem_of_In in Hin. specialize (Hall _ Hin).
  destruct i as [m a am]. cbn in Harg. subst a.
  apply existsb_exists in Hall as ([j|t] & Ht & Heq); [discriminate|].
  apply String.eqb_eq in Heq. subst t. by apply list_elem_of_In.
Qed.

Lemma label_offsets_keeps (rt : ASMList) (off : Z) (tbl : gmap string Z) (s : string) :
  is_Some (tbl !! s) -> is_Some (label_offsets rt off tbl !! s).
Proof.
  revert off tbl. induction rt as [|[i|t] rt IH]; intros off tbl Hs; cbn [label_offsets];
    [done | by apply IH |].
  apply IH. destruct (tbl !! t) eqn:Et; [done|].
  destruct (decide (t = s)) as [->|Hne].
  - rewrite lookup_insert_eq. by eexists.
  - by rewrite lookup_insert_ne.
Qed.

Lemma label_offsets_defined (rt : ASMList) (off : Z) (tbl : gmap string Z) (s : string) :
  L s ∈ rt -> is_Some (label_offsets rt off tbl !! s).
Proof.
  revert off tbl. induction rt as [|[i|t] rt IH]; intros off tbl Hin; cbn [label_offsets].
  - by apply elem_of_nil in Hin.
  - apply elem_of_cons in Hin as [[=]|Hin]. by apply IH.
  - apply elem_of_cons in Hin as [[= ->]|Hin]; [|by apply IH].
    apply label_offsets_keeps. destruct (tbl !! t) eqn:Et; [by eexists|].
    rewrite lookup_insert_eq. by eexists.
Qed.

Lemma fit_operand_error (v : Z) (n : nat) (e : pyerr) :
  fit_operand v n = Err e -> e = EncodingRangeError.
Proof. unfold fit_operand. destruct (_ && _); [discriminate | by intros [= <-]]. Qed.

Lemma encode_operand_error (tbl : gmap string Z) (off : Z) (i : instruction) (e : pyerr) :
  encode_operand tbl off i = Err e ->
  e = EncodingRangeError
  \/ e = UnresolvedLabel /\ exists s, arg i = Some (Lbl s) /\ tbl !! s = None.
Proof.
  unfold encode_operand. destruct (arg i) as [[n|s]|].
  - intros He. left. by eapply fit_operand_error.
  - destruct (tbl !! s) as [t|] eqn:Es; cbn [of_option rbind].
    + intros He. left. destruct (mode_of i);
        try (by eapply fit_operand_error).
      destruct (_ && _); [discriminate | by injection He as <-].
    + intros [= <-]. right. split; [reflexivity|]. by exists s.
  - destruct (operand_size _); [discriminate|]. intros [= <-]. by left.
Qed.

Section Exceptions.
Context `{Env}.

Lemma emit_error (tbl : gmap string Z) (rt : ASMList) (off : Z) (e : pyerr) :
  emit tbl rt off = Err e ->
  e = EncodingRangeError
  \/ e = UnresolvedLabel
     /\ exists i s, I i ∈ rt /\ arg i = Some (Lbl s) /\ tbl !! s = None.
Proof.
  revert off. induction rt as [|[i|t] rt IH]; intros off; cbn [emit]; [discriminate| |].
  - destruct (encode_operand tbl off i) as [ob|e'] eqn:Eo; cbn [rbind].
    + destruct (emit tbl rt (off + inst_size i)) as [rest|e'] eqn:Er; cbn [rbind];
        [discriminate|].
      intros [= <-]. destruct (IH _ Er) as [->|(-> & j & s & Hj & Hs)]; [by left|].
      right. split; [reflexivity|]. exists j, s. split; [by right | exact Hs].
    + intros [= <-].
      destruct (encode_operand_error _ _ _ _ Eo) as [->|(-> & s & Hs & Ht)]; [by left|].
      right. split; [reflexivity|]. exists i, s. split; [by left | done].
  - intros He. destruct (IH _ He) as [->|(-> & j & s & Hj & Hs)]; [by left|].
    right. split; [reflexivity|]. exists j, s. split; [by right | exact Hs].
Qed.

(** A routine that defines the labels it names fails to assemble only
    on an operand or a branch out of range. *)
Lemma assemble_error (rt : ASMList) (e : pyerr) :
  labels_closed rt = true -> assemble rt = Err e -> e = EncodingRangeError.
Proof.
  intros Hclosed He. apply emit_error in He as [->|(-> & i & s & Hi & Hs & Hnone)];
    [reflexivity|].
  exfalso. pose proof (labels_closed_spec _ _ _ Hclosed Hi Hs) as Hdef.
  destruct (label_offsets_defined rt 0 ∅ s Hdef) as [t Ht]. congruence.
Qed.

Lemma read_from_ctrom_error (ct_rom : CTRom) (ind : Z) (e : pyerr) :
  read_from_ctrom ct_rom ind = Err e -> e = SizeMismatchError.
Proof.
  unfold read_from_ctrom, get_data_start_from_ctrom.
  destruct (peek EffectMod_ROM_RW 3 _); cbn [of_option rbind]; [|by intros [= <-]].
  destruct (peek _ 3 _); cbn [of_option rbind]; [|by intros [= <-]].
  unfold EffectMod. destruct (_ =? _); [discriminate | by intros [= <-]].
Qed.

Lemma write_effect_table_error (ct_rom : CTRom) (e : pyerr) :
  write_effect_table ct_rom = Err e ->
  e = SizeMismatchError /\ gather_vanilla_effects ct_rom = Err SizeMismatchError
  \/ e = AllocationError.
Proof.
  unfold write_effect_table.
  destruct (gather_vanilla_effects ct_rom) as [vanilla|eg] eqn:Eg; cbn [rbind].
  - rewrite gather_new_effects_and_rts_value. cbn [rbind].
    destruct (get_free_addr _ _ _); cbn [of_option rbind]; [discriminate|].
    intros [= <-]. by right.
  - intros [= <-]. left. unfold gather_vanilla_effects in Eg.
    apply rmap_error in Eg as (a & _ & Ha). apply read_from_ctrom_error in Ha.
    by subst eg.
Qed.

Lemma rewrite_refs_error (rom_addr : Z) (items : list (Z * Z)) (ct_rom : CTRom) (e : pyerr) :
  rewrite_refs rom_addr items ct_rom = Err e -> e = OverflowError.
Proof.
  revert ct_rom. induction items as [|[addr offset] items IH]; intros ct_rom;
    cbn [rewrite_refs]; [discriminate|].
  unfold to_bytes_le at 1. destruct (_ && _); cbn [rbind]; [apply IH | by intros [= <-]].
Qed.

Lemma build_routine_payload_error (ct_rom : CTRom) (routines : list ASMList) (e : pyerr) :
  Forall (fun rt => labels_closed rt = true) routines ->
  build_routine_payload ct_rom routines = Err e ->
  e = AllocationError \/ e = OverflowError \/ e = EncodingRangeError.
Proof.
  intros Hclosed He.
  assert (Hne : e <> ValueError)
    by (intros ->; by apply payload_length_check_passes in He).
  revert He. unfold build_routine_payload.
  destruct (rmap assemble routines) as [effect_rts|e'] eqn:Ert; cbn [rbind].
  2:{ intros [= <-]. apply rmap_error in Ert as (rt & Hin & Hrt).
      rewrite Forall_forall in Hclosed.
      right. right. exact (assemble_error rt _ (Hclosed rt Hin) Hrt). }
  destruct (assemble (make_bank_switch_rt 0)) as [dummy_b|e'] eqn:Ed; cbn [rbind].
  2:{ intros [= <-]. right. right.
      exact (assemble_error (make_bank_switch_rt 0) _ eq_refl Ed). }
  destruct (get_free_addr _ _ _) as [addr|]; cbn [of_option rbind];
    [|intros [= <-]; by left].
  destruct (assemble (make_bank_switch_rt (to_rom_ptr addr))) as [real_b|e'] eqn:Er;
    cbn [rbind].
  2:{ intros [= <-]. right. right.
      exact (assemble_error (make_bank_switch_rt (to_rom_ptr addr)) _ eq_refl Er). }
  destruct (build_ptr_table addr routines effect_rts) as [[pb rb]|e'] eqn:Ep; cbn [rbind].
  2:{ intros [= <-]. right. left. by eapply build_ptr_table_error. }
  destruct (negb _); [intros [= <-]; congruence | discriminate].
Qed.

Lemma apply_jmp_patch_error (rt : ASMList) (hook hint : Z) (ct_rom : CTRom) (e : pyerr) :
  labels_closed rt = true ->
  apply_jmp_patch rt hook ct_rom hint = Err e ->
  e = AllocationError \/ e = EncodingRangeError.
Proof.
  intros Hclosed. unfold apply_jmp_patch.
  destruct (assemble rt) as [rt_b|e'] eqn:Ert; cbn [rbind].
  2:{ intros [= <-]. right. exact (assemble_error _ _ Hclosed Ert). }
  destruct (get_free_addr _ _ _) as [addr|]; cbn [of_option rbind];
    [|intros [= <-]; by left].
  destruct (assemble [ ins JMP (to_rom_ptr addr) LNG ]) as [jmp_b|e'] eqn:Ej;
    cbn [rbind]; [discriminate|].
  intros [= <-]. right.
  exact (assemble_error [ ins JMP (to_rom_ptr addr) LNG ] _ eq_refl Ej).
Qed.

Lemma apply_jmp_patches_error (calls : list (ASMList * Z * Z)) (ct_rom : CTRom)
    (e : pyerr) :
  Forall (fun c : ASMList * Z * Z => labels_closed c.1.1 = true) calls ->
  apply_jmp_patches calls ct_rom = Err e ->
  e = AllocationError \/ e = EncodingRangeError.
Proof.
  intros Hclosed. revert ct_rom.
  induction Hclosed as [|[[rt hook] hint] calls Hrt _ IH]; intros ct_rom;
    cbn [apply_jmp_patches]; [discriminate|].
  destruct (apply_jmp_patch rt hook ct_rom hint) as [ct1|e'] eqn:E1; cbn [rbind];
    [apply IH|].
  intros [= <-]. by eapply apply_jmp_patch_error.
Qed.

(** X16. The exceptions of [expand_effect_mods].  It can fail in four
    ways only: reading a vanilla record fails (then
    [gather_vanilla_effects] on the image fails the same way, and nothing
    was written), the free-space manager has no room, [int.to_bytes]
    overflows (a table address beyond 24 bits, or a routine pointer
    beyond 16), or the assembler meets an operand or branch out of
    range.  It raises no [ValueError], neither from
    [get_spellslinger_effect], nor from [bytes], nor from its own check
    of the payload length, and no routine names a label it does not
    define. *)
Theorem expand_effect_mods_errors (ct_rom : CTRom) (e : pyerr) :
  expand_effect_mods ct_rom = Err e ->
  e = SizeMismatchError /\ gather_vanilla_effects ct_rom = Err SizeMismatchError
  \/ e = AllocationError \/ e = OverflowError \/ e = EncodingRangeError.
Proof.
  unfold expand_effect_mods.
  destruct (write_effect_table ct_rom) as [[[[s table] routines] ct1]|e1] eqn:E1;
    cbn [rbind].
  2:{ intros [= <-]. apply write_effect_table_error in E1 as [He|He]; [by left|].
      right. by left. }
  apply write_effect_table_inv in E1 as (vanilla & additional & _ & Hnew & _ & _ & _).
  rewrite gather_new_effects_and_rts_value in Hnew. injection Hnew as _ <-.
  destruct (rewrite_refs _ _ ct1) as [ct2|e2] eqn:E2; cbn [rbind].
  2:{ intros [= <-]. apply rewrite_refs_error in E2. right. right. by left. }
  destruct (build_routine_payload ct2 _) as [[[[pa pb] rb] payload]|e3] eqn:E3;
    cbn [rbind].
  2:{ intros [= <-]. right. apply build_routine_payload_error in E3; [exact E3|].
      by repeat constructor. }
  destruct (assemble [ ins JMP (to_rom_ptr (to_rom_ptr (pa + zlen rb + zlen pb))) LNG ])
    as [hook_b|e4] eqn:E4; cbn [rbind].
  2:{ intros [= <-]. right. right. right.
      exact (assemble_error
               [ ins JMP (to_rom_ptr (to_rom_ptr (pa + zlen rb + zlen pb))) LNG ]
               _ eq_refl E4). }
  rewrite patches_are_jmp_patch_calls. intros He. right.
  assert (Hclosed : Forall (fun c : ASMList * Z * Z => labels_closed c.1.1 = true)
                      (jmp_patch_calls s)).
  { unfold jmp_patch_calls. apply Forall_app. split.
    - apply Forall_fmap, Forall_forall. intros [hook pc] _. reflexivity.
    - by repeat constructor. }
  destruct (apply_jmp_patches_error _ _ _ Hclosed He) as [Ha|Hr];
    [by left | by right; right].
Qed.
End Exceptions.

(** On an image that holds nothing, not even the meta-pointer, the
    expansion fails with the size mismatch of the first read. *)
Lemma expand_effect_mods_errors_witness :
  @expand_effect_mods sample_env (@mkCTRom sample_env ∅ 0 0x410000)
  = Err SizeMismatchError
  /\ @gather_vanilla_effects sample_env (@mkCTRom sample_env ∅ 0 0x410000)
     = Err SizeMismatchError.
Proof.
  assert (Hrun : match @expand_effect_mods sample_env (@mkCTRom sample_env ∅ 0 0x410000) with
                 | Err SizeMismatchError => True
                 | _ => False
                 end) by (vm_compute; exact Logic.I).
  destruct (@expand_effect_mods sample_env (@mkCTRom sample_env ∅ 0 0x410000))
    as [c|e] eqn:He; [contradiction|].
  destruct e; try contradiction. split; [reflexivity|].
  destruct (@expand_effect_mods_errors sample_env _ _ He) as [[_ Hg]|[Hd|[Hd|Hd]]];
    [exact Hg | discriminate..].
Defined.

(** ** The ways out, and the runs *)

(** However a run ends, it ends in one of the ways the control flow has. *)
Lemma ways_out_sound (fuel : nat) (cfg : mconfig) (prog rest : ASMList)
    (st : machine) (out : outcome) :
  mrun fuel cfg prog rest st = Some out ->
  match out with
  | Jumped target _ => Out_jump target
  | Returned _ => Out_return
  end ∈ ways_out fuel prog rest.
Proof.
  revert rest st. induction fuel as [|fuel IH]; intros rest st; [discriminate|].
  destruct rest as [|[i|s] r]; cbn [mrun ways_out]; [discriminate| |by apply IH].
  destruct (mstep cfg i st) as [st'|s|target| |] eqn:Es; [| | | |discriminate].
  - intros Hrun. apply IH in Hrun.
    destruct st as [a x [] m];
      destruct i as [[] [[n|s]|] [[]|]];
      cbv [mstep mnem mode_of mode arg default_mode zero] in Es; try discriminate;
      cbn [mnem arg]; try exact Hrun; apply elem_of_app; by left.
  - destruct (after_label s prog) as [r'|] eqn:El; [|discriminate].
    intros Hrun. apply IH in Hrun.
    destruct st as [a x [] m];
      destruct i as [[] [[n|s']|] [[]|]];
      cbv [mstep mnem mode_of mode arg default_mode zero] in Es; try discriminate;
      injection Es as <-; cbn [mnem arg];
      apply elem_of_app; right; by rewrite El.
  - intros [= <-].
    destruct st as [a x [] m];
      destruct i as [[] [[n|s']|] [[]|]];
      cbv [mstep mnem mode_of mode arg default_mode zero] in Es; try discriminate;
      injection Es as <-; by left.
  - intros [= <-].
    destruct st as [a x [] m];
      destruct i as [[] [[n|s']|] [[]|]];
      cbv [mstep mnem mode_of mode arg default_mode zero] in Es; try discriminate;
      by left.
Qed.

(** X12. How the routines of the module can end, following their
    control flow.  Every path through an armor routine [make_effect_rt]
    leaves by a long jump, to [hook_rom_addr + 4] (behind the four bytes
    the jump patch overwrote) or to [hook_rom_addr + 15]; the sunshades
    routine always leaves for [0xC1E5DE], six bytes behind its hook; the
    dispatch routine leaves for [0xC1EB45] or [0xC1EB48].  None of them
    can return or run off its end.  The two effect routines reached
    through the pointer table can only return.  A run of a routine ends
    in one of the ways its control flow has: whatever the state, a run of
    an armor routine that ends, ends at one of the two addresses. *)
Theorem routines_ways_out (effect_mod_start_rom battle_index hook_rom_addr p : Z) :
  all_ways_out (make_effect_rt effect_mod_start_rom battle_index hook_rom_addr)
  = [ Out_jump (hook_rom_addr + 4); Out_jump (hook_rom_addr + 15);
      Out_jump (hook_rom_addr + 15); Out_jump (hook_rom_addr + 15);
      Out_jump (hook_rom_addr + 15) ]
  /\ all_ways_out sunshades_rt
     = [ Out_jump (sunshades_hook_rom_addr + 6); Out_jump (sunshades_hook_rom_addr + 6) ]
  /\ all_ways_out (make_bank_switch_rt p) = [ Out_jump 0xC1EB45; Out_jump 0xC1EB48 ]
  /\ all_ways_out get_venus_bow_rt = [ Out_return ]
  /\ all_ways_out get_spellslinger_rt = [ Out_return ]
  /\ (forall (cfg : mconfig) (rt : ASMList) (st : machine) (out : outcome),
        mexecute cfg rt st = Some out ->
        match out with
        | Jumped target _ => Out_jump target
        | Returned _ => Out_return
        end ∈ all_ways_out rt)
  /\ (forall (cfg : mconfig) (st : machine) (out : outcome),
        mexecute cfg
          (make_effect_rt effect_mod_start_rom battle_index hook_rom_addr) st = Some out ->
        exists st', out = Jumped (hook_rom_addr + 4) st'
                    \/ out = Jumped (hook_rom_addr + 15) st').
Proof.
  assert (Hsound : forall (cfg : mconfig) (rt : ASMList) (st : machine) (out : outcome),
             mexecute cfg rt st = Some out ->
             match out with
             | Jumped target _ => Out_jump target
             | Returned _ => Out_return
             end ∈ all_ways_out rt).
  { intros cfg rt st out. apply ways_out_sound. }
  do 5 (split; [reflexivity|]). split; [exact Hsound|].
  intros cfg st out Hrun. apply Hsound in Hrun.
  change (all_ways_out (make_effect_rt effect_mod_start_rom battle_index hook_rom_addr))
    with [ Out_jump (hook_rom_addr + 4); Out_jump (hook_rom_addr + 15);
           Out_jump (hook_rom_addr + 15); Out_jump (hook_rom_addr + 15);
           Out_jump (hook_rom_addr + 15) ] in Hrun.
  destruct out as [target st'|st'].
  - exists st'.
    repeat (apply elem_of_cons in Hrun as [[= ->]|Hrun]; [by auto|]).
    by apply elem_of_nil in Hrun.
  - repeat (apply elem_of_cons in Hrun as [[=]|Hrun]).
    by apply elem_of_nil in Hrun.
Qed.

(** ** The jump patches in the final image *)

Section JumpPatches.
Context `{Env}.
Variable used : FS -> Z -> Prop.
Hypothesis used_mark :
  forall fs a b x, used fs x \/ a <= x < b -> used (mark_used fs a b) x.
Hypothesis used_fresh :
  forall fs size hint a, get_free_addr fs size hint = Some a ->
                         forall x, in_block a size x -> ~ used fs x.

Lemma apply_jmp_patches_installed (calls : list (ASMList * Z * Z))
    (ct_rom ct_rom' : CTRom) :
  ForallOrdPairs (fun c1 c2 : ASMList * Z * Z =>
                    forall x, in_block c1.1.2 4 x -> ~ in_block c2.1.2 4 x) calls ->
  (forall fs size hint a, get_free_addr fs size hint = Some a ->
     forall x, in_block a size x ->
               Forall (fun c : ASMList * Z * Z => ~ in_block c.1.2 4 x) calls) ->
  apply_jmp_patches calls ct_rom = Ok ct_rom' ->
  Forall (patched (rom_data ct_rom')) calls.
Proof.
  intros Hapart. revert ct_rom.
  induction Hapart as [|[[rt hook] hint] calls Hhead Htail IH]; intros ct_rom Halloc;
    cbn [apply_jmp_patches]; [constructor|].
  destruct (apply_jmp_patch rt hook ct_rom hint) as [ct1|] eqn:E1; [|done].
  cbn [rbind]. intros Hrest.
  assert (Halloc' : forall fs size hint a, get_free_addr fs size hint = Some a ->
            forall x, in_block a size x ->
                      Forall (fun c : ASMList * Z * Z => ~ in_block c.1.2 4 x) calls).
  { intros fs size hint' a Ha x Hx. by eapply Forall_inv_tail, Halloc. }
  constructor; [|by eapply IH].
  revert E1. unfold apply_jmp_patch.
  destruct (assemble rt) as [rt_b|] eqn:Ert; [|done]. cbn [rbind].
  destruct (get_free_addr _ _ _) as [addr|] eqn:Ea; [|done]. cbn [rbind of_option].
  destruct (assemble [_]) as [jmp_b|] eqn:Ej; [|done]. cbn [rbind].
  intros [= <-].
  pose proof (assemble_length _ _ Ej) as Hjlen. change (static_size _) with 4 in Hjlen.
  exists addr, rt_b, jmp_b. cbn [fst snd].
  split; [exact Ert|]. split; [|split; [exact Ej|]].
  - assert (HKused : forall y, in_block addr (zlen rt_b) y ->
              used (space_manager (write jmp_b NO_MARK
                 (seek hook (write rt_b MARK_USED (seek addr ct_rom))))) y).
    { intros y Hy. cbn [space_manager write seek rom_pos]. apply used_mark. by right. }
    assert (HKavoid : Forall (fun c : ASMList * Z * Z =>
                        forall y, in_block c.1.2 4 y -> ~ in_block addr (zlen rt_b) y) calls).
    { apply Forall_forall. intros c Hc y Hy Hb.
      pose proof (Halloc' _ _ _ _ Ea y Hb) as Hall. rewrite Forall_forall in Hall.
      by apply (Hall c Hc). }
    rewrite (peek_ext _ _ _ (poke addr rt_b (rom_data ct_rom))); [apply peek_poke_all|].
    intros x Hx.
    assert (Hblock : in_block addr (zlen rt_b) x) by exact Hx.
    rewrite (apply_jmp_patches_keeps_used used used_mark used_fresh
               (fun y => in_block addr (zlen rt_b) y) _ _ _ HKused HKavoid
               Hrest x Hblock).
    rewrite !rom_data_write. apply poke_lookup_out. rewrite Hjlen. intros Hb.
    by apply (Forall_inv (Halloc _ _ _ _ Ea x Hblock)).
  - assert (HPalloc : forall fs size hint' a, get_free_addr fs size hint' = Some a ->
              forall y, in_block a size y -> ~ in_block hook 4 y).
    { intros fs size hint' a Ha y Hy Hb.
      by apply (Forall_inv (Halloc _ _ _ _ Ha y Hy)). }
    assert (HPavoid : Forall (fun c : ASMList * Z * Z =>
                        forall y, in_block c.1.2 4 y -> ~ in_block hook 4 y) calls).
    { eapply Forall_impl; [exact Hhead|]. intros c Hc y Hy Hb. by apply (Hc y Hb). }
    rewrite (peek_ext _ _ _ (poke hook jmp_b (poke addr rt_b (rom_data ct_rom)))).
    + replace 4%nat with (length jmp_b) by (unfold zlen in Hjlen; lia).
      apply peek_poke_all.
    + intros x Hx.
      rewrite (apply_jmp_patches_frame (fun y => in_block hook 4 y) _ _ _
                 HPalloc HPavoid Hrest x Hx).
      by rewrite !rom_data_write.
Qed.
End JumpPatches.

Lemma ForallOrdPairs_fmap {A B : Type} (f : A -> B) (R : B -> B -> Prop) (l : list A) :
  ForallOrdPairs R (map f l) <-> ForallOrdPairs (fun a b => R (f a) (f b)) l.
Proof.
  induction l as [|a l IH]; cbn [map].
  - split; constructor.
  - split; intros Hp; inversion Hp as [|? ? Hhead Htail]; subst; constructor.
    + exact (proj1 (Forall_fmap _ _ _) Hhead).
    + by apply IH.
    + exact (proj2 (Forall_fmap _ _ _) Hhead).
    + by apply IH.
Qed.

(** X17. After [expand_effect_mods] each of the seven jump patches is
    in place in the final image: for every pair of [hook_pc_pairs] the
    four bytes at the hook are the assembled long jump to the ROM
    address of a block that holds the assembled
    [make_effect_rt(pc_id, rom_hook)], which reads the records of the
    relocated table; likewise the sunshades hook and its routine.  No
    patch damages an earlier one.  Assumed: marking makes used, the
    manager hands out only space not held as used and never a hook byte,
    and the seven hooks, as file addresses, do not overlap each other. *)
Theorem jump_patches_installed `{Env} (used : FS -> Z -> Prop)
    (ct_rom ct_final : CTRom) :
  (forall fs a b x, used fs x \/ a <= x < b -> used (mark_used fs a b) x) ->
  (forall fs size hint a, get_free_addr fs size hint = Some a ->
                          forall x, in_block a size x -> ~ used fs x) ->
  (forall fs size hint a, get_free_addr fs size hint = Some a ->
                          forall x, in_block a size x -> ~ hook_byte x) ->
  ForallOrdPairs (fun h1 h2 : Z =>
                    forall x, in_block (to_file_ptr h1) 4 x ->
                              ~ in_block (to_file_ptr h2) 4 x)
    (map fst hook_pc_pairs ++ [ sunshades_hook_rom_addr ]) ->
  expand_effect_mods ct_rom = Ok ct_final ->
  exists new_eff_start,
    get_free_addr (space_manager ct_rom) ((0x39 + 6) * 3) 0x410000 = Some new_eff_start
    /\ Forall (patched (rom_data ct_final)) (jmp_patch_calls new_eff_start)
    /\ (forall rom_hook pc_id,
          (rom_hook, pc_id) ∈ hook_pc_pairs ->
          patched (rom_data ct_final)
            (make_effect_rt (to_rom_ptr new_eff_start) pc_id rom_hook,
             to_file_ptr rom_hook, default_hint))
    /\ patched (rom_data ct_final)
         (sunshades_rt, to_file_ptr sunshades_hook_rom_addr, 0x410000).
Proof.
  intros Hmark Hfresh Hsites Hapart Hrun.
  apply expand_effect_mods_inv in Hrun
    as (s & table & routines & ct1 & ct2 & pa & ptr_b & rt_b & payload & hook_b
        & Htable & _ & _ & _ & Hpatches).
  apply write_effect_table_inv in Htable as (vanilla & additional & Hg & Hnew & _ & Halloc & _).
  destruct (gather_vanilla_effects_inv _ _ Hg) as (Hvlen & _ & _).
  rewrite gather_new_effects_and_rts_value in Hnew. injection Hnew as <- _.
  assert (Hall : Forall (patched (rom_data ct_final)) (jmp_patch_calls s)).
  { eapply (apply_jmp_patches_installed used Hmark Hfresh); [| |exact Hpatches].
    - apply (ForallOrdPairs_fmap (fun c : ASMList * Z * Z => c.1.2)
               (fun a b => forall x, in_block a 4 x -> ~ in_block b 4 x)).
      change (map (fun c : ASMList * Z * Z => c.1.2) (jmp_patch_calls s))
        with (map to_file_ptr (map fst hook_pc_pairs ++ [ sunshades_hook_rom_addr ])).
      by apply ForallOrdPairs_fmap.
    - intros fs size hint a Ha x Hx.
      eapply Forall_impl; [apply (jmp_patch_calls_hook_byte s)|].
      intros c Hc Hb. cbn beta in Hc. by apply (Hsites _ _ _ _ Ha x Hx), Hc. }
  exists s. split.
  { rewrite <- Halloc. f_equal. unfold zlen, EffectMod_SIZE. rewrite length_app, Hvlen.
    reflexivity. }
  split; [exact Hall|].
  rewrite Forall_forall in Hall. split.
  - intros rom_hook pc_id Hin. apply Hall. unfold jmp_patch_calls.
    apply elem_of_app. left. apply list_elem_of_fmap. by exists (rom_hook, pc_id).
  - apply Hall. unfold jmp_patch_calls. apply elem_of_app. right. by left.
Qed.

Lemma sample_hooks_apart :
  ForallOrdPairs (fun h1 h2 : Z =>
                    forall x, in_block (@to_file_ptr sample_env h1) 4 x ->
                              ~ in_block (@to_file_ptr sample_env h2) 4 x)
    (map fst hook_pc_pairs ++ [ sunshades_hook_rom_addr ]).
Proof.
  cbn [map fst hook_pc_pairs app]. unfold in_block.
  repeat constructor; intros x;
    repeat match goal with
           | |- context [@to_file_ptr sample_env ?h] =>
               let v := eval vm_compute in (@to_file_ptr sample_env h) in
               change (@to_file_ptr sample_env h) with v
           end; lia.
Qed.

(** On the sample image the sunshades patch is in place at [0x01E5D8]. *)
Lemma jump_patches_installed_witness :
  exists ct_final,
    @expand_effect_mods sample_env sample_rom = Ok ct_final
    /\ @patched sample_env (@rom_data sample_env ct_final) (sunshades_rt, 0x01E5D8, 0x410000).
Proof.
  assert (Hrun : match @expand_effect_mods sample_env sample_rom with
                 | Ok _ => True
                 | Err _ => False
                 end) by (vm_compute; exact Logic.I).
  destruct (@expand_effect_mods sample_env sample_rom) as [ct_final|] eqn:Hw;
    [|contradiction].
  exists ct_final. split; [reflexivity|].
  destruct (@jump_patches_installed sample_env sample_used sample_rom ct_final
              sample_used_mark sample_used_fresh
              (fun fs size hint a Ha x Hx =>
                 proj2 (sample_sites_reserved fs size hint a Ha x Hx))
              sample_hooks_apart Hw) as (s & _ & _ & _ & Hsun).
  exact Hsun.
Defined.

(** ** The sunshades routine, run *)

(** X18. What the sunshades routine does when it runs.  It tests bit
    [_crown_bit] of the byte at [_crown_offset], X.  With the bit clear
    it does nothing of its own.  With the bit set it copies the 16-bit
    damage at [$2C] to [$28], stores 4 at [$2A] and calls [0xC1FDD3],
    then copies what that call left at [$2C] to [$28], stores 5 at [$2A]
    and calls [0xC1FDBF]: the damage goes through the division by 4 and
    the multiplication by 5, in this order.  Either way it ends by doing
    what the two instructions under its hook did, loading X from
    [$B1F4] and A from [$5E4B], X, and jumps to the instruction behind
    them, six bytes behind the hook. *)
Theorem sunshades_rt_run (cfg : mconfig) (st : machine) :
  let m := memory st in
  let crown := mread m (data_bank cfg + _crown_offset + idx st) in
  let finish (m' : gmap Z Z) :=
    let x' := read16 m' (data_bank cfg + 0xB1F4) in
    let a' := mread m' (data_bank cfg + 0x5E4B + x') in
    Jumped (sunshades_hook_rom_addr + 6) (mkMachine a' x' (a' =? 0) m') in
  (Z.land crown _crown_bit = 0 ->
     mexecute cfg sunshades_rt st = Some (finish m))
  /\ (Z.land crown _crown_bit <> 0 ->
      let st1 :=
        subroutine cfg 0xC1FDD3
          (mkMachine crown 4 false
             (write16 (direct_base cfg + 0x2A) 4
                (write16 (direct_base cfg + 0x28) (read16 m (direct_base cfg + 0x2C)) m))) in
      let st2 :=
        subroutine cfg 0xC1FDBF
          (mkMachine (acc st1) 5 false
             (write16 (direct_base cfg + 0x2A) 5
                (write16 (direct_base cfg + 0x28)
                   (read16 (memory st1) (direct_base cfg + 0x2C)) (memory st1)))) in
      mexecute cfg sunshades_rt st = Some (finish (memory st2))).
Proof.
  cbv zeta. destruct st as [a x z m]; cbv [idx memory]. split.
  - intros Hbit.
    unfold mexecute, sunshades_rt, ins, insm, ins0, insl. cbv [length].
    do 2 mrun_step. rewrite Hbit. change (0 =? 0) with true.
    mrun_step. mrun_branch. do 3 mrun_step. reflexivity.
  - intros Hbit.
    unfold mexecute, sunshades_rt, ins, insm, ins0, insl. cbv [length].
    do 2 mrun_step.
    replace (Z.land (mread m (data_bank cfg + _crown_offset + x)) _crown_bit =? 0)
      with false by (symmetry; by apply Z.eqb_neq).
    do 6 mrun_step. change (4 =? 0) with false.
    destruct (subroutine cfg 12713427 _) as [a1 x1 z1 m1].
    do 5 mrun_step. change (5 =? 0) with false.
    destruct (subroutine cfg 12713407 _) as [a2 x2 z2 m2].
    do 4 mrun_step. reflexivity.
Qed.

(** ** The crown effect and the sunshades routine *)




(** ** When [expand_effect_mods] returns an image *)

Lemma encode_none_ok (tbl : gmap string Z) (off : Z) (m : mnemonic) (am : option AM) :
  operand_size (mode_of (Inst m None am)) = 0%nat ->
  exists ob, encode_operand tbl off (Inst m None am) = Ok ob.
Proof. intros Hsz. unfold encode_operand. cbn [arg]. rewrite Hsz. by eexists. Qed.

Lemma encode_num_ok (tbl : gmap string Z) (off : Z) (m : mnemonic) (v : Z)
    (am : option AM) :
  0 <= v < 256 ^ Z.of_nat (operand_size (mode_of (Inst m (Some (Num v)) am))) ->
  exists ob, encode_operand tbl off (Inst m (Some (Num v)) am) = Ok ob.
Proof. intros Hv. unfold encode_operand. cbn [arg]. rewrite fit_operand_ok by done. by eexists. Qed.

Lemma static_size_nonneg (rt : ASMList) : 0 <= static_size rt.
Proof.
  induction rt as [|[i|s] rt IH]; [done| |]; rewrite static_size_cons; cbn [item_size];
    unfold inst_size; lia.
Qed.

Section AssembleOk.
Context `{Env}.

Lemma emit_cons_ok (tbl : gmap string Z) (i : instruction) (rt : ASMList) (off : Z) :
  (exists ob, encode_operand tbl off i = Ok ob) ->
  (exists rest, emit tbl rt (off + inst_size i) = Ok rest) ->
  exists bs, emit tbl (I i :: rt) off = Ok bs.
Proof. intros [ob Hob] [rest Hrest]. cbn [emit]. rewrite Hob, Hrest. by eexists. Qed.

Lemma emit_label_ok (tbl : gmap string Z) (s : string) (rt : ASMList) (off : Z) :
  (exists bs, emit tbl rt off = Ok bs) ->
  exists bs, emit tbl (L s :: rt) off = Ok bs.
Proof. intros Hrt. exact Hrt. Qed.

Lemma assemble_long_jump (v : Z) :
  0 <= v < 0x1000000 ->
  assemble [ ins JMP v LNG ] = Ok (opcode JMP LNG :: le_digits 3 v).
Proof.
  intros Hv. unfold assemble, ins.
  cbn [label_offsets emit encode_operand mode_of mode arg mnem operand_size rbind].
  rewrite fit_operand_ok by (change (256 ^ Z.of_nat 3) with 0x1000000; lia).
  cbn [rbind]. by rewrite app_nil_r.
Qed.

Lemma assemble_venus_bow : exists bs, assemble get_venus_bow_rt = Ok bs.
Proof. vm_compute. by eexists. Qed.

Lemma assemble_spellslinger : exists bs, assemble get_spellslinger_rt = Ok bs.
Proof. vm_compute. by eexists. Qed.

Lemma assemble_sunshades : exists bs, assemble sunshades_rt = Ok bs.
Proof. vm_compute. by eexists. Qed.
End AssembleOk.

Ltac encode_ok :=
  lazymatch goal with
  | |- exists ob, encode_operand _ _ (Inst _ None _) = Ok ob =>
      apply encode_none_ok; reflexivity
  | |- exists ob, encode_operand _ _ (Inst _ (Some (Num _)) _) = Ok ob =>
      apply encode_num_ok;
      cbn [operand_size mode_of mode mnem default_mode];
      first [ change (256 ^ Z.of_nat 1) with 0x100
            | change (256 ^ Z.of_nat 2) with 0x10000
            | change (256 ^ Z.of_nat 3) with 0x1000000 ];
      lia
  | |- exists ob, encode_operand _ _ (Inst _ (Some (Lbl _)) _) = Ok ob =>
      vm_compute; by eexists
  end.

Ltac emit_ok :=
  repeat lazymatch goal with
    | |- exists bs, emit _ [] _ = Ok bs => by eexists
    | |- exists bs, emit _ (L _ :: _) _ = Ok bs => apply emit_label_ok
    | |- exists bs, emit _ (I _ :: _) _ = Ok bs => apply emit_cons_ok; [encode_ok|]
    end.

(** [make_effect_rt] assembles for every table address whose two operands
    fit in 24 bits, every party slot and every hook below the top of the
    address space. *)
Lemma assemble_make_effect_rt `{Env} (p battle_index hook : Z) :
  0 <= p -> p + 1 < 0x1000000 ->
  0 <= battle_index <= 2 ->
  0 <= hook -> hook + 15 < 0x1000000 ->
  exists bs, assemble (make_effect_rt p battle_index hook) = Ok bs.
Proof.
  intros Hp0 Hp1 Hbi Hh0 Hh1. unfold assemble.
  assert (Htbl : label_offsets (make_effect_rt p battle_index hook) 0 ∅
                 = label_offsets (make_effect_rt 0 0 0) 0 ∅) by reflexivity.
  rewrite Htbl. set (tbl := label_offsets (make_effect_rt 0 0 0) 0 ∅).
  unfold make_effect_rt, ins, insm, insl, ins0, _crown_offset. cbv zeta.
  emit_ok.
Qed.

Section Success.
Context `{Env}.
Variable room : FS -> Z -> Prop.
Hypothesis room_alloc : forall fs n size hint,
  room fs n -> 0 <= size <= n -> hint = 0x410000 \/ hint = default_hint ->
  exists a, get_free_addr fs size hint = Some a
    /\ room (mark_used fs a (a + size)) (n - size)
    /\ a mod 0x10000 + size <= 0x10000
    /\ 0 <= to_rom_ptr a /\ to_rom_ptr a + 2 < 0x1000000
    /\ (forall y, 0 <= y < size -> 0 <= to_rom_ptr (to_rom_ptr (a + y)) < 0x1000000).

Lemma rewrite_refs_ok (rom_addr : Z) (items : list (Z * Z)) (ct_rom : CTRom) :
  Forall (fun it : Z * Z => 0 <= rom_addr + it.2 < 0x1000000) items ->
  exists ct_rom', rewrite_refs rom_addr items ct_rom = Ok ct_rom'
                  /\ space_manager ct_rom' = space_manager ct_rom.
Proof.
  intros Hitems. revert ct_rom.
  induction Hitems as [|[addr offset] items Hit _ IH]; intros ct_rom;
    cbn [rewrite_refs]; [by eexists|].
  rewrite to_bytes_le_ok by (change (256 ^ Z.of_nat 3) with 0x1000000; exact Hit).
  cbn [rbind].
  destruct (IH (write (le_digits 3 (rom_addr + offset)) NO_MARK (seek addr ct_rom)))
    as (ct' & -> & Hfs).
  exists ct'. split; [reflexivity | exact Hfs].
Qed.

Lemma build_routine_payload_ok (ct_rom : CTRom) (n : Z) :
  room (space_manager ct_rom) n -> 90 <= n ->
  exists pa ptr_b rt_b payload,
    build_routine_payload ct_rom [ get_venus_bow_rt; get_spellslinger_rt ]
    = Ok (pa, ptr_b, rt_b, payload)
    /\ zlen payload = 90
    /\ zlen rt_b + zlen ptr_b = 66
    /\ room (mark_used (space_manager ct_rom) pa (pa + 90)) (n - 90)
    /\ 0 <= to_rom_ptr (to_rom_ptr (pa + 66)) < 0x1000000.
Proof.
  intros Hroom Hn.
  destruct assemble_venus_bow as [venus_b Hv].
  destruct assemble_spellslinger as [spell_b Hs].
  pose proof (assemble_length _ _ Hv) as Hvl.
  pose proof (assemble_length _ _ Hs) as Hsl.
  change (static_size get_venus_bow_rt) with 7 in Hvl.
  change (static_size get_spellslinger_rt) with 55 in Hsl.
  destruct (assemble_bank_switch_length 0) as (dummy_b & Hd & Hdl).
  destruct (room_alloc _ n 90 0x410000 Hroom ltac:(lia) ltac:(by left))
    as (pa & Halloc & Hroom' & Hbank & _ & _ & Hptr).
  destruct (assemble_bank_switch_length (to_rom_ptr pa)) as (real_b & Hr & Hrl).
  assert (Hfirst : Z.land (pa + zlen [get_venus_bow_rt; get_spellslinger_rt] * 2) 0xFFFF
                   + zsum (removelast (map zlen [venus_b; spell_b])) < 0x10000).
  { rewrite land_FFFF. change (zlen [get_venus_bow_rt; get_spellslinger_rt] * 2) with 4.
    cbn [map removelast zsum fold_right]. rewrite Hvl.
    pose proof (Z.mod_pos_bound pa 0x10000 ltac:(lia)) as Hm.
    rewrite <- (Zplus_mod_idemp_l pa 4), Z.mod_small; lia. }
  apply (proj2 (build_ptr_table_succeeds pa [get_venus_bow_rt; get_spellslinger_rt]
                  [venus_b; spell_b] ltac:(discriminate) eq_refl)) in Hfirst
    as (ptr_b & rt_b & Hptrs).
  pose proof (build_ptr_table_layout pa [get_venus_bow_rt; get_spellslinger_rt]
                [venus_b; spell_b] ltac:(discriminate) eq_refl _ _ Hptrs)
    as (Hrt & Hpl & _).
  change (zlen [get_venus_bow_rt; get_spellslinger_rt]) with 2 in Hpl.
  assert (Hrtl : zlen rt_b = 62).
  { rewrite Hrt. cbn [concat]. rewrite !zlen_app, Hvl, Hsl. reflexivity. }
  exists pa, ptr_b, rt_b, (ptr_b ++ rt_b ++ real_b).
  split; [|split; [|split; [|split]]].
  - unfold build_routine_payload. cbn [rmap]. rewrite Hv, Hs. cbn [rbind].
    rewrite Hd. cbn [rbind].
    cbn [map zsum fold_right]. rewrite Hvl, Hsl, Hdl.
    change (7 + (55 + 0) + 2 * zlen [venus_b; spell_b] + 24) with 90.
    rewrite Halloc. cbn [rbind of_option]. rewrite Hr. cbn [rbind].
    rewrite Hptrs. cbn [rbind].
    rewrite !zlen_app, Hpl, Hrtl, Hrl. reflexivity.
  - rewrite !zlen_app, Hpl, Hrtl, Hrl. reflexivity.
  - lia.
  - exact Hroom'.
  - apply Hptr. lia.
Qed.

Lemma apply_jmp_patch_ok (rt : ASMList) (hook hint : Z) (ct_rom : CTRom)
    (n : Z) (rt_b : list Z) :
  assemble rt = Ok rt_b ->
  hint = 0x410000 \/ hint = default_hint ->
  room (space_manager ct_rom) n -> zlen rt_b <= n ->
  exists ct_rom', apply_jmp_patch rt hook ct_rom hint = Ok ct_rom'
                  /\ room (space_manager ct_rom') (n - zlen rt_b).
Proof.
  intros Hrt Hhint Hroom Hn. unfold apply_jmp_patch. rewrite Hrt. cbn [rbind].
  destruct (room_alloc _ n (zlen rt_b) hint Hroom ltac:(pose proof (zlen_nonneg rt_b); lia) Hhint)
    as (a & -> & Hroom' & _ & Hp0 & Hp1 & _).
  cbn [rbind of_option].
  rewrite assemble_long_jump by lia. cbn [rbind].
  eexists. split; [reflexivity|]. exact Hroom'.
Qed.

Lemma apply_jmp_patches_ok (calls : list (ASMList * Z * Z)) (ct_rom : CTRom) (n : Z) :
  Forall (fun c : ASMList * Z * Z =>
            (exists rt_b, assemble c.1.1 = Ok rt_b)
            /\ (c.2 = 0x410000 \/ c.2 = default_hint)) calls ->
  room (space_manager ct_rom) n ->
  zsum (map (fun c : ASMList * Z * Z => static_size c.1.1) calls) <= n ->
  exists ct_rom', apply_jmp_patches calls ct_rom = Ok ct_rom'.
Proof.
  intros Hcalls. revert ct_rom n.
  induction Hcalls as [|[[rt hook] hint] calls [[rt_b Hrt] Hhint] _ IH];
    intros ct_rom n Hroom Hn; cbn [apply_jmp_patches]; [by eexists|].
  cbn [map zsum fold_right fst snd] in Hn, Hrt, Hhint.
  fold (zsum (map (fun c : ASMList * Z * Z => static_size c.1.1) calls)) in Hn.
  pose proof (assemble_length _ _ Hrt) as Hlen.
  assert (Hnn : 0 <= zsum (map (fun c : ASMList * Z * Z => static_size c.1.1) calls)).
  { apply zsum_nonneg, Forall_fmap, Forall_forall. intros c _. apply static_size_nonneg. }
  destruct (apply_jmp_patch_ok rt hook hint ct_rom n rt_b Hrt Hhint Hroom ltac:(lia))
    as (ct1 & -> & Hroom1).
  cbn [rbind]. apply (IH ct1 (n - zlen rt_b) Hroom1). lia.
Qed.

End Success.

(** X20. [expand_effect_mods] returns an image whenever the vanilla
    records can be read and the free-space manager has 754 bytes of the
    right kind left: 189 for the table of 63 records, 90 for the routine
    payload (4 of pointers, 7 and 55 of routines, 24 of dispatch), 72
    for each of the six armor routines and 43 for the sunshades routine.
    The right kind: each block granted lies in one bank, the pointer of
    its start together with the two bytes after it fits in 24 bits, and
    the pointer of a pointer into the block fits in 24 bits too (the hook
    of the dispatch routine is converted twice). *)
Theorem expand_effect_mods_succeeds `{Env} (room : FS -> Z -> Prop)
    (ct_rom : CTRom) (n : Z) (vanilla : list (list Z)) :
  (forall fs n size hint,
     room fs n -> 0 <= size <= n -> hint = 0x410000 \/ hint = default_hint ->
     exists a, get_free_addr fs size hint = Some a
       /\ room (mark_used fs a (a + size)) (n - size)
       /\ a mod 0x10000 + size <= 0x10000
       /\ 0 <= to_rom_ptr a /\ to_rom_ptr a + 2 < 0x1000000
       /\ (forall y, 0 <= y < size ->
             0 <= to_rom_ptr (to_rom_ptr (a + y)) < 0x1000000)) ->
  gather_vanilla_effects ct_rom = Ok vanilla ->
  room (space_manager ct_rom) n ->
  754 <= n ->
  exists ct_final, expand_effect_mods ct_rom = Ok ct_final.
Proof.
  intros room_alloc Hg Hroom Hn.
  destruct (gather_vanilla_effects_inv _ _ Hg) as (Hlen & Hall & _).
  assert (Hsize : forall additional : list (list Z),
            length additional = 6%nat ->
            zlen (vanilla ++ additional) * EffectMod_SIZE = 189).
  { intros additional Ha. unfold zlen, EffectMod_SIZE. rewrite length_app, Hlen, Ha.
    reflexivity. }
  destruct (room_alloc _ n 189 0x410000 Hroom ltac:(lia) ltac:(by left))
    as (s & Halloc & Hroom1 & _ & Hs0 & Hs1 & _).
  unfold expand_effect_mods, write_effect_table.
  rewrite Hg, gather_new_effects_and_rts_value. cbn [rbind].
  rewrite Hsize by reflexivity. rewrite Halloc. cbn [rbind of_option].
  match goal with
  | |- context [rewrite_refs ?r ?items ?ct] =>
      destruct (rewrite_refs_ok r items ct) as (ct2 & -> & Hfs2)
  end.
  { unfold addr_offset_dict. repeat constructor; cbn [snd]; lia. }
  cbn [rbind].
  assert (Hroom2 : room (space_manager ct2) (n - 189)).
  { rewrite Hfs2. cbn [write seek space_manager rom_pos].
    replace (zlen (concat _)) with 189; [exact Hroom1|].
    unfold zlen. rewrite (length_concat_chunks 3);
      [|apply Forall_app; split; [exact Hall | by repeat constructor]].
    rewrite length_app, Hlen. reflexivity. }
  destruct (build_routine_payload_ok room room_alloc ct2 (n - 189) Hroom2 ltac:(lia))
    as (pa & ptr_b & rt_b & payload & -> & Hpl & Hoff & Hroom3 & Hhook).
  cbn [rbind]. replace (pa + zlen rt_b + zlen ptr_b) with (pa + 66) by lia.
  rewrite (assemble_long_jump _ Hhook). cbn [rbind].
  rewrite patches_are_jmp_patch_calls.
  apply (apply_jmp_patches_ok room room_alloc _ _ (n - 189 - 90)).
  - unfold jmp_patch_calls. apply Forall_app. split.
    + apply Forall_fmap, Forall_forall. intros [hook pc] Hin. unfold compose.
      cbn [fst snd]. split.
      * unfold hook_pc_pairs in Hin.
        repeat (apply elem_of_cons in Hin as [[= -> ->]|Hin];
                [apply assemble_make_effect_rt; lia|]).
        by apply elem_of_nil in Hin.
      * by right.
    + constructor; [split; [apply assemble_sunshades | by left] | constructor].
  - cbn [write seek space_manager rom_pos]. rewrite Hpl. exact Hroom3.
  - unfold jmp_patch_calls. rewrite map_app, map_map. cbn [fst snd map hook_pc_pairs].
    change (zsum _) with 475. lia.
Qed.

Lemma sample_room_alloc (fs : @FS sample_env) (n size hint : Z) :
  sample_room fs n -> 0 <= size <= n ->
  hint = 0x410000 \/ hint = @default_hint sample_env ->
  exists a, @get_free_addr sample_env fs size hint = Some a
    /\ sample_room (@mark_used sample_env fs a (a + size)) (n - size)
    /\ a mod 0x10000 + size <= 0x10000
    /\ 0 <= @to_rom_ptr sample_env a /\ @to_rom_ptr sample_env a + 2 < 0x1000000
    /\ (forall y, 0 <= y < size ->
          0 <= @to_rom_ptr sample_env (@to_rom_ptr sample_env (a + y)) < 0x1000000).
Proof.
  intros [Hlo Hhi] Hsize Hhint. exists fs.
  assert (Hh : hint = 0x410000) by (by destruct Hhint).
  assert (Hptr : forall x, 0x400000 <= x -> sample_to_rom_ptr x = x).
  { intros x Hx. unfold sample_to_rom_ptr. destruct (x <? 0x400000) eqn:E; [|done].
    apply Z.ltb_lt in E. lia. }
  cbn [get_free_addr mark_used to_rom_ptr sample_env]. rewrite Hh.
  split; [f_equal; lia|]. split; [unfold sample_room; lia|].
  split.
  { replace fs with ((fs - 0x410000) + 0x41 * 0x10000) at 1 by lia.
    rewrite Z_mod_plus_full.
    destruct (Z.eq_dec fs 0x420000) as [->|Hne];
      [change ((0x420000 - 0x410000) mod 0x10000) with 0; lia|].
    rewrite Z.mod_small; lia. }
  rewrite Hptr by lia. split; [lia|]. split; [lia|].
  intros y Hy. rewrite !Hptr; rewrite ?Hptr; lia.
Qed.

Lemma expand_effect_mods_succeeds_witness :
  exists ct_final, @expand_effect_mods sample_env sample_rom = Ok ct_final.
Proof.
  assert (Hg : match @gather_vanilla_effects sample_env sample_rom with
               | Ok _ => True
               | Err _ => False
               end) by (vm_compute; exact Logic.I).
  destruct (@gather_vanilla_effects sample_env sample_rom) as [vanilla|] eqn:Eg;
    [|contradiction].
  apply (@expand_effect_mods_succeeds sample_env sample_room sample_rom 754 vanilla
           sample_room_alloc Eg).
  - unfold sample_room. change (space_manager sample_rom) with 0x410000. lia.
  - lia.
Defined.
